(** * dmfUSD / dmfEUR: a shallow embedding of the backed-token ledger

    The two Solidity contracts [dmfUSD] and [dmfEUR] (src/lib/web3/config.ts,
    lines 195-896 and 948-1657) are the same program text up to the names of
    the backing asset, the way a deposit arrives ([msg.value] against
    [safeTransferFrom]) and the way a refund leaves (a native call against
    [safeTransfer]).  The embedding follows the contract function by function
    and keeps the three differences as a case on [backing].  Names are those
    of dmfUSD; dmfEUR has EURC wherever dmfUSD has USDC ([eurcReserves],
    [MINIMUM_PURCHASE_EURC], [_getTokensForEurc], [InsufficientEURC], ...).

    - [uint256] is [N] with every overflow, underflow and division check of
      Solidity 0.8 written out; [unchecked] blocks wrap modulo [2^256].
    - [mapping(address => _)] is a [gmap N _] read with the default value.
    - A function is a computation in the monad [M]: it reads and writes the
      storage record [State], may revert with an [Error], and logs every
      [staticcall] probe it issues.
    - The code of other accounts is the oracle record [World]: what a
      [staticcall] probe answers, and whether a transfer of the backing asset
      goes through.  The receiver of a refund is not run.  Its call is the
      last statement of the refund and every entry point it could reach from
      there is either behind the reentrancy guard or a transfer that does not
      read the guard, so a call back is a later transaction of this model.
    - Inherited OpenZeppelin 4.9.3 code ([ERC20], [Ownable2Step],
      [ReentrancyGuard], [Math.mulDiv], [SafeERC20]) is modelled from that
      release.
    - Events are not part of the model. *)

From stdpp Require Import base numbers option list gmap.
From Stdlib Require Import NArith ZArith Lia.

Local Open Scope N_scope.

(** [lia] and [nia] reason about the truncating division of the contract. *)
Ltac Zify.zify_post_hook ::= Z.to_euclidean_division_equations.

(** ** Machine integers *)

Abbreviation address := N (only parsing).
Abbreviation uint256 := N (only parsing).

Definition MAX_UINT256 : N := 2 ^ 256 - 1.
Definition MODULUS : N := 2 ^ 256.
Definition ADDRESS_LIMIT : N := 2 ^ 160.

Inductive Error : Type :=
  | dmfUSDAddress
  | dmfUSDAmount
  | InsufficientBalance
  | InsufficientUSDC
  | NoTokensInCirculation
  | USDCTransferFailed
  | Panic                (* arithmetic overflow, underflow, division by zero *)
  | MulDivOverflow       (* "Math: mulDiv overflow" *)
  | AbiDecode            (* abi.decode of a malformed word *)
  | ReentrantCall        (* "ReentrancyGuard: reentrant call" *)
  | NotOwner             (* "Ownable: caller is not the owner" / new owner *)
  | SafeERC20Failed      (* SafeERC20 low-level call failed *)
  | ERC20ZeroAddress     (* "ERC20: ... the zero address" *)
  | ERC20ExceedsBalance  (* "ERC20: transfer/burn amount exceeds balance" *)
  | ERC20Allowance       (* "ERC20: insufficient allowance" *)
  | PermitRejected.      (* expired deadline or invalid signature *)

(** The probes of the classifier, by signature. *)
Inductive Selector : Type :=
  | sel_token0 | sel_token1 | sel_factory | sel_getReserves | sel_getPair
  | sel_swap | sel_supply | sel_deposit | sel_sendToChain.

Definition Probe : Type := (address * Selector)%type.

(** What [addr.staticcall(...)] gives back: the success flag, the length of
    the returned bytes and their first 32-byte word. *)
Record Reply : Type := mkReply {
  reply_ok : bool;
  reply_length : N;
  reply_word : N
}.

(** How the backing asset is held: [dmfUSD] takes native value,
    [dmfEUR] pulls an ERC-20. *)
Inductive Backing : Type :=
  | NativeUSDC
  | TokenEURC (eurc : address).

Record Deploy : Type := mkDeploy {
  this : address;
  backing : Backing
}.

(** The other accounts of the chain, as far as the contract looks at them. *)
Record World : Type := mkWorld {
  code_length : address -> N;
  staticcall : address -> Selector -> Reply;
  (* payable(sender).call{value: v}("") / EURC.safeTransfer(sender, v) *)
  payout_ok : address -> N -> bool;
  (* EURC.safeTransferFrom(sender, this, v) *)
  pull_ok : address -> N -> bool
}.

(** ** Storage *)

Inductive Status : Type := NOT_ENTERED | ENTERED.

Record State : Type := mkState {
  (* ERC20 *)
  _balances : gmap N N;
  _allowances : gmap (N * N) N;
  _totalSupply : N;
  (* Ownable2Step, ReentrancyGuard *)
  _owner : address;
  _pendingOwner : address;
  _status : Status;
  (* dmfUSD *)
  usdcReserves : N;
  totalBurned : N;
  tokensSold : N;
  devAddress : address;
  magnifiedDividendPerShare : N;
  totalDividendsDistributed : N;
  lastDividendPerShare : gmap N N;
  accumulatedDividends : gmap N N;
  _isExcludedFromFee : gmap N bool;
  _isLiquidityPair : gmap N bool;
  _isNotLiquidityPair : gmap N bool
}.

Definition set_balances (v : gmap N N) (s : State) : State :=
  mkState v (_allowances s) (_totalSupply s) (_owner s) (_pendingOwner s) (_status s)
    (usdcReserves s) (totalBurned s) (tokensSold s) (devAddress s)
    (magnifiedDividendPerShare s) (totalDividendsDistributed s)
    (lastDividendPerShare s) (accumulatedDividends s)
    (_isExcludedFromFee s) (_isLiquidityPair s) (_isNotLiquidityPair s).

Definition set_allowances (v : gmap (N * N) N) (s : State) : State :=
  mkState (_balances s) v (_totalSupply s) (_owner s) (_pendingOwner s) (_status s)
    (usdcReserves s) (totalBurned s) (tokensSold s) (devAddress s)
    (magnifiedDividendPerShare s) (totalDividendsDistributed s)
    (lastDividendPerShare s) (accumulatedDividends s)
    (_isExcludedFromFee s) (_isLiquidityPair s) (_isNotLiquidityPair s).

Definition set_totalSupply (v : N) (s : State) : State :=
  mkState (_balances s) (_allowances s) v (_owner s) (_pendingOwner s) (_status s)
    (usdcReserves s) (totalBurned s) (tokensSold s) (devAddress s)
    (magnifiedDividendPerShare s) (totalDividendsDistributed s)
    (lastDividendPerShare s) (accumulatedDividends s)
    (_isExcludedFromFee s) (_isLiquidityPair s) (_isNotLiquidityPair s).

Definition set_owner (v : address) (s : State) : State :=
  mkState (_balances s) (_allowances s) (_totalSupply s) v (_pendingOwner s) (_status s)
    (usdcReserves s) (totalBurned s) (tokensSold s) (devAddress s)
    (magnifiedDividendPerShare s) (totalDividendsDistributed s)
    (lastDividendPerShare s) (accumulatedDividends s)
    (_isExcludedFromFee s) (_isLiquidityPair s) (_isNotLiquidityPair s).

Definition set_pendingOwner (v : address) (s : State) : State :=
  mkState (_balances s) (_allowances s) (_totalSupply s) (_owner s) v (_status s)
    (usdcReserves s) (totalBurned s) (tokensSold s) (devAddress s)
    (magnifiedDividendPerShare s) (totalDividendsDistributed s)
    (lastDividendPerShare s) (accumulatedDividends s)
    (_isExcludedFromFee s) (_isLiquidityPair s) (_isNotLiquidityPair s).

Definition set_status (v : Status) (s : State) : State :=
  mkState (_balances s) (_allowances s) (_totalSupply s) (_owner s) (_pendingOwner s) v
    (usdcReserves s) (totalBurned s) (tokensSold s) (devAddress s)
    (magnifiedDividendPerShare s) (totalDividendsDistributed s)
    (lastDividendPerShare s) (accumulatedDividends s)
    (_isExcludedFromFee s) (_isLiquidityPair s) (_isNotLiquidityPair s).

Definition set_usdcReserves (v : N) (s : State) : State :=
  mkState (_balances s) (_allowances s) (_totalSupply s) (_owner s) (_pendingOwner s) (_status s)
    v (totalBurned s) (tokensSold s) (devAddress s)
    (magnifiedDividendPerShare s) (totalDividendsDistributed s)
    (lastDividendPerShare s) (accumulatedDividends s)
    (_isExcludedFromFee s) (_isLiquidityPair s) (_isNotLiquidityPair s).

Definition set_totalBurned (v : N) (s : State) : State :=
  mkState (_balances s) (_allowances s) (_totalSupply s) (_owner s) (_pendingOwner s) (_status s)
    (usdcReserves s) v (tokensSold s) (devAddress s)
    (magnifiedDividendPerShare s) (totalDividendsDistributed s)
    (lastDividendPerShare s) (accumulatedDividends s)
    (_isExcludedFromFee s) (_isLiquidityPair s) (_isNotLiquidityPair s).

Definition set_tokensSold (v : N) (s : State) : State :=
  mkState (_balances s) (_allowances s) (_totalSupply s) (_owner s) (_pendingOwner s) (_status s)
    (usdcReserves s) (totalBurned s) v (devAddress s)
    (magnifiedDividendPerShare s) (totalDividendsDistributed s)
    (lastDividendPerShare s) (accumulatedDividends s)
    (_isExcludedFromFee s) (_isLiquidityPair s) (_isNotLiquidityPair s).

Definition set_devAddress (v : address) (s : State) : State :=
  mkState (_balances s) (_allowances s) (_totalSupply s) (_owner s) (_pendingOwner s) (_status s)
    (usdcReserves s) (totalBurned s) (tokensSold s) v
    (magnifiedDividendPerShare s) (totalDividendsDistributed s)
    (lastDividendPerShare s) (accumulatedDividends s)
    (_isExcludedFromFee s) (_isLiquidityPair s) (_isNotLiquidityPair s).

Definition set_magnifiedDividendPerShare (v : N) (s : State) : State :=
  mkState (_balances s) (_allowances s) (_totalSupply s) (_owner s) (_pendingOwner s) (_status s)
    (usdcReserves s) (totalBurned s) (tokensSold s) (devAddress s)
    v (totalDividendsDistributed s)
    (lastDividendPerShare s) (accumulatedDividends s)
    (_isExcludedFromFee s) (_isLiquidityPair s) (_isNotLiquidityPair s).

Definition set_totalDividendsDistributed (v : N) (s : State) : State :=
  mkState (_balances s) (_allowances s) (_totalSupply s) (_owner s) (_pendingOwner s) (_status s)
    (usdcReserves s) (totalBurned s) (tokensSold s) (devAddress s)
    (magnifiedDividendPerShare s) v
    (lastDividendPerShare s) (accumulatedDividends s)
    (_isExcludedFromFee s) (_isLiquidityPair s) (_isNotLiquidityPair s).

Definition set_lastDividendPerShare (v : gmap N N) (s : State) : State :=
  mkState (_balances s) (_allowances s) (_totalSupply s) (_owner s) (_pendingOwner s) (_status s)
    (usdcReserves s) (totalBurned s) (tokensSold s) (devAddress s)
    (magnifiedDividendPerShare s) (totalDividendsDistributed s)
    v (accumulatedDividends s)
    (_isExcludedFromFee s) (_isLiquidityPair s) (_isNotLiquidityPair s).

Definition set_accumulatedDividends (v : gmap N N) (s : State) : State :=
  mkState (_balances s) (_allowances s) (_totalSupply s) (_owner s) (_pendingOwner s) (_status s)
    (usdcReserves s) (totalBurned s) (tokensSold s) (devAddress s)
    (magnifiedDividendPerShare s) (totalDividendsDistributed s)
    (lastDividendPerShare s) v
    (_isExcludedFromFee s) (_isLiquidityPair s) (_isNotLiquidityPair s).

Definition set_isExcludedFromFee (v : gmap N bool) (s : State) : State :=
  mkState (_balances s) (_allowances s) (_totalSupply s) (_owner s) (_pendingOwner s) (_status s)
    (usdcReserves s) (totalBurned s) (tokensSold s) (devAddress s)
    (magnifiedDividendPerShare s) (totalDividendsDistributed s)
    (lastDividendPerShare s) (accumulatedDividends s)
    v (_isLiquidityPair s) (_isNotLiquidityPair s).

Definition set_isLiquidityPair (v : gmap N bool) (s : State) : State :=
  mkState (_balances s) (_allowances s) (_totalSupply s) (_owner s) (_pendingOwner s) (_status s)
    (usdcReserves s) (totalBurned s) (tokensSold s) (devAddress s)
    (magnifiedDividendPerShare s) (totalDividendsDistributed s)
    (lastDividendPerShare s) (accumulatedDividends s)
    (_isExcludedFromFee s) v (_isNotLiquidityPair s).

Definition set_isNotLiquidityPair (v : gmap N bool) (s : State) : State :=
  mkState (_balances s) (_allowances s) (_totalSupply s) (_owner s) (_pendingOwner s) (_status s)
    (usdcReserves s) (totalBurned s) (tokensSold s) (devAddress s)
    (magnifiedDividendPerShare s) (totalDividendsDistributed s)
    (lastDividendPerShare s) (accumulatedDividends s)
    (_isExcludedFromFee s) (_isLiquidityPair s) v.

(** ** The monad of contract code *)

Inductive Result (A : Type) : Type :=
  | Ok (a : A) (s : State) (probes : list Probe)
  | Revert (e : Error).
Arguments Ok {A} a s probes.
Arguments Revert {A} e.

Definition M (A : Type) : Type := State -> Result A.

Definition ret {A} (a : A) : M A := fun s => Ok a s [].

Definition bind {A B} (m : M A) (k : A -> M B) : M B :=
  fun s =>
    match m s with
    | Ok a s1 l1 =>
        match k a s1 with
        | Ok b s2 l2 => Ok b s2 (l1 ++ l2)
        | Revert e => Revert e
        end
    | Revert e => Revert e
    end.

#[global] Instance M_ret : MRet M := @ret.
#[global] Instance M_bind : MBind M := fun A B k m => bind m k.

Definition revert {A} (e : Error) : M A := fun _ => Revert e.
Definition gets {A} (f : State -> A) : M A := fun s => Ok (f s) s [].
Definition modify (f : State -> State) : M unit := fun s => Ok tt (f s) [].
Definition probe (w : World) (a : address) (sel : Selector) : M Reply :=
  fun s => Ok (staticcall w a sel) s [(a, sel)].

(** [if (c) revert E();] and [require(c, ...)] *)
Definition revert_if (c : bool) (e : Error) : M unit :=
  if c then revert e else ret tt.
Definition require (c : bool) (e : Error) : M unit :=
  if c then ret tt else revert e.
Definition when (c : bool) (m : M unit) : M unit :=
  if c then m else ret tt.

(** Checked arithmetic of Solidity 0.8. *)
Definition add (a b : N) : M N :=
  if a + b <=? MAX_UINT256 then ret (a + b) else revert Panic.
Definition sub (a b : N) : M N :=
  if b <=? a then ret (a - b) else revert Panic.
Definition mul (a b : N) : M N :=
  if a * b <=? MAX_UINT256 then ret (a * b) else revert Panic.
Definition div (a b : N) : M N :=
  if b =? 0 then revert Panic else ret (a / b).

(** Arithmetic inside [unchecked { }]. *)
Definition sub_wrap (a b : N) : N := (a + MODULUS - b mod MODULUS) mod MODULUS.
Definition add_wrap (a b : N) : N := (a + b) mod MODULUS.

(** OpenZeppelin 4.9.3 [Math.mulDiv]: the full-width product divided by the
    denominator, rounded down; it reverts when the quotient does not fit in
    256 bits or the denominator is zero. *)
Definition mulDiv (x y denominator : N) : M N :=
  if x * y <=? MAX_UINT256 then div (x * y) denominator
  else if x * y / MODULUS <? denominator then ret (x * y / denominator)
  else revert MulDivOverflow.

Definition min (a b : N) : N := if a <? b then a else b.

(** Mapping reads. *)
Definition at_ (m : gmap N N) (a : address) : N := default 0 (m !! a).
Definition flag (m : gmap N bool) (a : address) : bool := default false (m !! a).

(** ** Constants fixed by the constructor (lines 281-303) *)

Definition TOTAL_SUPPLY : N := 100000000000 * 1000000.
Definition BURNING_LIMIT : N := TOTAL_SUPPLY / 5.
Definition MINIMUM_PURCHASE_USDC : N := 100000.
Definition BASE_PRICE : N := 1000000.
Definition PRECISION_DIVISOR : N := 10000.
Definition EFFECTIVE_BACKING_NUMERATOR : N := 999.
Definition EFFECTIVE_BACKING_DENOMINATOR : N := 1000.
Definition BUY_DEV_FEE_BPS : N := 5.
Definition BUY_RESERVE_FEE_BPS : N := 10.
Definition BUY_REFLECTION_FEE_BPS : N := 10.
Definition REFUND_DEV_FEE_BPS : N := 5.
Definition REFUND_REFLECTION_FEE_BPS : N := 5.
Definition TRANSFER_DEV_FEE_BPS : N := 5.
Definition TRANSFER_REFLECTION_FEE_BPS : N := 10.
Definition TRANSFER_RESERVE_FEE_BPS : N := 10.
Definition MAGNITUDE : N := 2 ^ 128.

(** ** OpenZeppelin 4.9.3 base contracts *)

Definition nonReentrant {A} (body : M A) : M A :=
  st ← gets _status;
  require (match st with ENTERED => false | NOT_ENTERED => true end) ReentrantCall;;
  modify (set_status ENTERED);;
  r ← body;
  modify (set_status NOT_ENTERED);;
  ret r.

Definition onlyOwner (sender : address) : M unit :=
  o ← gets _owner;
  require (o =? sender) NotOwner.

(** [ERC20._transfer], reached in the contract as [super._transfer]. *)
Definition super_transfer (from to amount : N) : M unit :=
  require (negb (from =? 0)) ERC20ZeroAddress;;
  require (negb (to =? 0)) ERC20ZeroAddress;;
  fromBalance ← gets (fun s => at_ (_balances s) from);
  require (amount <=? fromBalance) ERC20ExceedsBalance;;
  modify (fun s => set_balances (<[from := fromBalance - amount]> (_balances s)) s);;
  modify (fun s => set_balances (<[to := add_wrap (at_ (_balances s) to) amount]> (_balances s)) s).

Definition _mint (account amount : N) : M unit :=
  require (negb (account =? 0)) ERC20ZeroAddress;;
  ts ← gets _totalSupply;
  ts' ← add ts amount;
  modify (set_totalSupply ts');;
  modify (fun s => set_balances (<[account := add_wrap (at_ (_balances s) account) amount]> (_balances s)) s).

Definition _burn (account amount : N) : M unit :=
  require (negb (account =? 0)) ERC20ZeroAddress;;
  accountBalance ← gets (fun s => at_ (_balances s) account);
  require (amount <=? accountBalance) ERC20ExceedsBalance;;
  modify (fun s => set_balances (<[account := accountBalance - amount]> (_balances s)) s);;
  modify (fun s => set_totalSupply (sub_wrap (_totalSupply s) amount) s).

Definition allowance (owner spender : address) : M N :=
  gets (fun s => default 0 (_allowances s !! (owner, spender))).

Definition _approve (owner spender amount : N) : M unit :=
  require (negb (owner =? 0)) ERC20ZeroAddress;;
  require (negb (spender =? 0)) ERC20ZeroAddress;;
  modify (fun s => set_allowances (<[(owner, spender) := amount]> (_allowances s)) s).

Definition _spendAllowance (owner spender amount : N) : M unit :=
  currentAllowance ← allowance owner spender;
  if currentAllowance =? MAX_UINT256 then ret tt
  else
    require (amount <=? currentAllowance) ERC20Allowance;;
    _approve owner spender (currentAllowance - amount).

Definition _transferOwnership (newOwner : address) : M unit :=
  modify (set_pendingOwner 0);;
  modify (set_owner newOwner).

(** Short-circuit [&&] and [||] over calls that probe. *)
Definition and_then (a b : M bool) : M bool :=
  x ← a; if x : bool then b else ret false.
Definition or_else (a b : M bool) : M bool :=
  x ← a; if x : bool then ret true else b.

Section Contract.

Context (d : Deploy) (w : World).

(** ** Views of the ledger (lines 324-330, 619-624) *)

Definition balanceOf (account : address) : M N :=
  gets (fun s => at_ (_balances s) account).

Definition totalSupply : M N :=
  b ← gets totalBurned;
  sub TOTAL_SUPPLY b.

Definition getCirculatingSupply : M N :=
  total ← totalSupply;
  contractBalance ← balanceOf (this d);
  sub total contractBalance.

(** ** Classifier (lines 783-814, 381-407) *)

Definition isContract (_addr : address) : M bool :=
  if code_length w _addr =? 0 then ret false else
  r0 ← probe w _addr sel_token0;
  r1 ← probe w _addr sel_token1;
  if reply_ok r0 && reply_ok r1 && (reply_length r0 =? 32) && (reply_length r1 =? 32)
  then ret true else
  r2 ← probe w _addr sel_factory;
  if reply_ok r2 then ret true else
  r3 ← probe w _addr sel_getReserves;
  if reply_ok r3 then ret true else
  r4 ← probe w _addr sel_getPair;
  if reply_ok r4 then ret true else
  r5 ← probe w _addr sel_swap;
  if reply_ok r5 then ret true else
  r6 ← probe w _addr sel_supply;
  if reply_ok r6 then ret true else
  r7 ← probe w _addr sel_deposit;
  if reply_ok r7 then ret true else
  r8 ← probe w _addr sel_sendToChain;
  if reply_ok r8 then ret true else
  ret false.

(** [abi.decode(data, (address))] on a 32-byte word: the decoder of
    Solidity 0.8 rejects a word with bits above the 160th. *)
Definition abi_decode_address (word : N) : M address :=
  if word <? ADDRESS_LIMIT then ret word else revert AbiDecode.

Definition _cacheLiquidityPair (addr : address) : M unit :=
  modify (fun s => set_isLiquidityPair (<[addr := true]> (_isLiquidityPair s)) s).

Definition isLiquidityPair (addr : address) : M bool :=
  if code_length w addr =? 0 then ret false else
  cached ← gets (fun s => flag (_isLiquidityPair s) addr);
  if cached : bool then ret true else
  cachedNot ← gets (fun s => flag (_isNotLiquidityPair s) addr);
  if cachedNot : bool then ret false else
  r0 ← probe w addr sel_token0;
  r1 ← probe w addr sel_token1;
  found ← (if reply_ok r0 && reply_ok r1 && (reply_length r0 =? 32) && (reply_length r1 =? 32)
           then
             token0 ← abi_decode_address (reply_word r0);
             token1 ← abi_decode_address (reply_word r1);
             if ((token0 =? this d) || (token1 =? this d)) && negb (token0 =? token1)
             then _cacheLiquidityPair addr;; ret true
             else ret false
           else ret false);
  if found : bool then ret true else
  modify (fun s => set_isNotLiquidityPair (<[addr := true]> (_isNotLiquidityPair s)) s);;
  ret false.

(** ** Dividend accumulator (lines 605-647) *)

Definition _distributeDividends (amount : N) : M unit :=
  if amount =? 0 then ret tt else
  circulatingSupply ← getCirculatingSupply;
  if circulatingSupply =? 0 then ret tt else
  scaled ← mul amount MAGNITUDE;
  dividendPerShare ← div scaled circulatingSupply;
  current ← gets magnifiedDividendPerShare;
  current' ← add current dividendPerShare;
  modify (set_magnifiedDividendPerShare current');;
  distributed ← gets totalDividendsDistributed;
  distributed' ← add distributed amount;
  modify (set_totalDividendsDistributed distributed').

(** [accumulatedDividends[user] += newDividends] *)
Definition credit_dividends (user : address) (newDividends : N) : M unit :=
  acc ← gets (fun s => at_ (accumulatedDividends s) user);
  acc' ← add acc newDividends;
  modify (fun s => set_accumulatedDividends (<[user := acc']> (accumulatedDividends s)) s).

Definition _updateUserDividendTracking (user : address) : M unit :=
  c ← isContract user;
  if c : bool then ret tt else
  userBalance ← balanceOf user;
  currentDividendPerShare ← gets magnifiedDividendPerShare;
  lastUserDividendPerShare ← gets (fun s => at_ (lastDividendPerShare s) user);
  (if (0 <? userBalance) && (lastUserDividendPerShare <? currentDividendPerShare) then
     dividendDifference ← sub currentDividendPerShare lastUserDividendPerShare;
     scaled ← mul userBalance dividendDifference;
     newDividends ← div scaled MAGNITUDE;
     when (0 <? newDividends) (credit_dividends user newDividends)
   else ret tt);;
  modify (fun s => set_lastDividendPerShare
                     (<[user := currentDividendPerShare]> (lastDividendPerShare s)) s).

(** ** Pricing curve (lines 754-776) *)

Definition _getTokensForUsdc (usdcAmount balanceBefore : N) : M N :=
  if usdcAmount =? 0 then ret 0 else
  availableToSell ← balanceOf (this d);
  if availableToSell =? 0 then ret 0 else
  total ← totalSupply;
  circulating ← sub total availableToSell;
  pricePerToken ←
    (if (circulating =? 0) || (balanceBefore =? 0) then ret BASE_PRICE
     else
       scaled ← mul balanceBefore 1000000;
       refundPrice ← div scaled circulating;
       marked ← mul refundPrice 10010;
       div marked PRECISION_DIVISOR);
  scaledDeposit ← mul usdcAmount 1000000;
  tokensToPurchase ← div scaledDeposit pricePerToken;
  ret (min tokensToPurchase availableToSell).

(** ** Refund (lines 524-603) *)

(** The bounded burn of the refund, lines 583-592. *)
Definition burn_within_limit (_totalBurned burnFeeTokens : N) : M unit :=
  if negb (burnFeeTokens =? 0) && (_totalBurned <? BURNING_LIMIT) then
    remainingToBurn ← sub BURNING_LIMIT _totalBurned;
    let burnFeeTokens := if remainingToBurn <? burnFeeTokens
                         then remainingToBurn else burnFeeTokens in
    when (negb (burnFeeTokens =? 0))
      (_burn (this d) burnFeeTokens;;
       burned ← gets totalBurned;
       burned' ← add burned burnFeeTokens;
       modify (set_totalBurned burned'))
  else ret tt.

Definition _handleRefund (sender tokenAmount : N) : M unit :=
  nonReentrant (
    revert_if (tokenAmount =? 0) dmfUSDAmount;;
    revert_if (tokenAmount <? MINIMUM_PURCHASE_USDC) InsufficientBalance;;
    senderIsContract ← isContract sender;
    (if senderIsContract : bool then ret tt else
       senderBalanceBefore ← balanceOf sender;
       if 0 <? senderBalanceBefore then
         currentDividendPerShare ← gets magnifiedDividendPerShare;
         lastSenderDividendPerShare ← gets (fun s => at_ (lastDividendPerShare s) sender);
         (if lastSenderDividendPerShare <? currentDividendPerShare then
            dividendDifference ← sub currentDividendPerShare lastSenderDividendPerShare;
            scaled ← mul senderBalanceBefore dividendDifference;
            newDividends ← div scaled MAGNITUDE;
            when (0 <? newDividends) (credit_dividends sender newDividends)
          else ret tt);;
         modify (fun s => set_lastDividendPerShare
                            (<[sender := currentDividendPerShare]> (lastDividendPerShare s)) s)
       else ret tt);;
    _totalBurned ← gets totalBurned;
    devFeeTokens ← mulDiv tokenAmount REFUND_DEV_FEE_BPS 10000;
    reflectionFeeTokens ← mulDiv tokenAmount REFUND_REFLECTION_FEE_BPS 10000;
    burnFeeTokens ← (if _totalBurned <? BURNING_LIMIT
                     then mulDiv tokenAmount 75 100000 else ret 0);
    reserveFeeTokens ← (if _totalBurned <? BURNING_LIMIT
                        then mulDiv tokenAmount 75 100000
                        else mulDiv tokenAmount 150 100000);
    let tokensForRefund :=
      sub_wrap (sub_wrap (sub_wrap (sub_wrap tokenAmount devFeeTokens) reflectionFeeTokens)
                  burnFeeTokens) reserveFeeTokens in
    contractBalance ← balanceOf (this d);
    supply ← sub TOTAL_SUPPLY _totalBurned;
    outside ← sub supply contractBalance;
    currentCirculatingSupply ← add outside tokenAmount;
    revert_if (currentCirculatingSupply =? 0) NoTokensInCirculation;;
    reserves ← gets usdcReserves;
    scaledReserves ← mul reserves EFFECTIVE_BACKING_NUMERATOR;
    effectiveBacking ← div scaledReserves EFFECTIVE_BACKING_DENOMINATOR;
    usdcToUser ← mulDiv tokensForRefund effectiveBacking currentCirculatingSupply;
    reserves ← gets usdcReserves;
    revert_if (reserves <? usdcToUser) InsufficientUSDC;;
    when (negb (devFeeTokens =? 0))
      (dev ← gets devAddress; super_transfer (this d) dev devFeeTokens);;
    burn_within_limit _totalBurned burnFeeTokens;;
    _distributeDividends reflectionFeeTokens;;
    reserves ← gets usdcReserves;
    reserves' ← sub reserves usdcToUser;
    modify (set_usdcReserves reserves');;
    match backing d with
    | NativeUSDC =>
        nativeUsdcAmount ← mul usdcToUser 1000000000000;
        revert_if (negb (payout_ok w sender nativeUsdcAmount)) USDCTransferFailed
    | TokenEURC _ =>
        require (payout_ok w sender usdcToUser) SafeERC20Failed
    end).

(** ** Transfers (lines 349-379, 409-448) *)

Definition _handleTaxedTransfer (from to amount : N) : M unit :=
  fromBalance ← balanceOf from;
  revert_if (fromBalance <? amount) InsufficientBalance;;
  isDexSwap ← or_else (and_then (isContract from) (isLiquidityPair from))
                      (and_then (isContract to) (isLiquidityPair to));
  if isDexSwap : bool then
    super_transfer from to amount;;
    isSell ← and_then (isContract to) (isLiquidityPair to);
    ret tt
  else
    devFee ← mulDiv amount TRANSFER_DEV_FEE_BPS 10000;
    reflectionFee ← mulDiv amount TRANSFER_REFLECTION_FEE_BPS 10000;
    reserveFee ← mulDiv amount TRANSFER_RESERVE_FEE_BPS 10000;
    let netAmount := sub_wrap (sub_wrap (sub_wrap amount devFee) reflectionFee) reserveFee in
    super_transfer from (this d) amount;;
    _distributeDividends reflectionFee;;
    when (negb (netAmount =? 0)) (super_transfer (this d) to netAmount);;
    when (negb (devFee =? 0)) (dev ← gets devAddress; super_transfer (this d) dev devFee).

Definition _update (from to amount : N) : M unit :=
  revert_if (from =? 0) dmfUSDAddress;;
  revert_if (to =? 0) dmfUSDAddress;;
  revert_if (amount =? 0) dmfUSDAmount;;
  exemptFrom ← gets (fun s => flag (_isExcludedFromFee s) from);
  exemptTo ← gets (fun s => flag (_isExcludedFromFee s) to);
  let isExempt := exemptFrom || exemptTo in
  if to =? this d then
    super_transfer from to amount;;
    _handleRefund from amount
  else if isExempt then
    super_transfer from to amount
  else
    _handleTaxedTransfer from to amount.

Definition _transfer (from to amount : N) : M unit :=
  (if negb (from =? 0) then
     c ← isContract from;
     when (negb c) (_updateUserDividendTracking from)
   else ret tt);;
  (if negb (to =? 0) then
     c ← isContract to;
     when (negb c) (_updateUserDividendTracking to)
   else ret tt);;
  _update from to amount.

(** ** Buy (lines 337-347 / 1100-1110, 450-522) *)

Definition _buy (buyer usdcAmount : N) : M unit :=
  reserves ← gets usdcReserves;
  balanceBefore ← sub reserves usdcAmount;
  tokensToPurchase ← _getTokensForUsdc usdcAmount balanceBefore;
  revert_if (tokensToPurchase =? 0) InsufficientUSDC;;
  sold ← gets tokensSold;
  soldAfter ← add sold tokensToPurchase;
  revert_if (TOTAL_SUPPLY <? soldAfter) InsufficientBalance;;
  devFee ← mulDiv tokensToPurchase BUY_DEV_FEE_BPS 10000;
  reserveFee ← mulDiv tokensToPurchase BUY_RESERVE_FEE_BPS 10000;
  reflectionFee ← mulDiv tokensToPurchase BUY_REFLECTION_FEE_BPS 10000;
  let tokensToUser := sub_wrap (sub_wrap (sub_wrap tokensToPurchase devFee) reserveFee)
                        reflectionFee in
  sold ← gets tokensSold;
  sold' ← add sold tokensToPurchase;
  modify (set_tokensSold sold');;
  buyerIsContract ← isContract buyer;
  buyerBalanceBefore ←
    (if buyerIsContract : bool then ret 0 else
       buyerBalanceBefore ← balanceOf buyer;
       (if 0 <? buyerBalanceBefore then
          currentDividendPerShare ← gets magnifiedDividendPerShare;
          lastBuyerDividendPerShare ← gets (fun s => at_ (lastDividendPerShare s) buyer);
          if lastBuyerDividendPerShare <? currentDividendPerShare then
            dividendDifference ← sub currentDividendPerShare lastBuyerDividendPerShare;
            scaled ← mul buyerBalanceBefore dividendDifference;
            newDividends ← div scaled MAGNITUDE;
            when (0 <? newDividends) (credit_dividends buyer newDividends)
          else ret tt
        else ret tt);;
       ret buyerBalanceBefore);
  _distributeDividends reflectionFee;;
  buyerIsContract ← isContract buyer;
  (if negb buyerIsContract && (0 <? buyerBalanceBefore) then
     dividendPerShareAfterDistribution ← gets magnifiedDividendPerShare;
     lastBuyerDividendPerShare ← gets (fun s => at_ (lastDividendPerShare s) buyer);
     if lastBuyerDividendPerShare <? dividendPerShareAfterDistribution then
       dividendDifference ← sub dividendPerShareAfterDistribution lastBuyerDividendPerShare;
       scaled ← mul buyerBalanceBefore dividendDifference;
       newDividends ← div scaled MAGNITUDE;
       when (0 <? newDividends) (credit_dividends buyer newDividends)
     else ret tt
   else ret tt);;
  buyerIsContract ← isContract buyer;
  when (negb buyerIsContract)
    (modify (fun s => set_lastDividendPerShare
                        (<[buyer := magnifiedDividendPerShare s]> (lastDividendPerShare s)) s));;
  dev ← gets devAddress;
  super_transfer (this d) dev devFee;;
  super_transfer (this d) buyer tokensToUser.

(** [value] is [msg.value] for dmfUSD and the argument [eurcAmount] for
    dmfEUR. *)
Definition buy (sender value : N) : M unit :=
  nonReentrant (
    match backing d with
    | NativeUSDC =>
        usdcAmount ← div value 1000000000000;
        revert_if (usdcAmount <? MINIMUM_PURCHASE_USDC) InsufficientUSDC;;
        reserves ← gets usdcReserves;
        reserves' ← add reserves usdcAmount;
        modify (set_usdcReserves reserves');;
        _buy sender usdcAmount
    | TokenEURC _ =>
        revert_if (value <? MINIMUM_PURCHASE_USDC) InsufficientUSDC;;
        require (pull_ok w sender value) SafeERC20Failed;;
        reserves ← gets usdcReserves;
        reserves' ← add reserves value;
        modify (set_usdcReserves reserves');;
        _buy sender value
    end).

(** ** Claim and its view (lines 653-706) *)

Definition claimDividends (sender : address) : M unit :=
  nonReentrant (
    let user := sender in
    c ← isContract user;
    if c : bool then ret tt else
    userBalance ← balanceOf user;
    currentDividendPerShare ← gets magnifiedDividendPerShare;
    lastUserDividendPerShare ← gets (fun s => at_ (lastDividendPerShare s) user);
    (if (0 <? userBalance) && (lastUserDividendPerShare <? currentDividendPerShare) then
       dividendDifference ← sub currentDividendPerShare lastUserDividendPerShare;
       scaled ← mul userBalance dividendDifference;
       newDividends ← div scaled MAGNITUDE;
       when (0 <? newDividends) (credit_dividends user newDividends)
     else ret tt);;
    modify (fun s => set_lastDividendPerShare
                       (<[user := currentDividendPerShare]> (lastDividendPerShare s)) s);;
    totalAccumulated ← gets (fun s => at_ (accumulatedDividends s) user);
    when (0 <? totalAccumulated)
      (modify (fun s => set_accumulatedDividends (<[user := 0]> (accumulatedDividends s)) s);;
       super_transfer (this d) user totalAccumulated)).

Definition pendingDividends (user : address) : M N :=
  c ← isContract user;
  if c : bool then ret 0 else
  userBalance ← balanceOf user;
  accumulated ← gets (fun s => at_ (accumulatedDividends s) user);
  if userBalance =? 0 then ret accumulated else
  currentDividendPerShare ← gets magnifiedDividendPerShare;
  lastUserDividendPerShare ← gets (fun s => at_ (lastDividendPerShare s) user);
  if lastUserDividendPerShare <? currentDividendPerShare then
    dividendDifference ← sub currentDividendPerShare lastUserDividendPerShare;
    scaled ← mul userBalance dividendDifference;
    newDividends ← div scaled MAGNITUDE;
    add accumulated newDividends
  else ret accumulated.

(** ** Estimates (lines 713-752) *)

Definition calculateTokensForUsdc (usdcAmount : N) : M N :=
  reserves ← gets usdcReserves;
  _getTokensForUsdc usdcAmount reserves.

Definition calculateUsdcForTokens (tokenAmount : N) : M N :=
  if tokenAmount =? 0 then ret 0 else
  if tokenAmount <? MINIMUM_PURCHASE_USDC then ret 0 else
  _totalBurned ← gets totalBurned;
  devFeeTokens ← mulDiv tokenAmount REFUND_DEV_FEE_BPS 10000;
  reflectionFeeTokens ← mulDiv tokenAmount REFUND_REFLECTION_FEE_BPS 10000;
  burnFeeTokens ← (if _totalBurned <? BURNING_LIMIT
                   then mulDiv tokenAmount 75 100000 else ret 0);
  reserveFeeTokens ← (if _totalBurned <? BURNING_LIMIT
                      then mulDiv tokenAmount 75 100000
                      else mulDiv tokenAmount 150 100000);
  let tokensForRefund :=
    sub_wrap (sub_wrap (sub_wrap (sub_wrap tokenAmount devFeeTokens) reflectionFeeTokens)
                burnFeeTokens) reserveFeeTokens in
  contractBalance ← balanceOf (this d);
  supply ← sub TOTAL_SUPPLY _totalBurned;
  outside ← sub supply contractBalance;
  currentCirculatingSupply ← add outside tokenAmount;
  if currentCirculatingSupply =? 0 then ret 0 else
  reserves ← gets usdcReserves;
  scaledReserves ← mul reserves EFFECTIVE_BACKING_NUMERATOR;
  effectiveBacking ← div scaledReserves EFFECTIVE_BACKING_DENOMINATOR;
  mulDiv tokensForRefund effectiveBacking currentCirculatingSupply.

(** ** Read-only accessors (lines 320-322, 835-879) *)

Definition decimals : M N := ret 6.

Definition getTotalDividendsDistributed : M N := gets totalDividendsDistributed.

Definition getMagnifiedDividendPerShare : M N := gets magnifiedDividendPerShare.

Definition getCirculatingSupplyPublic : M N := getCirculatingSupply.

Definition getUserDividendInfo (user : address) : M (N * N * N * N * bool) :=
  balance ← balanceOf user;
  userLastDividendPerShare ← gets (fun s => at_ (lastDividendPerShare s) user);
  userAccumulatedDividends ← gets (fun s => at_ (accumulatedDividends s) user);
  currentDividendPerShare ← gets magnifiedDividendPerShare;
  isUserContract ← isContract user;
  ret (balance, userLastDividendPerShare, userAccumulatedDividends,
       currentDividendPerShare, isUserContract).

Definition getUsdcReserves : M N := gets usdcReserves.

Definition getBackingPerToken : M N :=
  circulatingSupply ← getCirculatingSupply;
  if circulatingSupply =? 0 then ret 0 else
  reserves ← gets usdcReserves;
  scaled ← mul reserves 1000000;
  div scaled circulatingSupply.

(** ** Owner functions (lines 818-831) and the inherited entry points *)

Definition setDevAddress (sender _devAddress : address) : M unit :=
  onlyOwner sender;;
  revert_if (_devAddress =? 0) dmfUSDAddress;;
  modify (fun s => set_isExcludedFromFee (<[devAddress s := false]> (_isExcludedFromFee s)) s);;
  modify (set_devAddress _devAddress);;
  modify (fun s => set_isExcludedFromFee (<[devAddress s := true]> (_isExcludedFromFee s)) s).

Definition excludeFromFee (sender account : address) (isExcluded : bool) : M unit :=
  onlyOwner sender;;
  revert_if (account =? 0) dmfUSDAddress;;
  modify (fun s => set_isExcludedFromFee (<[account := isExcluded]> (_isExcludedFromFee s)) s).

Definition transfer (sender to amount : N) : M unit :=
  _transfer sender to amount.

Definition transferFrom (sender from to amount : N) : M unit :=
  _spendAllowance from sender amount;;
  _transfer from to amount.

Definition approve (sender spender amount : N) : M unit :=
  _approve sender spender amount.

Definition increaseAllowance (sender spender addedValue : N) : M unit :=
  current ← allowance sender spender;
  raised ← add current addedValue;
  _approve sender spender raised.

Definition decreaseAllowance (sender spender subtractedValue : N) : M unit :=
  currentAllowance ← allowance sender spender;
  revert_if (currentAllowance <? subtractedValue) InsufficientBalance;;
  _approve sender spender (sub_wrap currentAllowance subtractedValue).

(** [ERC20Permit.permit]: the deadline and the signature are taken as one
    flag; a valid permit approves. *)
Definition permit (owner spender value : N) (valid : bool) : M unit :=
  require valid PermitRejected;;
  _approve owner spender value.

Definition transferOwnership (sender newOwner : address) : M unit :=
  onlyOwner sender;;
  modify (set_pendingOwner newOwner).

Definition acceptOwnership (sender : address) : M unit :=
  pending ← gets _pendingOwner;
  require (pending =? sender) NotOwner;;
  _transferOwnership sender.

Definition renounceOwnership (sender : address) : M unit :=
  onlyOwner sender;;
  _transferOwnership 0.

(** ** Deployment (lines 269-315 / 1026-1078) *)

Definition empty_storage : State :=
  mkState ∅ ∅ 0 0 0 NOT_ENTERED 0 0 0 0 0 0 ∅ ∅ ∅ ∅ ∅.

Definition constructor (deployer _initialOwner _devAddress : address) : M unit :=
  _transferOwnership deployer;;
  revert_if (_initialOwner =? 0) dmfUSDAddress;;
  revert_if (_devAddress =? 0) dmfUSDAddress;;
  match backing d with
  | NativeUSDC => ret tt
  | TokenEURC _eurcAddress => revert_if (_eurcAddress =? 0) dmfUSDAddress
  end;;
  modify (set_devAddress _devAddress);;
  _mint (this d) TOTAL_SUPPLY;;
  modify (fun s => set_isExcludedFromFee (<[this d := true]> (_isExcludedFromFee s)) s);;
  modify (fun s => set_isExcludedFromFee (<[_initialOwner := true]> (_isExcludedFromFee s)) s);;
  modify (fun s => set_isExcludedFromFee (<[devAddress s := true]> (_isExcludedFromFee s)) s);;
  _transferOwnership _initialOwner.

(** ** Transactions *)

Inductive Call : Type :=
  | CallBuy (value : N)
  | CallTransfer (to amount : N)
  | CallTransferFrom (from to amount : N)
  | CallApprove (spender amount : N)
  | CallIncreaseAllowance (spender addedValue : N)
  | CallDecreaseAllowance (spender subtractedValue : N)
  | CallPermit (owner spender value : N) (valid : bool)
  | CallClaimDividends
  | CallSetDevAddress (_devAddress : address)
  | CallExcludeFromFee (account : address) (isExcluded : bool)
  | CallTransferOwnership (newOwner : address)
  | CallAcceptOwnership
  | CallRenounceOwnership.

Definition call (sender : address) (c : Call) : M unit :=
  match c with
  | CallBuy value => buy sender value
  | CallTransfer to amount => transfer sender to amount
  | CallTransferFrom from to amount => transferFrom sender from to amount
  | CallApprove spender amount => approve sender spender amount
  | CallIncreaseAllowance spender addedValue => increaseAllowance sender spender addedValue
  | CallDecreaseAllowance spender subtractedValue =>
      decreaseAllowance sender spender subtractedValue
  | CallPermit owner spender value valid => permit owner spender value valid
  | CallClaimDividends => claimDividends sender
  | CallSetDevAddress a => setDevAddress sender a
  | CallExcludeFromFee a b => excludeFromFee sender a b
  | CallTransferOwnership a => transferOwnership sender a
  | CallAcceptOwnership => acceptOwnership sender
  | CallRenounceOwnership => renounceOwnership sender
  end.

(** A transaction that reverts leaves the storage as it found it. *)
Definition execute (sender : address) (c : Call) (s : State) : State :=
  match call sender c s with
  | Ok _ s' _ => s'
  | Revert _ => s
  end.

(** The probes a transaction issues; none is kept when it reverts. *)
Definition probes_of {A} (m : M A) (s : State) : list Probe :=
  match m s with
  | Ok _ _ l => l
  | Revert _ => []
  end.

End Contract.

(** The states a deployed contract can be in. *)
Inductive reachable (d : Deploy) : State -> Prop :=
  | reachable_deployed deployer _initialOwner _devAddress s l :
      constructor d deployer _initialOwner _devAddress empty_storage = Ok tt s l ->
      reachable d s
  | reachable_call w sender c s :
      reachable d s ->
      reachable d (execute d w sender c s).

(** * The specification's formulas

    These definitions follow the words of the specification, not the code;
    the theorems below compare them with what the contract computes. *)

(** Buy price (4.2): base price when nothing circulates or nothing is
    reserved, else the redemption price with the 0.10% markup. *)
Definition spec_buy_price (circulatingOutsideContract reserveBeforeDeposit : N) : N :=
  if (circulatingOutsideContract =? 0) || (reserveBeforeDeposit =? 0) then 1000000
  else (reserveBeforeDeposit * 1000000 / circulatingOutsideContract) * 10010 / 10000.

(** Tokens issued (4.2): deposit over price, capped at the unsold balance. *)
Definition spec_tokens_issued (depositAmount price contractBalance : N) : N :=
  N.min (depositAmount * 1000000 / price) contractBalance.

(** Refund row of the fee table (4.3). *)
Definition spec_refund_dev_fee (gross : N) : N := gross * 5 / 10000.
Definition spec_refund_reflection_fee (gross : N) : N := gross * 5 / 10000.
Definition spec_refund_burn_fee (burned gross : N) : N :=
  if burned <? BURNING_LIMIT then gross * 75 / 100000 else 0.
Definition spec_refund_reserve_fee (burned gross : N) : N :=
  if burned <? BURNING_LIMIT then gross * 75 / 100000 else gross * 150 / 100000.

(** Refund economics (4.5). *)
Definition spec_tokensForRefund (burned gross : N) : N :=
  gross - spec_refund_dev_fee gross - spec_refund_reflection_fee gross
  - spec_refund_burn_fee burned gross - spec_refund_reserve_fee burned gross.
Definition spec_currentCirculatingSupply (burned contractHeldBalance gross : N) : N :=
  (TOTAL_SUPPLY - burned - contractHeldBalance) + gross.
Definition spec_effectiveBacking (reserveBalance : N) : N := reserveBalance * 999 / 1000.
Definition spec_payout (burned contractHeldBalance reserveBalance gross : N) : N :=
  spec_tokensForRefund burned gross * spec_effectiveBacking reserveBalance
  / spec_currentCirculatingSupply burned contractHeldBalance gross.

(** The deposit of a buy in six-decimal units: [msg.value / 1e12] for
    dmfUSD, the argument itself for dmfEUR. *)
Definition deposit_of (d : Deploy) (value : N) : N :=
  match backing d with
  | NativeUSDC => value / 1000000000000
  | TokenEURC _ => value
  end.

(** Circulating supply outside the contract (3): total supply minus the
    ledger's own holding. *)
Definition spec_circulating (d : Deploy) (s : State) : N :=
  TOTAL_SUPPLY - totalBurned s - at_ (_balances s) (this d).

(** What a transfer of [amount] from [from] to [to] does to the reserve: a
    transfer to the contract is a refund and pays out, any other leaves the
    reserve alone. *)
Definition reserve_after_transfer (d : Deploy) (from to amount : N) (s s' : State) : Prop :=
  if to =? this d then
    from <> this d ->
    let payout :=
      spec_payout (totalBurned s) (at_ (_balances s) (this d) + amount)
        (usdcReserves s) amount in
    payout <= usdcReserves s /\ usdcReserves s' = usdcReserves s - payout
  else usdcReserves s' = usdcReserves s.

(** * Relations and frames

    A function is compared with a relation between the storage before and
    after it.  The classes say which writes a relation tolerates; a function
    that makes only such writes respects the relation. *)

Definition rel {A} (R : relation State) (m : M A) : Prop :=
  forall s a s' l, m s = Ok a s' l -> R s s'.

(** A field that a computation leaves as it was. *)
Definition keeps {T} (f : State -> T) : relation State :=
  fun s s' => f s' = f s.

(** ** Frames: what a relation must tolerate for a function to respect it *)

(** Writes of the reentrancy guard. *)
Class FrameGuard (R : relation State) : Prop :=
  frame_status : forall v s, R s (set_status v s).

(** Writes of the dividend bookkeeping. *)
Class FrameDividends (R : relation State) : Prop := {
  frame_preorder :: PreOrder R;
  frame_accumulated v s : R s (set_accumulatedDividends v s);
  frame_last v s : R s (set_lastDividendPerShare v s);
  frame_distributed v s : R s (set_totalDividendsDistributed v s);
  frame_magnified v s :
    magnifiedDividendPerShare s <= v -> R s (set_magnifiedDividendPerShare v s)
}.

(** Any write of the balance mapping. *)
Class FrameBalances (R : relation State) : Prop :=
  frame_balances : forall v s, R s (set_balances v s).

(** Transfers between accounts, and the writes of the allowances, the owner
    functions and the pair caches. *)
Class FrameLedger (R : relation State) : Prop := {
  frame_dividends :: FrameDividends R;
  frame_transfer from to amount : rel R (super_transfer from to amount);
  frame_allowances v s : R s (set_allowances v s);
  frame_totalSupply v s : R s (set_totalSupply v s);
  frame_owner v s : R s (set_owner v s);
  frame_pendingOwner v s : R s (set_pendingOwner v s);
  frame_devAddress v s : R s (set_devAddress v s);
  frame_excluded v s : R s (set_isExcludedFromFee v s);
  frame_pair a s : R s (set_isLiquidityPair (<[a := true]> (_isLiquidityPair s)) s);
  frame_notPair a s :
    R s (set_isNotLiquidityPair (<[a := true]> (_isNotLiquidityPair s)) s)
}.

(** Writes of the reserve and of the sale counter. *)
Class FrameBuy (R : relation State) : Prop := {
  frame_ledger :: FrameLedger R;
  frame_guard :: FrameGuard R;
  frame_reserves v s : R s (set_usdcReserves v s);
  frame_sold v s : R s (set_tokensSold v s)
}.

Class FrameBurn (R : relation State) : Prop :=
  frame_burned : forall v s, R s (set_totalBurned v s).

(** The refund path respects the relation. *)
Class FrameRefund (R : relation State) : Prop :=
  frame_refund : forall d w sender amount, rel R (_handleRefund d w sender amount).

(** ** The relations of the claims *)

(** The accumulator does not go down. *)
Definition accumulator_grows : relation State :=
  fun s s' => magnifiedDividendPerShare s <= magnifiedDividendPerShare s'.

(** The burn counter stays within the limit. *)
Definition burn_bounded : relation State :=
  fun s s' => totalBurned s <= BURNING_LIMIT -> totalBurned s' <= BURNING_LIMIT.

(** The sum of all balances. *)
Definition ledger_sum (m : gmap N N) : N := map_fold (fun _ v acc => v + acc) 0 m.

(** Conservation (8): the balances, the contract's own among them, add up to
    the total supply, which is what was minted less what was burned. *)
Definition conserved (s : State) : Prop :=
  ledger_sum (_balances s) + totalBurned s = TOTAL_SUPPLY.

Definition conservation : relation State :=
  fun s s' => conserved s -> conserved s'.

(** What an account has earned since its snapshot, on top of what is already
    credited to it: the amount [pendingDividends] computes for a wallet. *)
Definition spec_pending (user : address) (s : State) : N :=
  at_ (accumulatedDividends s) user
  + (if (at_ (_balances s) user =? 0)
        || negb (at_ (lastDividendPerShare s) user <? magnifiedDividendPerShare s)
     then 0
     else at_ (_balances s) user
          * (magnifiedDividendPerShare s - at_ (lastDividendPerShare s) user) / MAGNITUDE).

(** One side of a transfer is a trading pair already cached, the other a
    wallet. *)
Definition swap_with_pair (w : World) (s : State) (from to : address) : Prop :=
  (code_length w from = 0 /\
   (exists lp, isContract w to s = Ok true s lp) /\ flag (_isLiquidityPair s) to = true)
  \/
  (code_length w to = 0 /\
   (exists lp, isContract w from s = Ok true s lp) /\ flag (_isLiquidityPair s) from = true).

(** The supply counter of the ERC20 base contract agrees with what
    [totalSupply()] answers. *)
Definition supply_agrees (s : State) : Prop :=
  _totalSupply s + totalBurned s = TOTAL_SUPPLY.

Definition supply_agreement : relation State :=
  fun s s' => supply_agrees s -> supply_agrees s'.

(** Entries of the two pair caches are kept. *)
Definition cache_kept : relation State :=
  fun s s' =>
    forall a,
      (flag (_isLiquidityPair s) a = true -> flag (_isLiquidityPair s') a = true) /\
      (flag (_isNotLiquidityPair s) a = true -> flag (_isNotLiquidityPair s') a = true).

(** * Worked examples: two deployments, two chains, a few states *)

Definition usd : Deploy := mkDeploy 1000 NativeUSDC.
Definition eur : Deploy := mkDeploy 1000 (TokenEURC 900).

Definition alice : address := 11.
Definition bob : address := 12.
Definition pair : address := 50.

Definition no_reply : Reply := mkReply false 0 0.

(** Every account is a plain wallet, and every backing transfer succeeds. *)
Definition wallets : World :=
  mkWorld (fun _ => 0) (fun _ _ => no_reply) (fun _ _ => true) (fun _ _ => true).

(** A chain with a trading pair at address 50: it has code and answers
    [token0()] with the contract's own address and [token1()] with another
    token's. *)
Definition market : World :=
  mkWorld
    (fun a => if a =? pair then 1 else 0)
    (fun a sel =>
       if a =? pair then
         match sel with
         | sel_token0 => mkReply true 32 1000
         | sel_token1 => mkReply true 32 77
         | _ => no_reply
         end
       else no_reply)
    (fun _ _ => true)
    (fun _ _ => true).

Definition state_of {A} (r : Result A) (default : State) : State :=
  match r with Ok _ s _ => s | Revert _ => default end.

Definition probes_in {A} (r : Result A) : list Probe :=
  match r with Ok _ _ l => l | Revert _ => [] end.

(** Deployed by account 1, who keeps the ownership; account 2 takes the dev
    fees. *)
Definition genesis (d : Deploy) : State :=
  state_of (constructor d 1 1 2 empty_storage) empty_storage.

(** After alice's first purchase, with a deposit of one unit of backing
    (1,000,000 in six decimals). *)
Definition after_first_buy (d : Deploy) : State :=
  execute d wallets alice
    (CallBuy match backing d with
             | NativeUSDC => 1000000 * 1000000000000
             | TokenEURC _ => 1000000
             end)
    (genesis d).

(** Alice sends bob 0.4 token. *)
Definition after_transfer (d : Deploy) : State :=
  execute d wallets alice (CallTransfer bob 400000) (after_first_buy d).

Definition after_claim (d : Deploy) : State :=
  execute d wallets alice CallClaimDividends (after_transfer d).

(** Alice sells 0.2 token into the pair. *)
Definition after_swap (d : Deploy) : State :=
  execute d market alice (CallTransfer pair 200000) (after_first_buy d).

(** Alice sends half a token back. *)
Definition after_refund_tx (d : Deploy) : State :=
  execute d wallets alice (CallTransfer (this d) 500000) (after_first_buy d).

(** The same refund seen from inside: the storage as [_handleRefund] finds
    it, with the tokens already in the contract's balance, and as it leaves
    it. *)
Definition refund_entry (d : Deploy) : State :=
  state_of (super_transfer alice (this d) 500000 (after_first_buy d)) (after_first_buy d).

Definition after_refund (d : Deploy) : State :=
  state_of (_handleRefund d wallets alice 500000 (refund_entry d)) (refund_entry d).

(** One unit of burn headroom left, and none: the storage [_handleRefund]
    starts from when half a token comes back, and what it makes of it. *)
Definition near_limit (d : Deploy) : State :=
  set_totalBurned (BURNING_LIMIT - 1)
    (set_balances (<[this d := 70000000000000000]> (_balances (refund_entry d)))
       (refund_entry d)).

Definition at_limit (d : Deploy) : State :=
  set_totalBurned BURNING_LIMIT
    (set_balances (<[this d := 70000000000000000]> (_balances (refund_entry d)))
       (refund_entry d)).

Definition after_near_limit (d : Deploy) : State :=
  state_of (_handleRefund d wallets alice 500000 (near_limit d)) (near_limit d).

Definition after_at_limit (d : Deploy) : State :=
  state_of (_handleRefund d wallets alice 500000 (at_limit d)) (at_limit d).

(** The owner, account 1, excludes alice from fees after the first
    purchase. *)
Definition after_exclusion (d : Deploy) : State :=
  execute d wallets 1 (CallExcludeFromFee alice true) (after_first_buy d).

(** Alice lets bob spend 0.3 token. *)
Definition after_approval (d : Deploy) : State :=
  execute d wallets alice (CallApprove bob 300000) (after_first_buy d).


(** Alice, who holds tokens with earnings outstanding, buys again. *)
Definition after_second_buy (d : Deploy) : State :=
  execute d wallets alice
    (CallBuy match backing d with
             | NativeUSDC => 1000000 * 1000000000000
             | TokenEURC _ => 1000000
             end)
    (after_transfer d).
(** * Reasoning about contract code *)


#[global] Instance keeps_preorder {T} (f : State -> T) : PreOrder (keeps f).
Proof.
  split.
  - intros s. reflexivity.
  - intros s1 s2 s3 H12 H23. unfold keeps in *. congruence.
Qed.

Lemma bind_ok {A B} (m : M A) (k : A -> M B) s b s' l :
  (m ≫= k) s = Ok b s' l ->
  exists a s1 l1 l2, m s = Ok a s1 l1 /\ k a s1 = Ok b s' l2 /\ l = l1 ++ l2.
Proof.
  unfold mbind, M_bind, bind. intros H.
  destruct (m s) as [a s1 l1|e]; [|discriminate].
  destruct (k a s1) as [b' s2 l2|e] eqn:Hk; [|discriminate].
  inversion H; subst. eauto 10.
Qed.

Lemma bind_revert {A B} (m : M A) (k : A -> M B) s e :
  m s = Revert e -> (m ≫= k) s = Revert e.
Proof. unfold mbind, M_bind, bind. intros ->. reflexivity. Qed.

Lemma bind_step {A B} (m : M A) (k : A -> M B) s a s1 l1 :
  m s = Ok a s1 l1 ->
  (m ≫= k) s = match k a s1 with
               | Ok b s2 l2 => Ok b s2 (l1 ++ l2)
               | Revert e => Revert e
               end.
Proof. unfold mbind, M_bind, bind. intros ->. reflexivity. Qed.

Section Rel.

Context (R : relation State) `{!PreOrder R}.

Lemma rel_ret {A} (a : A) : rel R (ret a).
Proof. intros s a' s' l H. inversion H; subst. reflexivity. Qed.

Lemma rel_revert {A} e : rel R (@revert A e).
Proof. intros s a s' l H. discriminate. Qed.

Lemma rel_gets {A} (f : State -> A) : rel R (gets f).
Proof. intros s a s' l H. inversion H; subst. reflexivity. Qed.

Lemma rel_probe w a sel : rel R (probe w a sel).
Proof. intros s r s' l H. inversion H; subst. reflexivity. Qed.

Lemma rel_modify (f : State -> State) : (forall s, R s (f s)) -> rel R (modify f).
Proof. intros Hf s a s' l H. inversion H; subst. apply Hf. Qed.

Lemma rel_bind {A B} (m : M A) (k : A -> M B) :
  rel R m -> (forall a, rel R (k a)) -> rel R (m ≫= k).
Proof.
  intros Hm Hk s b s' l H.
  apply bind_ok in H as (a & s1 & l1 & l2 & H1 & H2 & _).
  transitivity s1; [eapply Hm | eapply Hk]; eassumption.
Qed.

Lemma rel_require c e : rel R (require c e).
Proof. destruct c; [apply rel_ret | apply rel_revert]. Qed.

Lemma rel_revert_if c e : rel R (revert_if c e).
Proof. destruct c; [apply rel_revert | apply rel_ret]. Qed.

Lemma rel_when c m : rel R m -> rel R (when c m).
Proof. destruct c; [trivial | intros _; apply rel_ret]. Qed.

Lemma rel_add a b : rel R (add a b).
Proof. unfold add. destruct (_ <=? _); [apply rel_ret | apply rel_revert]. Qed.

Lemma rel_sub a b : rel R (sub a b).
Proof. unfold sub. destruct (_ <=? _); [apply rel_ret | apply rel_revert]. Qed.

Lemma rel_mul a b : rel R (mul a b).
Proof. unfold mul. destruct (_ <=? _); [apply rel_ret | apply rel_revert]. Qed.

Lemma rel_div a b : rel R (div a b).
Proof. unfold div. destruct (_ =? _); [apply rel_revert | apply rel_ret]. Qed.

Lemma rel_mulDiv a b c : rel R (mulDiv a b c).
Proof.
  unfold mulDiv. destruct (_ <=? _); [apply rel_div|].
  destruct (_ <? _); [apply rel_ret | apply rel_revert].
Qed.

Lemma rel_and_then a b : rel R a -> rel R b -> rel R (and_then a b).
Proof.
  intros Ha Hb. unfold and_then. apply rel_bind; [assumption|].
  intros []; [assumption | apply rel_ret].
Qed.

Lemma rel_or_else a b : rel R a -> rel R b -> rel R (or_else a b).
Proof.
  intros Ha Hb. unfold or_else. apply rel_bind; [assumption|].
  intros []; [apply rel_ret | assumption].
Qed.

Lemma rel_nonReentrant {A} (body : M A) :
  (forall v s, R s (set_status v s)) -> rel R body -> rel R (nonReentrant body).
Proof.
  intros Hs Hb. unfold nonReentrant.
  apply rel_bind; [apply rel_gets|]. intros st.
  apply rel_bind; [apply rel_require|]. intros _.
  apply rel_bind; [apply rel_modify, Hs|]. intros _.
  apply rel_bind; [assumption|]. intros r.
  apply rel_bind; [apply rel_modify, Hs|]. intros _.
  apply rel_ret.
Qed.

End Rel.

(** A computation that only looks: same storage afterwards. *)
Lemma rel_eq_any {A} (R : relation State) `{!Reflexive R} (m : M A) :
  rel eq m -> rel R m.
Proof. intros H s a s' l Hm. apply H in Hm. subst. reflexivity. Qed.

Create HintDb rel discriminated.

#[global] Hint Resolve rel_ret rel_revert rel_gets rel_probe rel_require rel_revert_if
  rel_add rel_sub rel_mul rel_div rel_mulDiv : rel.

(** ** Inversion of the primitive steps *)

Lemma ret_ok {A} (a a' : A) s s' l : ret a s = Ok a' s' l -> a' = a /\ s' = s /\ l = [].
Proof. intros H. inversion H. auto. Qed.

Lemma gets_ok {A} (f : State -> A) s a s' l :
  gets f s = Ok a s' l -> a = f s /\ s' = s /\ l = [].
Proof. intros H. inversion H. auto. Qed.

Lemma modify_ok f s a s' l : modify f s = Ok a s' l -> s' = f s /\ l = [].
Proof. intros H. inversion H. auto. Qed.

Lemma probe_ok w x sel s r s' l :
  probe w x sel s = Ok r s' l -> r = staticcall w x sel /\ s' = s /\ l = [(x, sel)].
Proof. intros H. inversion H. auto. Qed.

Lemma require_ok c e s a s' l : require c e s = Ok a s' l -> c = true /\ s' = s /\ l = [].
Proof. destruct c; intros H; inversion H. auto. Qed.

Lemma revert_if_ok c e s a s' l :
  revert_if c e s = Ok a s' l -> c = false /\ s' = s /\ l = [].
Proof. destruct c; intros H; inversion H. auto. Qed.

Lemma add_ok a b s r s' l :
  add a b s = Ok r s' l -> r = a + b /\ a + b <= MAX_UINT256 /\ s' = s /\ l = [].
Proof.
  unfold add. destruct (N.leb_spec (a + b) MAX_UINT256) as [Hle|Hgt]; intros Hr; inversion Hr. auto.
Qed.

Lemma sub_ok a b s r s' l :
  sub a b s = Ok r s' l -> r = a - b /\ b <= a /\ s' = s /\ l = [].
Proof.
  unfold sub. destruct (N.leb_spec b a) as [Hle|Hgt]; intros Hr; inversion Hr. auto.
Qed.

Lemma mul_ok a b s r s' l :
  mul a b s = Ok r s' l -> r = a * b /\ a * b <= MAX_UINT256 /\ s' = s /\ l = [].
Proof.
  unfold mul. destruct (N.leb_spec (a * b) MAX_UINT256) as [Hle|Hgt]; intros Hr; inversion Hr. auto.
Qed.

Lemma div_ok a b s r s' l :
  div a b s = Ok r s' l -> r = a / b /\ b <> 0 /\ s' = s /\ l = [].
Proof.
  unfold div. destruct (N.eqb_spec b 0) as [Hz|Hnz]; intros Hr; inversion Hr. auto.
Qed.

Lemma mulDiv_ok x y c s r s' l :
  mulDiv x y c s = Ok r s' l ->
  r = x * y / c /\ c <> 0 /\ r <= MAX_UINT256 /\ s' = s /\ l = [].
Proof.
  unfold mulDiv. destruct (N.leb_spec (x * y) MAX_UINT256) as [Hle|Hgt].
  - intros H. apply div_ok in H as (-> & Hc & -> & ->). repeat split; trivial.
    etransitivity; [|exact Hle]. apply N.Div0.div_le_upper_bound.
    destruct c; [congruence|]. nia.
  - destruct (N.ltb_spec (x * y / MODULUS) c) as [Hlt|Hge]; intros H; inversion H; subst.
    assert (Hc : c <> 0) by (intros ->; exact (N.nlt_0_r _ Hlt)).
    repeat split; trivial.
    assert (x * y / c < MODULUS); [|unfold MAX_UINT256, MODULUS in *; lia].
    apply N.Div0.div_lt_upper_bound.
    assert (x * y < MODULUS * c); [|lia].
    pose proof (N.mul_succ_div_gt (x * y) MODULUS ltac:(unfold MODULUS; lia)).
    nia.
Qed.

(** Take the first step of a computation that is known to have returned;
    [H1] names what is learnt from that step. *)
Ltac step_as H H1 :=
  let a := fresh "v" in
  let s1 := fresh "s" in
  let l1 := fresh "l" in
  let l2 := fresh "l" in
  let H2 := fresh "Hrest" in
  let El := fresh "El" in
  let l := fresh "l" in
  apply bind_ok in H; destruct H as (a & s1 & l1 & l2 & H1 & H2 & El);
  rename H2 into H;
  match type of El with ?l0 = _ => rename l0 into l end;
  first
    [ apply ret_ok in H1 as (-> & -> & ->)
    | apply gets_ok in H1 as (-> & -> & ->)
    | apply modify_ok in H1 as (-> & ->)
    | apply probe_ok in H1 as (-> & -> & ->)
    | apply require_ok in H1 as (H1 & -> & ->)
    | apply revert_if_ok in H1 as (H1 & -> & ->)
    | apply add_ok in H1 as (-> & H1 & -> & ->)
    | apply sub_ok in H1 as (-> & H1 & -> & ->)
    | apply mul_ok in H1 as (-> & H1 & -> & ->)
    | apply div_ok in H1 as (-> & H1 & -> & ->)
    | apply mulDiv_ok in H1 as (-> & H1 & ? & -> & ->)
    | idtac ];
  simpl in El; try subst l.

Ltac step_in H := let H1 := fresh "Hstep" in step_as H H1.

(** The side condition of a write: the relation holds across the setter,
    by one of the frame rules or by computing. *)
Ltac rel_leaf :=
  intros;
  first
    [ apply frame_status | apply frame_accumulated | apply frame_last
    | apply frame_distributed | apply frame_balances | apply frame_allowances
    | apply frame_totalSupply | apply frame_owner | apply frame_pendingOwner
    | apply frame_devAddress | apply frame_excluded | apply frame_pair
    | apply frame_notPair | apply frame_reserves | apply frame_sold
    | apply frame_burned
    | red; simpl; first [ reflexivity | assumption | lia ] ].

(** Walk the syntax of a computation, closing each write with [rel_leaf] and
    each call with the hint database. *)
Ltac rel_walk :=
  lazymatch goal with
  | |- rel _ (mbind _ _) => apply rel_bind; try apply _; [ | intros ? ]; rel_walk
  | |- rel _ (ret _) => apply rel_ret; apply _
  | |- rel _ (modify _) => apply rel_modify; try apply _; rel_leaf
  | |- rel _ (when _ _) => apply rel_when; try apply _; rel_walk
  | |- rel _ (and_then _ _) => apply rel_and_then; try apply _; rel_walk
  | |- rel _ (or_else _ _) => apply rel_or_else; try apply _; rel_walk
  | |- rel _ (nonReentrant _) =>
      apply rel_nonReentrant; try apply _; [ rel_leaf | rel_walk ]
  | |- rel _ (if ?c then _ else _) => destruct c; rel_walk
  | |- rel _ (match ?x with _ => _ end) => destruct x; rel_walk
  | |- rel _ (let _ := _ in _) => cbv zeta; rel_walk
  | |- rel _ _ => solve [ eauto with rel typeclass_instances ]
  end.

(** ** Every function against its frame *)

Section FrameDividendsFacts.

Context (d : Deploy) (w : World) (R : relation State) `{!FrameDividends R}.

(** A relation that tolerates any write of the balances tolerates a
    transfer. *)
Lemma super_transfer_by_writes `{!FrameBalances R} from to amount :
  rel R (super_transfer from to amount).
Proof. unfold super_transfer. rel_walk. Qed.

Lemma balanceOf_rel a : rel R (balanceOf a).
Proof. unfold balanceOf. rel_walk. Qed.

Lemma totalSupply_rel : rel R totalSupply.
Proof. unfold totalSupply. rel_walk. Qed.

Lemma getCirculatingSupply_rel : rel R (getCirculatingSupply d).
Proof. pose proof balanceOf_rel. pose proof totalSupply_rel. unfold getCirculatingSupply. rel_walk. Qed.

Lemma isContract_rel a : rel R (isContract w a).
Proof. unfold isContract. rel_walk. Qed.

Lemma _getTokensForUsdc_rel a b : rel R (_getTokensForUsdc d a b).
Proof.
  pose proof balanceOf_rel. pose proof totalSupply_rel.
  unfold _getTokensForUsdc. rel_walk.
Qed.

Lemma credit_dividends_rel user n : rel R (credit_dividends user n).
Proof. unfold credit_dividends. rel_walk. Qed.

Lemma _updateUserDividendTracking_rel user : rel R (_updateUserDividendTracking w user).
Proof.
  pose proof balanceOf_rel. pose proof isContract_rel. pose proof credit_dividends_rel.
  unfold _updateUserDividendTracking. rel_walk.
Qed.

Lemma _distributeDividends_rel amount : rel R (_distributeDividends d amount).
Proof.
  intros s a s' l H. unfold _distributeDividends in H.
  destruct (amount =? 0); [apply ret_ok in H as (_ & -> & _); reflexivity|].
  apply bind_ok in H as (c & s1 & l1 & l2 & Hc & H' & _).
  rename H' into H.
  assert (R s s1) as Hs1 by (eapply getCirculatingSupply_rel; eassumption).
  destruct (c =? 0); [apply ret_ok in H as (_ & -> & _); assumption|].
  do 7 step_in H. apply modify_ok in H as (-> & _).
  transitivity s1; [assumption|].
  etransitivity; [|apply frame_distributed].
  apply frame_magnified. simpl. apply N.le_add_r.
Qed.

End FrameDividendsFacts.

#[global] Hint Resolve balanceOf_rel totalSupply_rel getCirculatingSupply_rel isContract_rel
  _getTokensForUsdc_rel credit_dividends_rel _updateUserDividendTracking_rel
  _distributeDividends_rel : rel.

Section FrameLedgerFacts.

Context (d : Deploy) (w : World) (R : relation State) `{!FrameLedger R}.

Lemma super_transfer_rel from to amount : rel R (super_transfer from to amount).
Proof. apply frame_transfer. Qed.

Lemma _mint_rel `{!FrameBalances R} account amount : rel R (_mint account amount).
Proof. unfold _mint. rel_walk. Qed.

Lemma _burn_rel `{!FrameBalances R} account amount : rel R (_burn account amount).
Proof. unfold _burn. rel_walk. Qed.

Lemma allowance_rel owner spender : rel R (allowance owner spender).
Proof. unfold allowance. rel_walk. Qed.

Lemma _approve_rel owner spender amount : rel R (_approve owner spender amount).
Proof. unfold _approve. rel_walk. Qed.

Lemma _spendAllowance_rel owner spender amount : rel R (_spendAllowance owner spender amount).
Proof.
  pose proof allowance_rel. pose proof _approve_rel.
  unfold _spendAllowance. rel_walk.
Qed.

Lemma _transferOwnership_rel newOwner : rel R (_transferOwnership newOwner).
Proof. unfold _transferOwnership. rel_walk. Qed.

Lemma onlyOwner_rel sender : rel R (onlyOwner sender).
Proof. unfold onlyOwner. rel_walk. Qed.

Lemma abi_decode_address_rel word : rel R (abi_decode_address word).
Proof. unfold abi_decode_address. rel_walk. Qed.

Lemma _cacheLiquidityPair_rel addr : rel R (_cacheLiquidityPair addr).
Proof. unfold _cacheLiquidityPair. rel_walk. Qed.

Lemma isLiquidityPair_rel addr : rel R (isLiquidityPair d w addr).
Proof.
  pose proof abi_decode_address_rel. pose proof _cacheLiquidityPair_rel.
  unfold isLiquidityPair. rel_walk.
Qed.

Lemma _handleTaxedTransfer_rel from to amount : rel R (_handleTaxedTransfer d w from to amount).
Proof.
  pose proof super_transfer_rel. pose proof isLiquidityPair_rel.
  unfold _handleTaxedTransfer. rel_walk.
Qed.

Lemma claimDividends_rel `{!FrameGuard R} sender : rel R (claimDividends d w sender).
Proof.
  pose proof super_transfer_rel.
  unfold claimDividends. rel_walk.
Qed.

Lemma setDevAddress_rel sender a : rel R (setDevAddress sender a).
Proof. pose proof onlyOwner_rel. unfold setDevAddress. rel_walk. Qed.

Lemma excludeFromFee_rel sender a b : rel R (excludeFromFee sender a b).
Proof. pose proof onlyOwner_rel. unfold excludeFromFee. rel_walk. Qed.

Lemma approve_rel sender spender amount : rel R (approve sender spender amount).
Proof. apply _approve_rel. Qed.

Lemma increaseAllowance_rel sender spender v : rel R (increaseAllowance sender spender v).
Proof.
  pose proof allowance_rel. pose proof _approve_rel.
  unfold increaseAllowance. rel_walk.
Qed.

Lemma decreaseAllowance_rel sender spender v : rel R (decreaseAllowance sender spender v).
Proof.
  pose proof allowance_rel. pose proof _approve_rel.
  unfold decreaseAllowance. rel_walk.
Qed.

Lemma permit_rel owner spender v valid : rel R (permit owner spender v valid).
Proof. pose proof _approve_rel. unfold permit. rel_walk. Qed.

Lemma transferOwnership_rel sender a : rel R (transferOwnership sender a).
Proof. pose proof onlyOwner_rel. unfold transferOwnership. rel_walk. Qed.

Lemma acceptOwnership_rel sender : rel R (acceptOwnership sender).
Proof. pose proof _transferOwnership_rel. unfold acceptOwnership. rel_walk. Qed.

Lemma renounceOwnership_rel sender : rel R (renounceOwnership sender).
Proof.
  pose proof onlyOwner_rel. pose proof _transferOwnership_rel.
  unfold renounceOwnership. rel_walk.
Qed.

Lemma constructor_rel `{!FrameBalances R} deployer o dev :
  rel R (constructor d deployer o dev).
Proof.
  pose proof _transferOwnership_rel. pose proof _mint_rel.
  unfold constructor. rel_walk.
Qed.

(** A transfer that is not a refund. *)
Lemma _update_rel_elsewhere from to amount :
  to <> this d -> rel R (_update d w from to amount).
Proof.
  intros Hto. pose proof super_transfer_rel. pose proof _handleTaxedTransfer_rel.
  unfold _update.
  destruct (N.eqb_spec to (this d)) as [|_]; [contradiction|].
  rel_walk.
Qed.

Lemma _transfer_rel_elsewhere from to amount :
  to <> this d -> rel R (_transfer d w from to amount).
Proof.
  intros Hto. pose proof (_update_rel_elsewhere from to amount Hto).
  unfold _transfer. rel_walk.
Qed.

End FrameLedgerFacts.

#[global] Hint Resolve super_transfer_rel _mint_rel _burn_rel allowance_rel _approve_rel
  _spendAllowance_rel _transferOwnership_rel onlyOwner_rel abi_decode_address_rel
  _cacheLiquidityPair_rel isLiquidityPair_rel _handleTaxedTransfer_rel claimDividends_rel
  setDevAddress_rel excludeFromFee_rel approve_rel increaseAllowance_rel
  decreaseAllowance_rel permit_rel transferOwnership_rel acceptOwnership_rel
  renounceOwnership_rel constructor_rel : rel.

Section FrameAllFacts.

Context (d : Deploy) (w : World) (R : relation State) `{!FrameBuy R}.

Lemma burn_within_limit_rel `{!FrameBalances R} `{!FrameBurn R} burned fee :
  rel R (burn_within_limit d burned fee).
Proof. unfold burn_within_limit. rel_walk. Qed.

Lemma _handleRefund_rel `{!FrameBalances R} `{!FrameBurn R} sender amount :
  rel R (_handleRefund d w sender amount).
Proof. pose proof burn_within_limit_rel. unfold _handleRefund. rel_walk. Qed.

Lemma _buy_rel buyer amount : rel R (_buy d w buyer amount).
Proof. unfold _buy. rel_walk. Qed.

Lemma buy_rel sender value : rel R (buy d w sender value).
Proof. pose proof _buy_rel. unfold buy. rel_walk. Qed.

Context `{!FrameRefund R}.

Lemma _update_rel from to amount : rel R (_update d w from to amount).
Proof.
  pose proof (frame_refund d w).
  unfold _update. rel_walk.
Qed.

Lemma _transfer_rel from to amount : rel R (_transfer d w from to amount).
Proof. pose proof _update_rel. unfold _transfer. rel_walk. Qed.

Lemma transfer_rel sender to amount : rel R (transfer d w sender to amount).
Proof. apply _transfer_rel. Qed.

Lemma transferFrom_rel sender from to amount :
  rel R (transferFrom d w sender from to amount).
Proof. pose proof _transfer_rel. unfold transferFrom. rel_walk. Qed.

Lemma call_rel sender c : rel R (call d w sender c).
Proof.
  pose proof buy_rel. pose proof transfer_rel. pose proof transferFrom_rel.
  destruct c; simpl; rel_walk.
Qed.

(** A reverted transaction keeps the storage, so the relation holds across
    every transaction. *)
Lemma execute_rel sender c s : R s (execute d w sender c s).
Proof.
  unfold execute. destruct (call d w sender c s) as [a s' l|e] eqn:H.
  - eapply call_rel; eassumption.
  - reflexivity.
Qed.

End FrameAllFacts.

(** What a transfer between accounts writes. *)
Lemma super_transfer_ok from to amount s a s' l :
  super_transfer from to amount s = Ok a s' l ->
  from <> 0 /\ to <> 0 /\ amount <= at_ (_balances s) from /\
  s' = set_balances
         (<[to := add_wrap (at_ (<[from := at_ (_balances s) from - amount]> (_balances s)) to)
                    amount]>
            (<[from := at_ (_balances s) from - amount]> (_balances s))) s.
Proof.
  intros H. unfold super_transfer in H.
  step_as H Hf. step_as H Ht. step_in H. step_as H Hb. step_in H.
  apply modify_ok in H as (-> & _).
  apply negb_true_iff, N.eqb_neq in Hf, Ht. apply N.leb_le in Hb.
  repeat split; assumption.
Qed.

(** ** Frames of the relations used below *)

(** Keeping a field is a frame whenever the setters compute through it. *)
Ltac keeps_dividends := split; [ apply keeps_preorder | intros; reflexivity .. ].
Ltac keeps_ledger :=
  split;
  [ keeps_dividends
  | first
      [ let H := fresh in
        intros ? ? ? ? ? ? ? H; apply super_transfer_ok in H as (_ & _ & _ & ->);
        reflexivity
      | intros; reflexivity ] .. ].
Ltac keeps_buy := split; [ keeps_ledger | intros ? ?; reflexivity | intros; reflexivity .. ].

#[global] Hint Extern 1 (FrameDividends (keeps _)) => keeps_dividends : typeclass_instances.
#[global] Hint Extern 1 (FrameLedger (keeps _)) => keeps_ledger : typeclass_instances.
#[global] Hint Extern 1 (FrameBuy (keeps _)) => keeps_buy : typeclass_instances.
#[global] Hint Extern 1 (FrameBurn (keeps _)) =>
  (intros ? ?; reflexivity) : typeclass_instances.
#[global] Hint Extern 1 (FrameBalances (keeps _)) =>
  (intros ? ?; reflexivity) : typeclass_instances.
#[global] Hint Extern 1 (FrameGuard (keeps _)) =>
  (intros ? ?; reflexivity) : typeclass_instances.

(** From a step that returned, the value of a field after it. *)
Create HintDb model discriminated.

#[global] Hint Unfold balanceOf totalSupply getCirculatingSupply isContract
  abi_decode_address _cacheLiquidityPair isLiquidityPair _distributeDividends
  credit_dividends _updateUserDividendTracking _getTokensForUsdc super_transfer _mint _burn
  allowance _approve _spendAllowance _transferOwnership onlyOwner burn_within_limit : model.

Ltac kept f H :=
  lazymatch type of H with
  | ?m ?s = Ok _ ?s1 _ =>
      let K := fresh "K" in
      assert (K : rel (keeps f) m)
        by first [ rel_walk | repeat autounfold with model; rel_walk ];
      specialize (K _ _ _ _ H); unfold keeps in K; simpl in K
  end.

(** Computations that only read. *)
Lemma isContract_view w a s b s' l : isContract w a s = Ok b s' l -> s' = s.
Proof.
  revert s b s' l. change (rel (fun s s' => s' = s) (isContract w a)).
  assert (PreOrder (fun s s' : State => s' = s)).
  { split; [intros s; reflexivity | intros s1 s2 s3 H12 H23; congruence]. }
  unfold isContract. rel_walk.
Qed.

Lemma nonReentrant_ok {A} (body : M A) s a s' l :
  nonReentrant body s = Ok a s' l ->
  _status s = NOT_ENTERED /\
  exists s1, body (set_status ENTERED s) = Ok a s1 l /\ s' = set_status NOT_ENTERED s1.
Proof.
  unfold nonReentrant. intros H. do 3 step_in H.
  apply bind_ok in H as (r & sb & lb & lc & Hb & H' & ->).
  step_in H'. apply ret_ok in H' as (-> & -> & ->).
  split; [destruct (_status s); [reflexivity | discriminate]|].
  exists sb. rewrite app_nil_r. auto.
Qed.

(** ** The accumulator only grows *)


#[global] Instance accumulator_grows_preorder : PreOrder accumulator_grows.
Proof.
  split.
  - intros s. unfold accumulator_grows. lia.
  - intros s1 s2 s3. unfold accumulator_grows. lia.
Qed.

#[global] Instance accumulator_grows_dividends : FrameDividends accumulator_grows.
Proof. split; [apply _ | intros; red; simpl; lia ..]. Qed.

#[global] Instance accumulator_grows_balances : FrameBalances accumulator_grows.
Proof. intros v s. red. simpl. lia. Qed.

#[global] Instance accumulator_grows_ledger : FrameLedger accumulator_grows.
Proof.
  split; [apply _ | intros; apply super_transfer_by_writes; apply _
         | intros; red; simpl; lia ..].
Qed.

#[global] Instance accumulator_grows_guard : FrameGuard accumulator_grows.
Proof. intros v s. red. simpl. lia. Qed.

#[global] Instance accumulator_grows_buy : FrameBuy accumulator_grows.
Proof. split; [apply _ | apply _ | intros; red; simpl; lia ..]. Qed.

#[global] Instance accumulator_grows_burn : FrameBurn accumulator_grows.
Proof. intros v s. red. simpl. lia. Qed.

#[global] Instance accumulator_grows_refund : FrameRefund accumulator_grows.
Proof. intros d w sender amount. apply _handleRefund_rel; apply _. Qed.

(** ** Unchecked subtraction does not wrap where the contract uses it *)

Lemma sub_wrap_exact a b : b <= a -> a <= MAX_UINT256 -> sub_wrap a b = a - b.
Proof.
  intros Hb Ha. unfold sub_wrap, MAX_UINT256, MODULUS in *.
  rewrite (N.mod_small b) by lia.
  replace (a + 2 ^ 256 - b) with ((a - b) + 1 * 2 ^ 256) by lia.
  rewrite N.Div0.mod_add. apply N.mod_small. lia.
Qed.

Lemma tokensForRefund_exact burned gross :
  gross <= MAX_UINT256 ->
  sub_wrap
    (sub_wrap
       (sub_wrap (sub_wrap gross (gross * REFUND_DEV_FEE_BPS / 10000))
          (gross * REFUND_REFLECTION_FEE_BPS / 10000))
       (spec_refund_burn_fee burned gross))
    (spec_refund_reserve_fee burned gross)
  = spec_tokensForRefund burned gross.
Proof.
  intros Hg. unfold spec_tokensForRefund, spec_refund_dev_fee, spec_refund_reflection_fee,
    spec_refund_burn_fee, spec_refund_reserve_fee, REFUND_DEV_FEE_BPS, REFUND_REFLECTION_FEE_BPS.
  unfold MAX_UINT256 in Hg.
  destruct (burned <? BURNING_LIMIT);
    repeat match goal with
      | |- context [sub_wrap ?a ?b] =>
          lazymatch a with
          | context [sub_wrap] => fail
          | _ => rewrite (sub_wrap_exact a b) by (unfold MAX_UINT256; lia)
          end
      end; reflexivity.
Qed.

Lemma burn_within_limit_ok d burned fee s a s' l :
  burn_within_limit d burned fee s = Ok a s' l ->
  totalBurned s = burned ->
  usdcReserves s' = usdcReserves s /\
  totalBurned s' =
    burned + (if burned <? BURNING_LIMIT then N.min fee (BURNING_LIMIT - burned) else 0).
Proof.
  intros H Hb. unfold burn_within_limit in H.
  destruct (N.eqb_spec fee 0) as [->|Hfee]; simpl in H.
  { apply ret_ok in H as (_ & -> & _). split; [reflexivity|].
    destruct (burned <? BURNING_LIMIT); lia. }
  destruct (N.ltb_spec burned BURNING_LIMIT) as [Hlim|Hlim]; simpl in H.
  2: { apply ret_ok in H as (_ & -> & _). split; [reflexivity | lia]. }
  step_as H Hrem. cbv zeta in H.
  assert ((if BURNING_LIMIT - burned <? fee then BURNING_LIMIT - burned else fee)
          = N.min fee (BURNING_LIMIT - burned)) as Emin.
  { destruct (N.ltb_spec (BURNING_LIMIT - burned) fee); lia. }
  rewrite Emin in H. clear Emin.
  destruct (N.eqb_spec (N.min fee (BURNING_LIMIT - burned)) 0) as [E|E]; simpl in H.
  { lia. }
  step_as H Hburn.
  kept (fun s => (usdcReserves s, totalBurned s)) Hburn. injection K as Kr Kb.
  step_in H. step_as H Hadd. apply modify_ok in H as (-> & _). simpl.
  split; [assumption | lia].
Qed.

Lemma _handleRefund_ok d w sender gross s s' l :
  _handleRefund d w sender gross s = Ok tt s' l ->
  let burned := totalBurned s in
  let held := at_ (_balances s) (this d) in
  let reserves := usdcReserves s in
  _status s = NOT_ENTERED /\
  MINIMUM_PURCHASE_USDC <= gross /\
  gross <= MAX_UINT256 /\
  burned + held <= TOTAL_SUPPLY /\
  spec_currentCirculatingSupply burned held gross <> 0 /\
  spec_payout burned held reserves gross <= reserves /\
  usdcReserves s' = reserves - spec_payout burned held reserves gross /\
  totalBurned s' =
    burned + (if burned <? BURNING_LIMIT
              then N.min (spec_refund_burn_fee burned gross) (BURNING_LIMIT - burned)
              else 0) /\
  payout_ok w sender
    match backing d with
    | NativeUSDC => spec_payout burned held reserves gross * 1000000000000
    | TokenEURC _ => spec_payout burned held reserves gross
    end = true.
Proof.
  intros H. unfold _handleRefund in H.
  apply nonReentrant_ok in H as (Hst & sb & H & ->).
  step_as H Hnz. step_as H Hmin.
  step_as H Hc. apply isContract_view in Hc as ->.
  step_as H Hacc.
  kept (fun s => (usdcReserves s, totalBurned s, _balances s)) Hacc.
  injection K as Kr Kb Kbal. clear Hacc.
  step_in H. step_as H Hdev. step_as H Hrefl.
  step_as H Hburn. step_as H Hres.
  assert (v3 = spec_refund_burn_fee (totalBurned s0) gross /\ s1 = s0) as [-> ->].
  { unfold spec_refund_burn_fee. destruct (totalBurned s0 <? BURNING_LIMIT).
    - apply mulDiv_ok in Hburn as (-> & _ & _ & -> & _). auto.
    - apply ret_ok in Hburn as (-> & -> & _). auto. }
  assert (v4 = spec_refund_reserve_fee (totalBurned s0) gross /\ s2 = s0) as [-> ->].
  { unfold spec_refund_reserve_fee. destruct (totalBurned s0 <? BURNING_LIMIT);
      apply mulDiv_ok in Hres as (-> & _ & _ & -> & _); auto. }
  clear Hburn Hres.
  step_in H.
  step_as H Hsup. step_as H Hout. step_as H Hccs. step_as H Hccs0.
  step_in H. step_as H Hscaled. step_in H. step_as H Hpay. step_in H.
  step_as H Hsolvent.
  assert (gross <= MAX_UINT256) as Hg by lia.
  rewrite (tokensForRefund_exact _ _ Hg) in *.
  step_as H Hdevt.
  kept (fun s => (usdcReserves s, totalBurned s)) Hdevt.
  injection K as Kr1 Kb1. clear Hdevt.
  step_as H Hb.
  apply burn_within_limit_ok in Hb as [Kr2 Kb2]; [|assumption].
  step_as H Hdist.
  kept (fun s => (usdcReserves s, totalBurned s)) Hdist.
  injection K as Kr3 Kb3. clear Hdist.
  step_in H. step_as H Hsub. step_in H.
  match type of Hsub with ?p <= _ => remember p as paid eqn:Epaid in * end.
  assert (sb = set_usdcReserves (usdcReserves s3 - paid) s3
          /\ payout_ok w sender match backing d with
                                | NativeUSDC => paid * 1000000000000
                                | TokenEURC _ => paid
                                end = true) as [-> Hpaid].
  { destruct (backing d).
    - step_in H. apply revert_if_ok in H as (Hp & -> & _).
      split; [reflexivity|]. apply negb_false_iff in Hp. exact Hp.
    - apply require_ok in H as (Hp & -> & _). auto. }
  subst paid.
  simpl. rewrite Kb3, Kb2, Kr3, Kr2, Kr1.
  simpl in Kr, Kb, Kbal. rewrite Kr, Kb, Kbal in *.
  apply N.ltb_ge in Hmin, Hsolvent.
  unfold spec_payout, spec_currentCirculatingSupply, spec_effectiveBacking.
  unfold EFFECTIVE_BACKING_NUMERATOR, EFFECTIVE_BACKING_DENOMINATOR in *.
  repeat split; try assumption; try lia.
Qed.

(** ** What a purchase computes *)

Lemma min_is_Nmin a b : min a b = N.min a b.
Proof. unfold min. destruct (N.ltb_spec a b); lia. Qed.

Lemma _getTokensForUsdc_ok d deposit reserveBefore s t s' l :
  _getTokensForUsdc d deposit reserveBefore s = Ok t s' l ->
  s' = s /\ l = [] /\
  t = spec_tokens_issued deposit
        (spec_buy_price (spec_circulating d s) reserveBefore)
        (at_ (_balances s) (this d)).
Proof.
  intros H. unfold _getTokensForUsdc in H.
  unfold spec_tokens_issued, spec_buy_price, spec_circulating.
  destruct (N.eqb_spec deposit 0) as [->|Hd].
  { apply ret_ok in H as (-> & -> & ->). repeat split; trivial.
    rewrite N.mul_0_l, N.Div0.div_0_l. lia. }
  step_in H.
  destruct (N.eqb_spec (at_ (_balances s) (this d)) 0) as [E|Ha].
  { apply ret_ok in H as (-> & -> & ->). repeat split; trivial. rewrite E.
    symmetry. apply N.min_r, N.le_0_l. }
  step_as H Htot. unfold totalSupply in Htot. step_in Htot.
  apply sub_ok in Htot as (-> & Hb & -> & ->).
  step_as H Hcirc.
  step_as H Hprice.
  destruct ((TOTAL_SUPPLY - totalBurned s - at_ (_balances s) (this d) =? 0)
            || (reserveBefore =? 0)).
  - apply ret_ok in Hprice as (-> & -> & ->).
    step_in H. step_in H. apply ret_ok in H as (-> & -> & ->).
    repeat split; trivial. apply min_is_Nmin.
  - do 3 step_in Hprice. apply div_ok in Hprice as (-> & ? & -> & ->).
    step_in H. step_in H. apply ret_ok in H as (-> & -> & ->).
    repeat split; trivial. apply min_is_Nmin.
Qed.

Lemma _buy_ok d w buyer deposit s s' l :
  _buy d w buyer deposit s = Ok tt s' l ->
  let issued :=
    spec_tokens_issued deposit
      (spec_buy_price (spec_circulating d s) (usdcReserves s - deposit))
      (at_ (_balances s) (this d)) in
  deposit <= usdcReserves s /\
  issued <> 0 /\
  usdcReserves s' = usdcReserves s /\
  totalBurned s' = totalBurned s /\
  tokensSold s' = tokensSold s + issued.
Proof.
  intros H. unfold _buy in H.
  step_in H. step_as H Hdep.
  step_as H Htok. apply _getTokensForUsdc_ok in Htok as (-> & -> & ->).
  step_as H Hnz. step_in H. step_as H Hsold. step_as H Hcap.
  step_as H Hdev. step_as H Hres. step_as H Hrefl.
  step_in H. step_as H Hsold'. step_in H.
  kept (fun s => (usdcReserves s, totalBurned s, tokensSold s)) H.
  injection K as Kr Kb Ks. clear H.
  apply N.eqb_neq in Hnz.
  repeat split; assumption.
Qed.

Lemma buy_ok d w sender value s s' l :
  buy d w sender value s = Ok tt s' l ->
  let deposit := deposit_of d value in
  let issued :=
    spec_tokens_issued deposit
      (spec_buy_price (spec_circulating d s) (usdcReserves s))
      (at_ (_balances s) (this d)) in
  _status s = NOT_ENTERED /\
  MINIMUM_PURCHASE_USDC <= deposit /\
  issued <> 0 /\
  usdcReserves s' = usdcReserves s + deposit /\
  totalBurned s' = totalBurned s /\
  tokensSold s' = tokensSold s + issued.
Proof.
  intros H. unfold buy in H.
  apply nonReentrant_ok in H as (Hst & sb & H & ->).
  unfold deposit_of.
  destruct (backing d).
  - step_in H. step_as H Hmin. step_in H. step_as H Hadd. step_in H.
    apply _buy_ok in H as (Hd & Hi & Hr & Hb & Hs).
    simpl in *. unfold spec_circulating in *. simpl in *.
    replace (usdcReserves s + value / 1000000000000 - value / 1000000000000)
      with (usdcReserves s) in * by lia.
    apply N.ltb_ge in Hmin.
    repeat split; assumption.
  - step_as H Hmin. step_as H Hpull. step_in H. step_as H Hadd. step_in H.
    apply _buy_ok in H as (Hd & Hi & Hr & Hb & Hs).
    simpl in *. unfold spec_circulating in *. simpl in *.
    replace (usdcReserves s + value - value) with (usdcReserves s) in * by lia.
    apply N.ltb_ge in Hmin.
    repeat split; assumption.
Qed.

(** ** The burn counter across every function *)

#[global] Instance burn_bounded_preorder : PreOrder burn_bounded.
Proof.
  split.
  - intros s H. exact H.
  - intros s1 s2 s3 H12 H23 H. apply H23, H12, H.
Qed.

#[global] Instance burn_bounded_dividends : FrameDividends burn_bounded.
Proof. split; [apply _ | intros; intros Hle; exact Hle ..]. Qed.

#[global] Instance burn_bounded_balances : FrameBalances burn_bounded.
Proof. intros v s Hle. exact Hle. Qed.

#[global] Instance burn_bounded_ledger : FrameLedger burn_bounded.
Proof.
  split; [apply _ | intros; apply super_transfer_by_writes; apply _
         | intros; intros Hle; exact Hle ..].
Qed.

#[global] Instance burn_bounded_guard : FrameGuard burn_bounded.
Proof. intros v s Hle. exact Hle. Qed.

#[global] Instance burn_bounded_buy : FrameBuy burn_bounded.
Proof. split; [apply _ | apply _ | intros; intros Hle; exact Hle ..]. Qed.

#[global] Instance burn_bounded_refund : FrameRefund burn_bounded.
Proof.
  intros d w sender amount s [] s' l H Hle.
  apply _handleRefund_ok in H as (_ & _ & _ & _ & _ & _ & _ & Hb & _).
  rewrite Hb. destruct (N.ltb_spec (totalBurned s) BURNING_LIMIT); lia.
Qed.

Lemma genesis_reachable d :
  (exists l, constructor d 1 1 2 empty_storage = Ok tt (genesis d) l) -> reachable d (genesis d).
Proof. intros [l H]. eapply reachable_deployed. exact H. Qed.

(** ** Transfers to the contract itself, and rejections *)

Lemma at_insert_eq (m : gmap N N) k v : at_ (<[k := v]> m) k = v.
Proof. unfold at_. rewrite lookup_insert_eq. reflexivity. Qed.

Lemma at_insert_ne (m : gmap N N) k j v : k <> j -> at_ (<[k := v]> m) j = at_ m j.
Proof. intros Hne. unfold at_. rewrite lookup_insert_ne by assumption. reflexivity. Qed.

Lemma _update_refund_ok d w from amount s s' l :
  _update d w from (this d) amount s = Ok tt s' l ->
  exists s1 l1 l2,
    super_transfer from (this d) amount s = Ok tt s1 l1 /\
    _handleRefund d w from amount s1 = Ok tt s' l2.
Proof.
  intros H. unfold _update in H.
  do 5 step_in H. cbv zeta in H. rewrite N.eqb_refl in H.
  step_as H Hin. destruct v2. eauto.
Qed.

Lemma _transfer_refund_ok d w from amount s s' l :
  _transfer d w from (this d) amount s = Ok tt s' l ->
  exists s0 s1 l1 l2,
    usdcReserves s0 = usdcReserves s /\
    totalBurned s0 = totalBurned s /\
    _balances s0 = _balances s /\
    super_transfer from (this d) amount s0 = Ok tt s1 l1 /\
    _handleRefund d w from amount s1 = Ok tt s' l2.
Proof.
  intros H. unfold _transfer in H.
  step_as H Hfrom.
  kept (fun s => (usdcReserves s, totalBurned s, _balances s)) Hfrom.
  injection K as Kr Kb Kbal.
  step_as H Hto.
  kept (fun s => (usdcReserves s, totalBurned s, _balances s)) Hto.
  injection K as Kr' Kb' Kbal'.
  apply _update_refund_ok in H as (sx & lx & ly & Hin & Href).
  match type of Hin with super_transfer _ _ _ ?s0 = _ => exists s0 end.
  exists sx, lx, ly. repeat split; try congruence; assumption.
Qed.

Lemma add_wrap_exact a b : a + b <= MAX_UINT256 -> add_wrap a b = a + b.
Proof. intros H. unfold add_wrap. apply N.mod_small. unfold MAX_UINT256, MODULUS in *. lia. Qed.

(** ** Conservation of the supply *)

(** The sum of the balances under the writes the ledger makes. *)
Lemma ledger_sum_empty : ledger_sum ∅ = 0.
Proof. apply map_fold_empty. Qed.

Lemma ledger_sum_fresh (m : gmap N N) k v :
  m !! k = None -> ledger_sum (<[k := v]> m) = v + ledger_sum m.
Proof.
  intros Hk. unfold ledger_sum.
  apply (map_fold_insert_L (fun _ v acc => v + acc)); [|assumption].
  intros. lia.
Qed.

Lemma ledger_sum_delete (m : gmap N N) k :
  ledger_sum m = at_ m k + ledger_sum (delete k m).
Proof.
  unfold at_. destruct (m !! k) as [x|] eqn:Hk; simpl.
  - unfold ledger_sum.
    apply (map_fold_delete_L (fun _ v acc => v + acc)); [|assumption].
    intros. lia.
  - rewrite delete_id by assumption. reflexivity.
Qed.

Lemma ledger_sum_insert (m : gmap N N) k v :
  ledger_sum (<[k := v]> m) + at_ m k = ledger_sum m + v.
Proof.
  rewrite (ledger_sum_delete m k).
  rewrite <- (insert_delete_eq m k v).
  rewrite ledger_sum_fresh by apply lookup_delete_eq. lia.
Qed.

Lemma at_le_ledger_sum (m : gmap N N) k : at_ m k <= ledger_sum m.
Proof. rewrite (ledger_sum_delete m k). lia. Qed.

Lemma two_le_ledger_sum (m : gmap N N) j k :
  j <> k -> at_ m j + at_ m k <= ledger_sum m.
Proof.
  intros Hne. rewrite (ledger_sum_delete m j).
  pose proof (at_le_ledger_sum (delete j m) k) as H.
  unfold at_ in H at 1. rewrite lookup_delete_ne in H by assumption.
  fold (at_ m k) in H. lia.
Qed.

Lemma TOTAL_SUPPLY_fits : TOTAL_SUPPLY <= MAX_UINT256.
Proof. vm_compute. discriminate. Qed.

(** A transfer into another account does not wrap. *)
Lemma conserved_fits s from to amount :
  conserved s -> from <> to -> amount <= at_ (_balances s) from ->
  at_ (_balances s) to + amount <= MAX_UINT256.
Proof.
  intros Hc Hne Hle. pose proof TOTAL_SUPPLY_fits.
  pose proof (two_le_ledger_sum (_balances s) from to Hne).
  unfold conserved in Hc. lia.
Qed.

(** A transfer moves tokens and neither makes nor loses any. *)
Lemma super_transfer_conservation from to amount :
  rel conservation (super_transfer from to amount).
Proof.
  intros s a s' l H Hc.
  apply super_transfer_ok in H as (_ & _ & Hle & ->).
  unfold conserved in *. simpl.
  set (m := _balances s) in *.
  set (m1 := <[from := at_ m from - amount]> m).
  pose proof (ledger_sum_insert m from (at_ m from - amount)) as H1. fold m1 in H1.
  pose proof (at_le_ledger_sum m from).
  pose proof (at_le_ledger_sum m1 to).
  pose proof TOTAL_SUPPLY_fits.
  rewrite add_wrap_exact by lia.
  pose proof (ledger_sum_insert m1 to (at_ m1 to + amount)). lia.
Qed.

(** What the refund burns leaves the ledger and enters the burn counter. *)
Lemma burn_within_limit_conservation d burned fee :
  rel conservation (burn_within_limit d burned fee).
Proof.
  intros s a s' l H Hc. unfold burn_within_limit in H.
  destruct (negb (fee =? 0) && (burned <? BURNING_LIMIT)).
  2: { apply ret_ok in H as (_ & -> & _). exact Hc. }
  step_as H Hrem. cbv zeta in H.
  match type of H with when (negb (?x =? 0)) _ _ = _ => set (burnt := x) in * end.
  unfold when in H.
  destruct (negb (burnt =? 0)).
  2: { apply ret_ok in H as (_ & -> & _). exact Hc. }
  step_as H Hburn. unfold _burn in Hburn.
  step_as Hburn Hz. step_in Hburn. step_as Hburn Hle. step_in Hburn.
  apply modify_ok in Hburn as (-> & _).
  step_in H. step_as H Hadd. apply modify_ok in H as (-> & _).
  apply N.leb_le in Hle.
  unfold conserved in *. simpl.
  pose proof (ledger_sum_insert (_balances s) (this d) (at_ (_balances s) (this d) - burnt)).
  pose proof (at_le_ledger_sum (_balances s) (this d)).
  lia.
Qed.

#[global] Instance conservation_preorder : PreOrder conservation.
Proof.
  split.
  - intros s Hc. exact Hc.
  - intros s1 s2 s3 H12 H23 Hc. apply H23, H12, Hc.
Qed.

#[global] Instance conservation_guard : FrameGuard conservation.
Proof. intros v s Hc. exact Hc. Qed.

#[global] Instance conservation_dividends : FrameDividends conservation.
Proof. split; [apply _ | intros; intros Hc; exact Hc ..]. Qed.

#[global] Instance conservation_ledger : FrameLedger conservation.
Proof.
  split; [apply _ | apply super_transfer_conservation | intros; intros Hc; exact Hc ..].
Qed.

#[global] Instance conservation_buy : FrameBuy conservation.
Proof. split; [apply _ | apply _ | intros; intros Hc; exact Hc ..]. Qed.

#[global] Instance conservation_refund : FrameRefund conservation.
Proof.
  intros d w sender amount.
  pose proof (burn_within_limit_conservation d).
  unfold _handleRefund. rel_walk.
Qed.

(** The constructor mints the whole supply to the contract. *)
Lemma constructor_mints d deployer o dev s0 s l :
  constructor d deployer o dev s0 = Ok tt s l ->
  _balances s0 = ∅ -> totalBurned s0 = 0 ->
  conserved s.
Proof.
  intros H Hbal Hburned. unfold constructor in H.
  do 3 step_in H. step_as H Hback.
  kept (fun s => (_balances s, totalBurned s)) Hback.
  injection K as Kbal Kb.
  step_in H. step_as H Hmint. do 3 step_in H.
  kept (fun s => (_balances s, totalBurned s)) H. injection K as Kbal2 Kb2.
  unfold _mint in Hmint. step_in Hmint. step_in Hmint. step_as Hmint Hadd.
  step_in Hmint. apply modify_ok in Hmint as (-> & _).
  simpl in Kbal2, Kb2.
  unfold conserved. rewrite Kbal2, Kb2, Kbal, Kb, Hbal, Hburned.
  change (at_ ∅ (this d)) with 0. rewrite add_wrap_exact by (vm_compute; discriminate).
  rewrite ledger_sum_fresh by apply lookup_empty. rewrite ledger_sum_empty. lia.
Qed.

(** Conservation holds in every reachable state. *)
Lemma reachable_conserved d s : reachable d s -> conserved s.
Proof.
  intros Hs. induction Hs as [deployer o dev s l H | w sender c s Hs IH].
  - eapply constructor_mints; [eassumption | reflexivity | reflexivity].
  - exact (execute_rel d w conservation sender c s IH).
Qed.

Lemma conserved_same s s' :
  _balances s' = _balances s -> totalBurned s' = totalBurned s ->
  conserved s -> conserved s'.
Proof. unfold conserved. intros -> ->. auto. Qed.


Lemma refund_tx_ok d w from amount s s' l :
  _transfer d w from (this d) amount s = Ok tt s' l ->
  from <> this d ->
  conserved s ->
  let held := at_ (_balances s) (this d) + amount in
  let payout := spec_payout (totalBurned s) held (usdcReserves s) amount in
  MINIMUM_PURCHASE_USDC <= amount /\
  payout <= usdcReserves s /\
  usdcReserves s' = usdcReserves s - payout.
Proof.
  intros H Hne Hc.
  apply _transfer_refund_ok in H as (s0 & s1 & l1 & l2 & Kr & Kb & Kbal & Hin & Href).
  apply super_transfer_ok in Hin as (_ & _ & Hle & ->).
  assert (Hfit : at_ (_balances s) (this d) + amount <= MAX_UINT256).
  { rewrite <- Kbal. apply (conserved_fits s0 from); [|assumption|assumption].
    apply (conserved_same s); assumption. }
  apply _handleRefund_ok in Href as (_ & Hmin & _ & _ & _ & Hpay & Hres & _).
  simpl in Hpay, Hres.
  rewrite at_insert_eq, at_insert_ne in Hpay, Hres by assumption.
  rewrite Kbal, Kr, Kb in Hpay, Hres.
  rewrite add_wrap_exact in Hpay, Hres by assumption.
  cbv zeta. auto.
Qed.

(** The payout formula stays within the effective backing, and so within the
    reserve: the tokens paid for are part of the circulating supply they are
    divided by. *)
Lemma spec_payout_le_reserve burned held reserves gross :
  spec_payout burned held reserves gross <= spec_effectiveBacking reserves /\
  spec_effectiveBacking reserves <= reserves.
Proof.
  split.
  - unfold spec_payout.
    assert (Hle : spec_tokensForRefund burned gross
                  <= spec_currentCirculatingSupply burned held gross).
    { unfold spec_tokensForRefund, spec_currentCirculatingSupply. lia. }
    apply N.Div0.div_le_upper_bound.
    apply N.mul_le_mono_r. assumption.
  - unfold spec_effectiveBacking. lia.
Qed.

Lemma below_minimum_refund_reverts d w from amount s :
  amount < MINIMUM_PURCHASE_USDC ->
  exists e, _transfer d w from (this d) amount s = Revert e.
Proof.
  intros Hlt.
  destruct (_transfer d w from (this d) amount s) as [[] s' l|e] eqn:H; [|eauto].
  apply _transfer_refund_ok in H as (s0 & s1 & l1 & l2 & _ & _ & _ & _ & Href).
  apply _handleRefund_ok in Href as (_ & Hmin & _). lia.
Qed.

Lemma below_minimum_buy_reverts d w sender value s :
  deposit_of d value < MINIMUM_PURCHASE_USDC ->
  exists e, buy d w sender value s = Revert e.
Proof.
  intros Hlt.
  destruct (buy d w sender value s) as [[] s' l|e] eqn:H; [|eauto].
  apply buy_ok in H as (_ & Hmin & _). lia.
Qed.

Lemma execute_reverted d w sender c s e :
  call d w sender c s = Revert e -> execute d w sender c s = s.
Proof. intros H. unfold execute. rewrite H. reflexivity. Qed.

Lemma transferFrom_ok d w sender from to amount s s' l :
  transferFrom d w sender from to amount s = Ok tt s' l ->
  exists s0 l1 l2,
    usdcReserves s0 = usdcReserves s /\ totalBurned s0 = totalBurned s /\
    _balances s0 = _balances s /\
    _spendAllowance from sender amount s = Ok tt s0 l1 /\
    _transfer d w from to amount s0 = Ok tt s' l2.
Proof.
  intros H. unfold transferFrom in H. step_as H Hspend.
  pose proof Hspend as Hspend'. unfold _spendAllowance, allowance, _approve in Hspend'.
  kept (fun s => (usdcReserves s, totalBurned s, _balances s)) Hspend'.
  injection K as Kr Kb Kbal. destruct v. eauto 10.
Qed.

(** ** The classifier, the guard and claims by contracts *)

(** The classifier does not look at the storage. *)
Lemma isContract_any_state w a s b s' l :
  isContract w a s = Ok b s' l -> forall s2, isContract w a s2 = Ok b s2 l.
Proof.
  unfold isContract, probe, mbind, M_bind, bind, ret.
  intros H s2.
  repeat match type of H with
         | context [if ?c then _ else _] => destruct c
         end;
    inversion H; reflexivity.
Qed.

Lemma set_status_idle s : _status s = NOT_ENTERED -> set_status NOT_ENTERED s = s.
Proof. destruct s. simpl. intros ->. reflexivity. Qed.

Lemma set_status_twice v1 v2 s : set_status v2 (set_status v1 s) = set_status v2 s.
Proof. reflexivity. Qed.

Lemma nonReentrant_run {A} (body : M A) s a s1 l :
  _status s = NOT_ENTERED ->
  body (set_status ENTERED s) = Ok a s1 l ->
  nonReentrant body s = Ok a (set_status NOT_ENTERED s1) l.
Proof.
  intros Hst Hb. unfold nonReentrant, gets, require, modify, mbind, M_bind, bind, ret.
  rewrite Hst, Hb. simpl. rewrite app_nil_r. reflexivity.
Qed.

Lemma claimDividends_contract d w user s probes :
  isContract w user s = Ok true s probes ->
  _status s = NOT_ENTERED ->
  claimDividends d w user s = Ok tt s probes /\
  pendingDividends w user s = Ok 0 s probes.
Proof.
  intros Hc Hst. split.
  - unfold claimDividends.
    rewrite (nonReentrant_run _ s tt (set_status ENTERED s) probes Hst).
    + rewrite set_status_twice, set_status_idle by assumption. reflexivity.
    + cbv zeta. erewrite bind_step by (eapply isContract_any_state; eassumption).
      simpl. rewrite app_nil_r. reflexivity.
  - unfold pendingDividends. erewrite bind_step by eassumption.
    simpl. rewrite app_nil_r. reflexivity.
Qed.

Lemma guarded_idle {A} (body : M A) s a s' l :
  nonReentrant body s = Ok a s' l -> _status s' = NOT_ENTERED.
Proof. intros H. apply nonReentrant_ok in H as (_ & sb & _ & ->). reflexivity. Qed.

Lemma _transfer_idle d w from to amount s s' l :
  _transfer d w from to amount s = Ok tt s' l ->
  _status s = NOT_ENTERED -> _status s' = NOT_ENTERED.
Proof.
  intros H Hst. destruct (N.eq_dec to (this d)) as [->|Hne].
  - apply _transfer_refund_ok in H as (s0 & s1 & l1 & l2 & _ & _ & _ & _ & Href).
    unfold _handleRefund in Href. exact (guarded_idle _ _ _ _ _ Href).
  - apply (_transfer_rel_elsewhere d w (keeps _status) from to amount Hne) in H.
    unfold keeps in H. congruence.
Qed.

Lemma call_idle d w sender c s s' l :
  call d w sender c s = Ok tt s' l ->
  _status s = NOT_ENTERED -> _status s' = NOT_ENTERED.
Proof.
  intros H Hst.
  assert (Hkeep : forall m : M unit, rel (keeps _status) m -> m s = Ok tt s' l ->
                                     _status s' = NOT_ENTERED).
  { intros m Hm Hr. apply Hm in Hr. unfold keeps in Hr. congruence. }
  destruct c; simpl in H.
  - unfold buy in H. exact (guarded_idle _ _ _ _ _ H).
  - eapply _transfer_idle; eassumption.
  - unfold transferFrom in H. step_as H Hspend.
    apply (_spendAllowance_rel (keeps _status)) in Hspend. unfold keeps in Hspend.
    eapply _transfer_idle; [eassumption | congruence].
  - eapply Hkeep; [|eassumption]. apply approve_rel; apply _.
  - eapply Hkeep; [|eassumption]. apply increaseAllowance_rel; apply _.
  - eapply Hkeep; [|eassumption]. apply decreaseAllowance_rel; apply _.
  - eapply Hkeep; [|eassumption]. apply permit_rel; apply _.
  - unfold claimDividends in H. exact (guarded_idle _ _ _ _ _ H).
  - eapply Hkeep; [|eassumption]. apply setDevAddress_rel; apply _.
  - eapply Hkeep; [|eassumption]. apply excludeFromFee_rel; apply _.
  - eapply Hkeep; [|eassumption]. apply transferOwnership_rel; apply _.
  - eapply Hkeep; [|eassumption]. apply acceptOwnership_rel; apply _.
  - eapply Hkeep; [|eassumption]. apply renounceOwnership_rel; apply _.
Qed.

(** Between transactions no call is in flight. *)
Lemma reachable_idle d s : reachable d s -> _status s = NOT_ENTERED.
Proof.
  induction 1 as [deployer o dev s l H | w sender c s Hs IH].
  - apply (constructor_rel d (keeps _status)) in H. unfold keeps in H. rewrite H. reflexivity.
  - unfold execute. destruct (call d w sender c s) as [[] s' l|e] eqn:H; [|assumption].
    eapply call_idle; eassumption.
Qed.

(** ** An ordinary transfer between two wallets *)

Lemma isContract_wallet w a s : code_length w a = 0 -> isContract w a s = Ok false s [].
Proof. intros H. unfold isContract. rewrite H. reflexivity. Qed.

Lemma not_a_swap_between_wallets d w from to s :
  code_length w from = 0 -> code_length w to = 0 ->
  or_else (and_then (isContract w from) (isLiquidityPair d w from))
          (and_then (isContract w to) (isLiquidityPair d w to)) s
  = Ok false s [].
Proof.
  intros Hf Ht. unfold or_else, and_then, mbind, M_bind, bind.
  rewrite (isContract_wallet w from s Hf). simpl.
  rewrite (isContract_wallet w to s Ht). reflexivity.
Qed.

Lemma taxed_transfer_between_wallets d w from to amount s s' l :
  _handleTaxedTransfer d w from to amount s = Ok tt s' l ->
  code_length w from = 0 -> code_length w to = 0 ->
  from <> this d -> to <> this d -> devAddress s <> this d ->
  at_ (_balances s) (this d) + amount <= MAX_UINT256 ->
  usdcReserves s' = usdcReserves s /\
  at_ (_balances s') (this d)
  = at_ (_balances s) (this d) + amount * 10 / 10000 + amount * 10 / 10000.
Proof.
  intros H Hcf Hct Hf Ht Hd Hfit.
  split.
  { apply (_handleTaxedTransfer_rel d w (keeps usdcReserves)) in H. exact H. }
  unfold _handleTaxedTransfer in H.
  step_in H. step_as H Hbal.
  step_as H Hdex.
  rewrite not_a_swap_between_wallets in Hdex by assumption.
  injection Hdex as <- <- <-.
  step_as H Hdev. step_as H Hrefl. step_as H Hres.
  unfold TRANSFER_DEV_FEE_BPS, TRANSFER_REFLECTION_FEE_BPS, TRANSFER_RESERVE_FEE_BPS in *.
  assert (Hamount : amount <= MAX_UINT256) by lia.
  assert (Enet : sub_wrap (sub_wrap (sub_wrap amount (amount * 5 / 10000))
                             (amount * 10 / 10000)) (amount * 10 / 10000)
                 = amount - amount * 5 / 10000 - amount * 10 / 10000 - amount * 10 / 10000).
  { unfold MAX_UINT256 in Hamount.
    repeat match goal with
      | |- context [sub_wrap ?a ?b] =>
          lazymatch a with
          | context [sub_wrap] => fail
          | _ => rewrite (sub_wrap_exact a b) by (unfold MAX_UINT256; lia)
          end
      end. reflexivity. }
  rewrite Enet in H. clear Enet.
  step_as H Hin. apply super_transfer_ok in Hin as (_ & _ & _ & ->).
  step_as H Hdist.
  kept (fun s => (_balances s, devAddress s)) Hdist. injection K as Kbal Kdev.
  simpl in Kbal, Kdev. clear Hdist.
  assert (Hheld : at_ (_balances s0) (this d) = at_ (_balances s) (this d) + amount).
  { rewrite Kbal, at_insert_eq, at_insert_ne by assumption.
    apply add_wrap_exact. assumption. }
  clear Kbal.
  step_as H Hnet.
  assert (Hheld1 : at_ (_balances s1) (this d)
                   = at_ (_balances s) (this d) + amount
                     - (amount - amount * 5 / 10000 - amount * 10 / 10000
                        - amount * 10 / 10000)
                   /\ devAddress s1 = devAddress s).
  { destruct (N.eqb_spec (amount - amount * 5 / 10000 - amount * 10 / 10000
                          - amount * 10 / 10000) 0) as [E|E]; simpl in Hnet.
    - apply ret_ok in Hnet as (_ & -> & _). rewrite E. split; [lia | assumption].
    - apply super_transfer_ok in Hnet as (_ & _ & _ & ->). simpl.
      rewrite at_insert_ne, at_insert_eq by auto. split; [lia | assumption]. }
  destruct Hheld1 as [Hheld1 Hdev1]. clear Hnet.
  destruct (N.eqb_spec (amount * 5 / 10000) 0) as [E|E]; simpl in H.
  - apply ret_ok in H as (_ & -> & _). rewrite Hheld1. lia.
  - step_in H. apply super_transfer_ok in H as (_ & _ & _ & ->). simpl.
    rewrite at_insert_ne, at_insert_eq by congruence. rewrite Hheld1. lia.
Qed.

(** ** A purchase while nothing circulates *)

Lemma _distributeDividends_nothing_circulates d amount s a s' l :
  _distributeDividends d amount s = Ok a s' l ->
  spec_circulating d s = 0 ->
  s' = s.
Proof.
  intros H Hc. unfold _distributeDividends in H.
  destruct (amount =? 0); [apply ret_ok in H as (_ & -> & _); reflexivity|].
  step_as H Hcirc. unfold getCirculatingSupply, totalSupply, balanceOf in Hcirc.
  step_as Hcirc Htot. step_in Htot. apply sub_ok in Htot as (-> & ? & -> & ->).
  step_in Hcirc. apply sub_ok in Hcirc as (-> & ? & -> & ->).
  unfold spec_circulating in Hc. rewrite Hc in H. simpl in H.
  apply ret_ok in H as (_ & -> & _). reflexivity.
Qed.

Lemma _buy_nothing_circulates d w buyer deposit s s' l :
  _buy d w buyer deposit s = Ok tt s' l ->
  spec_circulating d s = 0 ->
  magnifiedDividendPerShare s' = magnifiedDividendPerShare s /\
  totalDividendsDistributed s' = totalDividendsDistributed s.
Proof.
  intros H Hc. unfold _buy in H.
  step_in H. step_as H Hdep.
  step_as H Htok. apply _getTokensForUsdc_ok in Htok as (-> & -> & ->).
  step_as H Hnz. step_in H. step_as H Hsold. step_as H Hcap.
  step_as H Hdev. step_as H Hres. step_as H Hrefl.
  step_in H. step_as H Hsold'. step_in H.
  step_as H Hc1. apply isContract_view in Hc1 as ->.
  step_as H Hacc.
  kept (fun s => (magnifiedDividendPerShare s, totalDividendsDistributed s,
                  _balances s, totalBurned s)) Hacc.
  injection K as Km Kt Kbal Kb. clear Hacc.
  step_as H Hdist.
  apply _distributeDividends_nothing_circulates in Hdist;
    [|unfold spec_circulating in *; rewrite Kbal, Kb; exact Hc].
  subst.
  kept (fun s => (magnifiedDividendPerShare s, totalDividendsDistributed s)) H.
  injection K as Km' Kt'. split; congruence.
Qed.

Lemma buy_nothing_circulates d w sender value s s' l :
  buy d w sender value s = Ok tt s' l ->
  spec_circulating d s = 0 ->
  magnifiedDividendPerShare s' = magnifiedDividendPerShare s /\
  totalDividendsDistributed s' = totalDividendsDistributed s.
Proof.
  intros H Hc. unfold buy in H.
  apply nonReentrant_ok in H as (_ & sb & H & ->).
  destruct (backing d).
  - step_in H. step_in H. step_in H. step_in H. step_in H.
    apply _buy_nothing_circulates in H; [exact H | exact Hc].
  - step_in H. step_in H. step_in H. step_in H. step_in H.
    apply _buy_nothing_circulates in H; [exact H | exact Hc].
Qed.

(** ** The pair caches *)

Lemma flag_insert_true (m : gmap N bool) a b :
  flag m b = true -> flag (<[a := true]> m) b = true.
Proof.
  unfold flag. destruct (decide (a = b)) as [->|Hne].
  - rewrite lookup_insert_eq. reflexivity.
  - rewrite lookup_insert_ne by assumption. trivial.
Qed.

Lemma flag_insert_eq (m : gmap N bool) a v : flag (<[a := v]> m) a = v.
Proof. unfold flag. rewrite lookup_insert_eq. reflexivity. Qed.

#[global] Instance cache_kept_preorder : PreOrder cache_kept.
Proof.
  split.
  - intros s a. auto.
  - intros s1 s2 s3 H12 H23 a. destruct (H12 a), (H23 a). auto.
Qed.

#[global] Instance cache_kept_guard : FrameGuard cache_kept.
Proof. intros v s a. simpl. auto. Qed.

#[global] Instance cache_kept_dividends : FrameDividends cache_kept.
Proof. split; [apply _ | intros; intros a; simpl; auto ..]. Qed.

#[global] Instance cache_kept_balances : FrameBalances cache_kept.
Proof. intros v s a. simpl. auto. Qed.

#[global] Instance cache_kept_ledger : FrameLedger cache_kept.
Proof.
  split; [apply _ | intros; apply super_transfer_by_writes; apply _
         | intros; intros b; simpl; auto ..].
  - split; [apply flag_insert_true | trivial].
  - split; [trivial | apply flag_insert_true].
Qed.

#[global] Instance cache_kept_buy : FrameBuy cache_kept.
Proof. split; [apply _ | apply _ | intros; intros a; simpl; auto ..]. Qed.

#[global] Instance cache_kept_burn : FrameBurn cache_kept.
Proof. intros v s a. simpl. auto. Qed.

#[global] Instance cache_kept_refund : FrameRefund cache_kept.
Proof. intros d w sender amount. apply _handleRefund_rel; apply _. Qed.

Lemma isLiquidityPair_cached d w a s :
  flag (_isLiquidityPair s) a = true \/ flag (_isNotLiquidityPair s) a = true ->
  isLiquidityPair d w a s
  = Ok (if code_length w a =? 0 then false else flag (_isLiquidityPair s) a) s [].
Proof.
  intros Hc. unfold isLiquidityPair, mbind, M_bind, bind, gets.
  destruct (code_length w a =? 0); [reflexivity|].
  destruct (flag (_isLiquidityPair s) a); [reflexivity|].
  destruct Hc as [Hc|Hc]; [discriminate|]. rewrite Hc. reflexivity.
Qed.

Lemma isLiquidityPair_classifies d w a s b s' l :
  isLiquidityPair d w a s = Ok b s' l ->
  code_length w a <> 0 ->
  flag (_isLiquidityPair s') a = true /\ b = true \/
  flag (_isNotLiquidityPair s') a = true /\ b = false.
Proof.
  intros H Hcode. unfold isLiquidityPair in H.
  destruct (N.eqb_spec (code_length w a) 0) as [|_]; [contradiction|].
  step_in H. destruct (flag (_isLiquidityPair s) a) eqn:Hp.
  { apply ret_ok in H as (-> & -> & _). auto. }
  step_in H. destruct (flag (_isNotLiquidityPair s) a) eqn:Hn.
  { apply ret_ok in H as (-> & -> & _). auto. }
  step_in H. step_in H. step_as H Hfound.
  destruct (reply_ok (staticcall w a sel_token0) && reply_ok (staticcall w a sel_token1)
            && (reply_length (staticcall w a sel_token0) =? 32)
            && (reply_length (staticcall w a sel_token1) =? 32)).
  - step_as Hfound Hd0. unfold abi_decode_address in Hd0.
    destruct (_ <? _); [apply ret_ok in Hd0 as (-> & -> & ->) | discriminate].
    step_as Hfound Hd1. unfold abi_decode_address in Hd1.
    destruct (_ <? _); [apply ret_ok in Hd1 as (-> & -> & ->) | discriminate].
    destruct (_ && _).
    + unfold _cacheLiquidityPair in Hfound. step_in Hfound.
      apply ret_ok in Hfound as (-> & -> & _).
      apply ret_ok in H as (-> & -> & _). left. simpl. rewrite flag_insert_eq. auto.
    + apply ret_ok in Hfound as (-> & -> & _). step_in H.
      apply ret_ok in H as (-> & -> & _). right. simpl. rewrite flag_insert_eq. auto.
  - apply ret_ok in Hfound as (-> & -> & _). step_in H.
    apply ret_ok in H as (-> & -> & _). right. simpl. rewrite flag_insert_eq. auto.
Qed.

Lemma isContract_probes_again w a s :
  code_length w a <> 0 ->
  exists b l, isContract w a s = Ok b s ((a, sel_token0) :: (a, sel_token1) :: l).
Proof.
  intros Hcode. unfold isContract, probe, mbind, M_bind, bind, ret.
  destruct (N.eqb_spec (code_length w a) 0) as [|_]; [contradiction|].
  repeat match goal with
         | |- context [if ?c then _ else _] => destruct c
         end; simpl; eauto.
Qed.

(** A taxed transfer checks the sender's balance first. *)
Lemma _handleTaxedTransfer_sender_has d w from to amount s a s' l :
  _handleTaxedTransfer d w from to amount s = Ok a s' l ->
  amount <= at_ (_balances s) from.
Proof.
  intros H. unfold _handleTaxedTransfer in H.
  step_in H. step_as H Hbal. apply N.ltb_ge in Hbal. exact Hbal.
Qed.

(** A transfer between two accounts that pay fees, neither of them the
    contract, brings the accrual of both up to date and then runs the taxed
    path on an unchanged ledger. *)
Lemma _transfer_taxed d w from to amount s s' l :
  _transfer d w from to amount s = Ok tt s' l ->
  flag (_isExcludedFromFee s) from = false ->
  flag (_isExcludedFromFee s) to = false ->
  to <> this d ->
  exists s0 l0,
    _handleTaxedTransfer d w from to amount s0 = Ok tt s' l0 /\
    (usdcReserves s0, magnifiedDividendPerShare s0, _balances s0, _isExcludedFromFee s0,
     devAddress s0, totalBurned s0)
    = (usdcReserves s, magnifiedDividendPerShare s, _balances s, _isExcludedFromFee s,
       devAddress s, totalBurned s).
Proof.
  intros H Hef Het Hto. unfold _transfer in H.
  step_as H Hfrom.
  kept (fun s => (usdcReserves s, magnifiedDividendPerShare s, _balances s,
                  _isExcludedFromFee s, devAddress s, totalBurned s)) Hfrom.
  step_as H Hto'.
  kept (fun s => (usdcReserves s, magnifiedDividendPerShare s, _balances s,
                  _isExcludedFromFee s, devAddress s, totalBurned s)) Hto'.
  rewrite K in K0. clear Hfrom Hto'.
  unfold _update in H. do 5 step_in H. cbv zeta in H.
  destruct (N.eqb_spec to (this d)) as [|_]; [contradiction|].
  injection K0 as Kr Km Kbal Kex Kdev Kb.
  rewrite Kex, Hef, Het in H. simpl in H.
  eexists _, _. split; [exact H|]. congruence.
Qed.

(** The reserve fee and the reflection fee of a transfer between two wallets
    stay in the contract's own balance. *)
Lemma transfer_between_wallets d w from to amount s s' l :
  _transfer d w from to amount s = Ok tt s' l ->
  conserved s ->
  code_length w from = 0 -> code_length w to = 0 ->
  flag (_isExcludedFromFee s) from = false ->
  flag (_isExcludedFromFee s) to = false ->
  from <> this d -> to <> this d -> devAddress s <> this d ->
  usdcReserves s' = usdcReserves s /\
  at_ (_balances s') (this d)
  = at_ (_balances s) (this d) + amount * 10 / 10000 + amount * 10 / 10000.
Proof.
  intros H Hc Hcf Hct Hef Het Hf Ht Hd.
  apply _transfer_taxed in H as (s0 & l0 & H & K); try assumption.
  injection K as Kr Km Kbal Kex Kdev Kb.
  pose proof (_handleTaxedTransfer_sender_has _ _ _ _ _ _ _ _ _ H) as Hle.
  assert (Hc0 : conserved s0) by (apply (conserved_same s); assumption).
  apply taxed_transfer_between_wallets in H as (Hr & Hheld); try assumption.
  - rewrite Hr, Hheld, Kr, Kbal. auto.
  - congruence.
  - apply (conserved_fits s0 from); assumption.
Qed.

(** ** The recipient's snapshot after a taxed transfer

    What the three facts add up to: the recipient holds the net tokens while
    his snapshot is the accumulator from before the fee of the same transfer
    was distributed, so his next accrual pays him on them. *)

(** The accrual of a wallet: the snapshot is brought up to the accumulator;
    balances, the accumulator and the other snapshots stay. *)
Lemma _updateUserDividendTracking_wallet w user s a s' l :
  _updateUserDividendTracking w user s = Ok a s' l ->
  code_length w user = 0 ->
  at_ (lastDividendPerShare s') user = magnifiedDividendPerShare s /\
  (forall other, other <> user ->
     at_ (lastDividendPerShare s') other = at_ (lastDividendPerShare s) other) /\
  (magnifiedDividendPerShare s', _balances s', _isExcludedFromFee s', devAddress s',
   totalBurned s')
  = (magnifiedDividendPerShare s, _balances s, _isExcludedFromFee s, devAddress s,
     totalBurned s).
Proof.
  intros H Hcode.
  split; [|split].
  3: { kept (fun s => (magnifiedDividendPerShare s, _balances s, _isExcludedFromFee s,
                       devAddress s, totalBurned s)) H. exact K. }
  all: unfold _updateUserDividendTracking in H;
    step_as H Hc; rewrite isContract_wallet in Hc by assumption;
    injection Hc as <- <- <-;
    step_in H; step_in H; step_in H; step_as H Hcredit;
    kept (fun s => (magnifiedDividendPerShare s, lastDividendPerShare s)) Hcredit;
    injection K as Km Kl;
    apply modify_ok in H as (-> & _); simpl; rewrite Kl.
  - apply at_insert_eq.
  - intros other Hne. apply at_insert_ne. congruence.
Qed.


Lemma _distributeDividends_ok d amount s a s' l :
  _distributeDividends d amount s = Ok a s' l ->
  magnifiedDividendPerShare s' =
    magnifiedDividendPerShare s
    + (if (amount =? 0) || (spec_circulating d s =? 0) then 0
       else amount * MAGNITUDE / spec_circulating d s) /\
  (_balances s', lastDividendPerShare s', devAddress s')
  = (_balances s, lastDividendPerShare s, devAddress s).
Proof.
  intros H. split.
  2: { kept (fun s => (_balances s, lastDividendPerShare s, devAddress s)) H. exact K. }
  unfold _distributeDividends in H.
  destruct (amount =? 0); simpl.
  { apply ret_ok in H as (_ & -> & _). lia. }
  step_as H Hcirc. unfold getCirculatingSupply, totalSupply, balanceOf in Hcirc.
  step_as Hcirc Htot. step_in Htot. apply sub_ok in Htot as (-> & ? & -> & ->).
  step_in Hcirc. apply sub_ok in Hcirc as (-> & ? & -> & ->).
  fold (spec_circulating d s) in H |- *.
  destruct (spec_circulating d s =? 0).
  { apply ret_ok in H as (_ & -> & _). lia. }
  do 7 step_in H. apply modify_ok in H as (-> & _). reflexivity.
Qed.

Lemma taxed_transfer_effect d w from to amount s s' l :
  _handleTaxedTransfer d w from to amount s = Ok tt s' l ->
  code_length w from = 0 -> code_length w to = 0 ->
  from <> this d -> to <> this d -> from <> to ->
  devAddress s <> to -> devAddress s <> this d ->
  at_ (_balances s) (this d) + amount <= MAX_UINT256 ->
  at_ (_balances s) to + amount <= MAX_UINT256 ->
  let reflectionFee := amount * 10 / 10000 in
  let netAmount := amount - amount * 5 / 10000 - amount * 10 / 10000 - amount * 10 / 10000 in
  let circulating := spec_circulating d s - amount in
  lastDividendPerShare s' = lastDividendPerShare s /\
  at_ (_balances s') to = at_ (_balances s) to + netAmount /\
  magnifiedDividendPerShare s' =
    magnifiedDividendPerShare s
    + (if (reflectionFee =? 0) || (circulating =? 0) then 0
       else reflectionFee * MAGNITUDE / circulating).
Proof.
  intros H Hcf Hct Hfthis Htthis Hft Hdevto Hdevthis Hfit Hfit'. cbv zeta.
  unfold _handleTaxedTransfer in H.
  step_in H. step_as H Hbal.
  step_as H Hdex.
  rewrite not_a_swap_between_wallets in Hdex by assumption.
  injection Hdex as <- <- <-.
  step_as H Hdev. step_as H Hrefl. step_as H Hres.
  unfold TRANSFER_DEV_FEE_BPS, TRANSFER_REFLECTION_FEE_BPS, TRANSFER_RESERVE_FEE_BPS in *.
  assert (Hamount : amount <= MAX_UINT256) by lia.
  assert (Enet : sub_wrap (sub_wrap (sub_wrap amount (amount * 5 / 10000))
                             (amount * 10 / 10000)) (amount * 10 / 10000)
                 = amount - amount * 5 / 10000 - amount * 10 / 10000 - amount * 10 / 10000).
  { unfold MAX_UINT256 in Hamount.
    repeat match goal with
      | |- context [sub_wrap ?a ?b] =>
          lazymatch a with
          | context [sub_wrap] => fail
          | _ => rewrite (sub_wrap_exact a b) by (unfold MAX_UINT256; lia)
          end
      end. reflexivity. }
  rewrite Enet in H. clear Enet.
  set (net := amount - amount * 5 / 10000 - amount * 10 / 10000 - amount * 10 / 10000) in *.
  step_as H Hin. apply super_transfer_ok in Hin as (_ & _ & _ & ->).
  step_as H Hdist.
  apply _distributeDividends_ok in Hdist as [Hm K]. injection K as Kbal Kl Kdev.
  simpl in Hm, Kbal, Kl, Kdev.
  assert (Hcirc : spec_circulating d
                    (set_balances
                       (<[this d:=add_wrap
                                    (at_ (<[from:=at_ (_balances s) from - amount]> (_balances s))
                                       (this d)) amount]>
                          (<[from:=at_ (_balances s) from - amount]> (_balances s))) s)
                  = spec_circulating d s - amount).
  { unfold spec_circulating. simpl.
    rewrite at_insert_eq, at_insert_ne by assumption.
    rewrite add_wrap_exact by assumption. lia. }
  rewrite Hcirc in Hm. clear Hcirc.
  assert (Hto : at_ (_balances s0) to = at_ (_balances s) to).
  { rewrite Kbal. rewrite !at_insert_ne by congruence. reflexivity. }
  clear Kbal.
  step_as H Hnet.
  assert (Hnet' : at_ (_balances s1) to = at_ (_balances s) to + net
                  /\ devAddress s1 = devAddress s
                  /\ lastDividendPerShare s1 = lastDividendPerShare s
                  /\ magnifiedDividendPerShare s1 = magnifiedDividendPerShare s0).
  { destruct (N.eqb_spec net 0) as [E|E]; simpl in Hnet.
    - apply ret_ok in Hnet as (_ & -> & _). rewrite E, Hto. repeat split; auto. lia.
    - apply super_transfer_ok in Hnet as (_ & _ & _ & ->). simpl.
      rewrite at_insert_eq, at_insert_ne, Hto by congruence.
      repeat split; auto. apply add_wrap_exact. subst net. lia. }
  destruct Hnet' as (Hto1 & Hdev1 & Hl1 & Hm1). clear Hnet.
  destruct (N.eqb_spec (amount * 5 / 10000) 0) as [E|E]; simpl in H.
  - apply ret_ok in H as (_ & -> & _). repeat split; congruence.
  - step_in H. apply super_transfer_ok in H as (_ & _ & _ & ->). simpl.
    rewrite !at_insert_ne by congruence.
    repeat split; congruence.
Qed.

Lemma taxed_transfer_snapshot d w from to amount s s' l :
  _transfer d w from to amount s = Ok tt s' l ->
  code_length w from = 0 -> code_length w to = 0 ->
  flag (_isExcludedFromFee s) from = false ->
  flag (_isExcludedFromFee s) to = false ->
  from <> this d -> to <> this d -> from <> to ->
  devAddress s <> to -> devAddress s <> this d ->
  conserved s ->
  let reflectionFee := amount * 10 / 10000 in
  let netAmount := amount - amount * 5 / 10000 - amount * 10 / 10000 - amount * 10 / 10000 in
  let circulating := spec_circulating d s - amount in
  at_ (lastDividendPerShare s') to = magnifiedDividendPerShare s /\
  at_ (_balances s') to = at_ (_balances s) to + netAmount /\
  magnifiedDividendPerShare s' =
    magnifiedDividendPerShare s
    + (if (reflectionFee =? 0) || (circulating =? 0) then 0
       else reflectionFee * MAGNITUDE / circulating).
Proof.
  intros H Hcf Hct Hef Het Hfthis Htthis Hft Hdevto Hdevthis Hcons.
  unfold _transfer in H.
  step_as H Hfrom. step_as H Hto. unfold _update in H.
  step_as H Hf0. step_as H Ht0. step_as H Ha0.
  rewrite Hf0 in Hfrom. rewrite Ht0 in Hto. simpl in Hfrom, Hto.
  step_as Hfrom Hc. rewrite isContract_wallet in Hc by assumption.
  injection Hc as <- <- <-. simpl in Hfrom.
  apply _updateUserDividendTracking_wallet in Hfrom as (_ & _ & K); [|assumption].
  injection K as Km Kbal Kex Kdev Kb.
  step_as Hto Hc. rewrite isContract_wallet in Hc by assumption.
  injection Hc as <- <- <-. simpl in Hto.
  apply _updateUserDividendTracking_wallet in Hto as (Hsnap & _ & K); [|assumption].
  injection K as Km' Kbal' Kex' Kdev' Kb'.
  step_in H. step_in H. cbv zeta in H.
  destruct (N.eqb_spec to (this d)) as [|_]; [contradiction|].
  rewrite Kex', Kex, Hef, Het in H. simpl in H.
  pose proof (_handleTaxedTransfer_sender_has _ _ _ _ _ _ _ _ _ H) as Hle.
  rewrite Kbal', Kbal in Hle.
  pose proof (conserved_fits s from (this d) amount Hcons Hfthis Hle) as Hfit.
  pose proof (conserved_fits s from to amount Hcons Hft Hle) as Hfit'.
  apply taxed_transfer_effect in H as (Hl & Hbal & Hm); try assumption;
    try (rewrite ?Kdev', ?Kdev, ?Kbal', ?Kbal; assumption).
  cbv zeta.
  unfold spec_circulating in *. rewrite Kbal', Kbal, Kb', Kb, Km', Km in *.
  rewrite Hl, Hsnap. auto.
Qed.

(** * The claims *)

(** C1. For every buy the price is the base price (one unit of backing per
    unit of token) when nothing circulates outside the contract or the
    reserve before the deposit is zero, and otherwise
    [(reserveBeforeDeposit * 1e6 / circulatingOutsideContract) * 10010 / 10000];
    the tokens issued are [depositAmount * 1e6 / price] capped at the
    contract's own token balance.  The first part is the pricing function of
    both contracts, the second every accepted [buy], whose issue is what
    [tokensSold] grows by. *)
Theorem C1_buy_price_and_tokens_issued (d : Deploy) (w : World) :
  (forall deposit reserveBeforeDeposit s t s' l,
      _getTokensForUsdc d deposit reserveBeforeDeposit s = Ok t s' l ->
      t = spec_tokens_issued deposit
            (spec_buy_price (spec_circulating d s) reserveBeforeDeposit)
            (at_ (_balances s) (this d)))
  /\
  (forall sender value s s' l,
      buy d w sender value s = Ok tt s' l ->
      tokensSold s' =
        tokensSold s
        + spec_tokens_issued (deposit_of d value)
            (spec_buy_price (spec_circulating d s) (usdcReserves s))
            (at_ (_balances s) (this d))).
Proof.
  split.
  - intros deposit r s t s' l H.
    apply _getTokensForUsdc_ok in H as (_ & _ & ->). reflexivity.
  - intros sender value s s' l H.
    apply buy_ok in H as (_ & _ & _ & _ & _ & Hs). exact Hs.
Qed.

Lemma C1_witness :
  1000000 = spec_tokens_issued 1000000 (spec_buy_price 0 0) TOTAL_SUPPLY /\
  997003 = spec_tokens_issued 1000000 (spec_buy_price 998000 1000000) 99999999999002000 /\
  spec_buy_price 998000 1000000 = 1003006 /\
  tokensSold (after_first_buy usd) = 0 + 1000000 /\
  tokensSold (after_first_buy eur) = 0 + 1000000.
Proof.
  split; [|split; [|split; [|split]]].
  - refine (proj1 (C1_buy_price_and_tokens_issued usd wallets)
              1000000 0 (genesis usd) 1000000 (genesis usd) [] _).
    vm_compute. reflexivity.
  - refine (proj1 (C1_buy_price_and_tokens_issued usd wallets)
              1000000 1000000 (after_first_buy usd) 997003 (after_first_buy usd) [] _).
    vm_compute. reflexivity.
  - reflexivity.
  - refine (proj2 (C1_buy_price_and_tokens_issued usd wallets)
              alice (1000000 * 1000000000000) (genesis usd) (after_first_buy usd) [] _).
    vm_compute. reflexivity.
  - refine (proj2 (C1_buy_price_and_tokens_issued eur wallets)
              alice 1000000 (genesis eur) (after_first_buy eur) [] _).
    vm_compute. reflexivity.
Defined.

(** C2. For every refund of a gross token amount: tokensForRefund is the
    gross minus the dev, reflection, burn and reserve fee shares;
    currentCirculatingSupply is (totalSupply - contractHeldBalance) + gross;
    effectiveBacking is reserveBalance * 999 / 1000; the backing paid out is
    tokensForRefund * effectiveBacking / currentCirculatingSupply; and the
    refund is rejected when the payout exceeds the reserve balance or when
    currentCirculatingSupply is zero.  [s] is the storage [_handleRefund]
    starts from, the refunded tokens already in the contract's balance. *)
Theorem C2_refund_payout (d : Deploy) (w : World) (sender gross : N) (s : State) :
  let burned := totalBurned s in
  let contractHeldBalance := at_ (_balances s) (this d) in
  let reserveBalance := usdcReserves s in
  let totalSupply := TOTAL_SUPPLY - burned in
  let tokensForRefund :=
    gross - spec_refund_dev_fee gross - spec_refund_reflection_fee gross
    - spec_refund_burn_fee burned gross - spec_refund_reserve_fee burned gross in
  let currentCirculatingSupply := (totalSupply - contractHeldBalance) + gross in
  let effectiveBacking := reserveBalance * 999 / 1000 in
  let payout := tokensForRefund * effectiveBacking / currentCirculatingSupply in
  (forall s' l,
      _handleRefund d w sender gross s = Ok tt s' l ->
      burned + contractHeldBalance <= TOTAL_SUPPLY /\
      usdcReserves s' = reserveBalance - payout /\
      payout_ok w sender match backing d with
                         | NativeUSDC => payout * 1000000000000
                         | TokenEURC _ => payout
                         end = true)
  /\
  (reserveBalance < payout \/ currentCirculatingSupply = 0 ->
   exists e, _handleRefund d w sender gross s = Revert e).
Proof.
  cbv zeta. split.
  - intros s' l H.
    apply _handleRefund_ok in H as (_ & _ & _ & Hb & _ & _ & Hr & _ & Hp).
    split; [exact Hb|]. split; [exact Hr | exact Hp].
  - intros Hbad.
    destruct (_handleRefund d w sender gross s) as [[] s' l|e] eqn:H; [|eauto].
    apply _handleRefund_ok in H as (_ & _ & _ & _ & Hccs & Hpay & _).
    unfold spec_payout, spec_tokensForRefund, spec_currentCirculatingSupply,
      spec_effectiveBacking in *.
    destruct Hbad as [Hlt|Hz]; [lia | contradiction].
Qed.

Lemma C2_witness :
  usdcReserves (after_refund usd) = 1000000 - 498750 * 999000 / 998000 /\
  usdcReserves (after_refund eur) = 1000000 - 498750 * 999000 / 998000 /\
  exists e, _handleRefund usd wallets alice 0 (genesis usd) = Revert e.
Proof.
  split; [|split].
  - refine (proj1 (proj2 (proj1 (C2_refund_payout usd wallets alice 500000 (refund_entry usd))
                            (after_refund usd) [] _))).
    vm_compute. reflexivity.
  - refine (proj1 (proj2 (proj1 (C2_refund_payout eur wallets alice 500000 (refund_entry eur))
                            (after_refund eur) [] _))).
    vm_compute. reflexivity.
  - refine (proj2 (C2_refund_payout usd wallets alice 0 (genesis usd)) _).
    right. vm_compute. reflexivity.
Defined.

(** C3, as the specification words it, fails on the first purchase.  With a
    deposit of 1,000,000 units into a fresh contract the contract's own
    balance goes down by 998,000 and not by 1,000,000, and
    magnifiedDividendPerShare does not move, where the claim has it grow by
    [1,000 * MAGNITUDE / circulatingOutsideContractAfterBuy]. *)
Lemma C3_counterexample :
  let s := genesis usd in
  let s' := after_first_buy usd in
  call usd wallets alice (CallBuy (1000000 * 1000000000000)) s = Ok tt s' [] /\
  usdcReserves s = 0 /\
  spec_circulating usd s = 0 /\
  at_ (_balances s) (this usd) - at_ (_balances s') (this usd) <> 1000000 /\
  magnifiedDividendPerShare s' - magnifiedDividendPerShare s
  <> 1000 * MAGNITUDE / spec_circulating usd s'.
Proof. vm_compute. repeat split; discriminate. Qed.

(** C3, amended.  The first-ever buy with a deposit of 1,000,000
    six-decimal units (nothing circulating, nothing reserved) purchases
    exactly 1,000,000 tokens at the 1:1 base price, pays the dev address 500
    and the buyer 997,500, and leaves the reserve at 1,000,000; the
    contract's own balance goes down by 998,000, the reserve fee of 1,000 and
    the reflection fee of 1,000 staying in it; and magnifiedDividendPerShare
    is unchanged, as it is after every buy made while nothing circulates
    outside the contract: the distribution runs before the tokens leave and
    does nothing when the circulating supply is zero. *)
Theorem C3_first_buy :
  (forall d w sender value s s' l,
      buy d w sender value s = Ok tt s' l ->
      spec_circulating d s = 0 ->
      magnifiedDividendPerShare s' = magnifiedDividendPerShare s /\
      totalDividendsDistributed s' = totalDividendsDistributed s)
  /\
  (forall d value,
      d = usd /\ value = 1000000 * 1000000000000 \/ d = eur /\ value = 1000000 ->
      let s := genesis d in
      let s' := after_first_buy d in
      buy d wallets alice value s = Ok tt s' [] /\
      usdcReserves s = 0 /\
      spec_circulating d s = 0 /\
      tokensSold s' = 1000000 /\
      at_ (_balances s') (devAddress s) = 500 /\
      at_ (_balances s') alice = 997500 /\
      usdcReserves s' = 1000000 /\
      at_ (_balances s) (this d) - at_ (_balances s') (this d) = 998000 /\
      magnifiedDividendPerShare s' = magnifiedDividendPerShare s).
Proof.
  split.
  - intros d w sender value s s' l H Hc.
    eapply buy_nothing_circulates; eassumption.
  - intros d value [[-> ->]|[-> ->]]; vm_compute; repeat split; reflexivity.
Qed.

Lemma C3_witness :
  magnifiedDividendPerShare (after_first_buy usd) = magnifiedDividendPerShare (genesis usd) /\
  at_ (_balances (after_first_buy usd)) alice = 997500 /\
  at_ (_balances (after_first_buy eur)) alice = 997500.
Proof.
  split; [|split].
  - refine (proj1 (proj1 C3_first_buy usd wallets alice (1000000 * 1000000000000)
                     (genesis usd) (after_first_buy usd) [] _ _)).
    + vm_compute. reflexivity.
    + vm_compute. reflexivity.
  - refine (proj1 (proj2 (proj2 (proj2 (proj2 (proj2
              (proj2 C3_first_buy usd (1000000 * 1000000000000) _))))))).
    left. split; reflexivity.
  - refine (proj1 (proj2 (proj2 (proj2 (proj2 (proj2
              (proj2 C3_first_buy eur 1000000 _))))))).
    right. split; reflexivity.
Defined.

(** C4. In every reachable state totalBurned <= burnLimit (20% of
    totalMinted).  A refund whose burn fee exceeds the remaining headroom has
    the burn capped to the headroom, and such a refund is accepted; a refund
    whose burn fee fits burns it whole; and once the limit is reached a
    refund burns nothing while the reserve fee takes the whole reallocated
    share, 150 instead of 75 per 100000, as the payout shows. *)
Theorem C4_burn_bound :
  (forall d s, reachable d s -> totalBurned s <= BURNING_LIMIT)
  /\
  (forall d w sender gross s s' l,
      _handleRefund d w sender gross s = Ok tt s' l ->
      let headroom := BURNING_LIMIT - totalBurned s in
      let burnFee := gross * 75 / 100000 in
      (totalBurned s < BURNING_LIMIT -> headroom < burnFee ->
       totalBurned s' = BURNING_LIMIT)
      /\
      (totalBurned s < BURNING_LIMIT -> burnFee <= headroom ->
       totalBurned s' = totalBurned s + burnFee)
      /\
      (BURNING_LIMIT <= totalBurned s ->
       totalBurned s' = totalBurned s /\
       usdcReserves s' =
         usdcReserves s
         - (gross - gross * 5 / 10000 - gross * 5 / 10000 - 0 - gross * 150 / 100000)
           * (usdcReserves s * 999 / 1000)
           / (TOTAL_SUPPLY - totalBurned s - at_ (_balances s) (this d) + gross)))
  /\
  (forall d, d = usd \/ d = eur ->
      exists s' l,
        _handleRefund d wallets alice 500000 (near_limit d) = Ok tt s' l /\
        BURNING_LIMIT - totalBurned (near_limit d) < 500000 * 75 / 100000 /\
        totalBurned s' = BURNING_LIMIT).
Proof.
  split; [|split].
  - intros d s Hs. induction Hs as [deployer o dev s l H | w sender c s Hs IH].
    + kept totalBurned H. rewrite K. unfold BURNING_LIMIT, TOTAL_SUPPLY. simpl. lia.
    + exact (execute_rel d w burn_bounded sender c s IH).
  - intros d w sender gross s s' l H. cbv zeta.
    apply _handleRefund_ok in H as (_ & _ & _ & _ & _ & _ & Hr & Hb & _).
    unfold spec_payout, spec_tokensForRefund, spec_currentCirculatingSupply,
      spec_effectiveBacking, spec_refund_dev_fee, spec_refund_reflection_fee,
      spec_refund_burn_fee, spec_refund_reserve_fee in *.
    destruct (N.ltb_spec (totalBurned s) BURNING_LIMIT) as [Hlt|Hge].
    + repeat split; intros; lia.
    + repeat split; intros; lia.
  - intros d Hd.
    exists (state_of (_handleRefund d wallets alice 500000 (near_limit d)) (near_limit d)).
    exists [].
    destruct Hd as [-> | ->]; vm_compute; repeat split; reflexivity.
Qed.

Lemma C4_witness :
  totalBurned (after_first_buy usd) <= BURNING_LIMIT /\
  totalBurned (after_near_limit usd) = BURNING_LIMIT /\
  totalBurned (after_refund usd) = 0 + 500000 * 75 / 100000 /\
  totalBurned (after_at_limit usd) = BURNING_LIMIT /\
  exists s' l, _handleRefund usd wallets alice 500000 (near_limit usd) = Ok tt s' l.
Proof.
  split; [|split; [|split; [|split]]].
  - apply (proj1 C4_burn_bound usd).
    unfold after_first_buy. apply reachable_call, genesis_reachable.
    eexists. vm_compute. reflexivity.
  - refine (proj1 (proj1 (proj2 C4_burn_bound) usd wallets alice 500000
                     (near_limit usd) (after_near_limit usd) [] _) _ _).
    + vm_compute. reflexivity.
    + vm_compute. reflexivity.
    + vm_compute. reflexivity.
  - refine (proj1 (proj2 (proj1 (proj2 C4_burn_bound) usd wallets alice 500000
                            (refund_entry usd) (after_refund usd) [] _)) _ _).
    + vm_compute. reflexivity.
    + vm_compute. reflexivity.
    + vm_compute. discriminate.
  - refine (proj1 (proj2 (proj2 (proj1 (proj2 C4_burn_bound) usd wallets alice 500000
                                   (at_limit usd) (after_at_limit usd) [] _)) _)).
    + vm_compute. reflexivity.
    + vm_compute. discriminate.
  - destruct (proj2 (proj2 C4_burn_bound) usd (or_introl eq_refl)) as (s' & l & H & _).
    exists s', l. exact H.
Defined.

(** C5 on the code.  Alice holds 997,500 units and sends bob, who holds
    nothing, 400,000.  The accrual of both runs first and the reflection fee
    of 400 is distributed before bob is credited his 399,000, as the claim
    says; but bob's snapshot [lastDividendPerShare] is the one taken before
    the distribution, so the view already shows him 266 units of dividends
    out of that very fee, earned on tokens he did not hold when it was
    distributed, and he can claim them.  Together with alice's 399 the
    holders are owed more than the 400 that were distributed.  The snapshot
    is stale after every taxed transfer between two wallets, not only this
    one: that is [taxed_transfer_snapshot]. *)
Theorem C5_recipient_earns_on_the_transfer_that_paid_him :
  let s := after_first_buy usd in
  let s' := after_transfer usd in
  call usd wallets alice (CallTransfer bob 400000) s = Ok tt s' [] /\
  at_ (_balances s) bob = 0 /\
  pendingDividends wallets bob s = Ok 0 s [] /\
  at_ (_balances s') bob = 399000 /\
  totalDividendsDistributed s' = totalDividendsDistributed s + 400 /\
  at_ (lastDividendPerShare s') bob = magnifiedDividendPerShare s /\
  magnifiedDividendPerShare s < magnifiedDividendPerShare s' /\
  pendingDividends wallets bob s' = Ok 266 s' [] /\
  pendingDividends wallets alice s' = Ok 399 s' [] /\
  at_ (_balances (execute usd wallets bob CallClaimDividends s')) bob = 399000 + 266.
Proof. vm_compute. repeat split; reflexivity. Qed.

(** C6. Every rejected operation leaves the state entirely unchanged.  A buy
    whose deposit is strictly below the minimum of 0.1 unit (100000 in six
    decimals) is rejected, and so is a refund of fewer tokens than that,
    whether sent with [transfer] or [transferFrom]; neither changes the
    state.  A refund whose computed payout exceeds the reserve balance is
    rejected too: stated from the other side, every refund that is accepted
    has a payout within the reserve. *)
Theorem C6_rejected_operations_change_nothing
    (d : Deploy) (w : World) (sender : address) (s : State) :
  (forall c e, call d w sender c s = Revert e -> execute d w sender c s = s)
  /\
  (forall value,
      deposit_of d value < MINIMUM_PURCHASE_USDC ->
      (exists e, call d w sender (CallBuy value) s = Revert e) /\
      execute d w sender (CallBuy value) s = s)
  /\
  (forall amount,
      amount < MINIMUM_PURCHASE_USDC ->
      (exists e, call d w sender (CallTransfer (this d) amount) s = Revert e) /\
      execute d w sender (CallTransfer (this d) amount) s = s)
  /\
  (forall from amount,
      amount < MINIMUM_PURCHASE_USDC ->
      (exists e, call d w sender (CallTransferFrom from (this d) amount) s = Revert e) /\
      execute d w sender (CallTransferFrom from (this d) amount) s = s)
  /\
  (forall gross s' l,
      _handleRefund d w sender gross s = Ok tt s' l ->
      spec_payout (totalBurned s) (at_ (_balances s) (this d)) (usdcReserves s) gross
      <= usdcReserves s).
Proof.
  assert (Hrej : forall c, (exists e, call d w sender c s = Revert e) ->
                           (exists e, call d w sender c s = Revert e) /\
                           execute d w sender c s = s).
  { intros c [e He]. split; [eauto | eapply execute_reverted; eassumption]. }
  split; [|split; [|split; [|split]]].
  - intros c e H. eapply execute_reverted; eassumption.
  - intros value Hlt. apply Hrej. simpl. apply below_minimum_buy_reverts. assumption.
  - intros amount Hlt. apply Hrej. simpl. unfold transfer.
    apply below_minimum_refund_reverts. assumption.
  - intros from amount Hlt. apply Hrej. simpl.
    destruct (transferFrom d w sender from (this d) amount s) as [[] s' l|e] eqn:H; [|eauto].
    apply transferFrom_ok in H as (s0 & l1 & l2 & _ & _ & _ & _ & H).
    destruct (below_minimum_refund_reverts d w from amount s0 Hlt) as [e He].
    congruence.
  - intros gross s' l H.
    apply _handleRefund_ok in H as (_ & _ & _ & _ & _ & Hpay & _). exact Hpay.
Qed.

Lemma C6_witness :
  execute usd wallets alice (CallBuy (99999 * 1000000000000)) (genesis usd) = genesis usd /\
  execute eur wallets alice (CallBuy 99999) (genesis eur) = genesis eur /\
  execute usd wallets alice (CallTransfer 1000 99999) (after_first_buy usd)
    = after_first_buy usd /\
  execute usd wallets bob (CallTransferFrom alice 1000 99999) (after_first_buy usd)
    = after_first_buy usd /\
  execute usd wallets alice CallClaimDividends (set_status ENTERED (genesis usd))
    = set_status ENTERED (genesis usd) /\
  498750 * 999000 / 998000 <= 1000000.
Proof.
  split; [|split; [|split; [|split; [|split]]]].
  - refine (proj2 (proj1 (proj2 (C6_rejected_operations_change_nothing
                                   usd wallets alice (genesis usd)))
                     (99999 * 1000000000000) _)).
    vm_compute. reflexivity.
  - refine (proj2 (proj1 (proj2 (C6_rejected_operations_change_nothing
                                   eur wallets alice (genesis eur)))
                     99999 _)).
    vm_compute. reflexivity.
  - refine (proj2 (proj1 (proj2 (proj2 (C6_rejected_operations_change_nothing
                                          usd wallets alice (after_first_buy usd))))
                     99999 _)).
    vm_compute. reflexivity.
  - refine (proj2 (proj1 (proj2 (proj2 (proj2 (C6_rejected_operations_change_nothing
                                                 usd wallets bob (after_first_buy usd)))))
                     alice 99999 _)).
    vm_compute. reflexivity.
  - refine (proj1 (C6_rejected_operations_change_nothing
                     usd wallets alice (set_status ENTERED (genesis usd)))
              CallClaimDividends ReentrantCall _).
    vm_compute. reflexivity.
  - refine (proj2 (proj2 (proj2 (proj2 (C6_rejected_operations_change_nothing
                                          usd wallets alice (refund_entry usd)))))
              500000 (after_refund usd) [] _).
    vm_compute. reflexivity.
Defined.

(** C7. magnifiedDividendPerShare never decreases: whatever the
    transaction (buy, refund, transfer, claim or any other entry point,
    accepted or reverted), its value afterwards is at least its value
    before. *)
Theorem C7_magnifiedDividendPerShare_never_decreases
    (d : Deploy) (w : World) (sender : address) (c : Call) (s : State) :
  magnifiedDividendPerShare s <= magnifiedDividendPerShare (execute d w sender c s).
Proof. apply (execute_rel d w accumulator_grows). Qed.

(** C8, as the specification words it, fails.  After alice's first transfer
    to the pair the address is classified, as a contract and as a trading
    pair; her second transfer still sends it six probes. *)
Lemma C8_counterexample :
  let s := after_swap usd in
  flag (_isLiquidityPair s) pair = true /\
  (exists l, isContract market pair s = Ok true s l) /\
  probes_in (call usd market alice (CallTransfer pair 200000) s)
  = [(pair, sel_token0); (pair, sel_token1); (pair, sel_token0); (pair, sel_token1);
     (pair, sel_token0); (pair, sel_token1)].
Proof.
  vm_compute. split; [reflexivity|]. split; [|reflexivity].
  eexists. reflexivity.
Qed.

(** C8, amended.  The trading-pair sub-classification is write-once per
    address: a call of [isLiquidityPair] on an address with code leaves it
    cached as a pair or as not a pair; once it is cached, [isLiquidityPair]
    answers from the cache, issues no probe and writes nothing; and no
    transaction clears an entry of either cache.  The broad classification is
    not cached: [isContract] sends an address with code its [token0()] and
    [token1()] probes at every call, whatever the storage holds. *)
Theorem C8_pair_cache_write_once (d : Deploy) (w : World) (a : address) (s : State) :
  (forall b s' l,
      isLiquidityPair d w a s = Ok b s' l ->
      code_length w a <> 0 ->
      flag (_isLiquidityPair s') a = true /\ b = true \/
      flag (_isNotLiquidityPair s') a = true /\ b = false)
  /\
  (flag (_isLiquidityPair s) a = true \/ flag (_isNotLiquidityPair s) a = true ->
   isLiquidityPair d w a s
   = Ok (if code_length w a =? 0 then false else flag (_isLiquidityPair s) a) s [])
  /\
  (forall w' sender c,
      (flag (_isLiquidityPair s) a = true ->
       flag (_isLiquidityPair (execute d w' sender c s)) a = true) /\
      (flag (_isNotLiquidityPair s) a = true ->
       flag (_isNotLiquidityPair (execute d w' sender c s)) a = true))
  /\
  (code_length w a <> 0 ->
   exists b l, isContract w a s = Ok b s ((a, sel_token0) :: (a, sel_token1) :: l)).
Proof.
  split; [|split; [|split]].
  - intros b s' l H Hcode. eapply isLiquidityPair_classifies; eassumption.
  - apply isLiquidityPair_cached.
  - intros w' sender c. exact (execute_rel d w' cache_kept sender c s a).
  - apply isContract_probes_again.
Qed.

Lemma C8_witness :
  isLiquidityPair usd market pair (after_swap usd) = Ok true (after_swap usd) [] /\
  flag (_isLiquidityPair (execute usd market alice (CallTransfer pair 200000)
                            (after_swap usd))) pair = true /\
  (flag (_isLiquidityPair
           (state_of (isLiquidityPair usd market pair (after_first_buy usd))
              (after_first_buy usd))) pair = true /\ true = true \/
   flag (_isNotLiquidityPair
           (state_of (isLiquidityPair usd market pair (after_first_buy usd))
              (after_first_buy usd))) pair = true /\ true = false) /\
  exists b l,
    isContract market pair (after_swap usd)
    = Ok b (after_swap usd) ((pair, sel_token0) :: (pair, sel_token1) :: l).
Proof.
  split; [|split; [|split]].
  - refine (proj1 (proj2 (C8_pair_cache_write_once usd market pair (after_swap usd))) _).
    left. vm_compute. reflexivity.
  - refine (proj1 (proj1 (proj2 (proj2 (C8_pair_cache_write_once usd market pair
                                          (after_swap usd))))
                     market alice (CallTransfer pair 200000)) _).
    vm_compute. reflexivity.
  - refine (proj1 (C8_pair_cache_write_once usd market pair (after_first_buy usd))
              true
              (state_of (isLiquidityPair usd market pair (after_first_buy usd))
                 (after_first_buy usd))
              [(pair, sel_token0); (pair, sel_token1)] _ _).
    + vm_compute. reflexivity.
    + vm_compute. discriminate.
  - refine (proj2 (proj2 (proj2 (C8_pair_cache_write_once usd market pair
                                   (after_swap usd)))) _).
    vm_compute. discriminate.
Defined.

(** C9. In every reachable state the backing reserve is modified only by
    buy, which adds exactly the deposit, and by refund, which takes away
    exactly the payout; every other accepted call, taxed transfers and
    dividend claims among them, leaves it as it was.  In particular the
    reserve fee of an ordinary transfer between two wallets stays in the
    contract's own token balance, next to the reflection fee, and the backing
    reserve does not move. *)
Theorem C9_reserve_moves_only_on_buy_and_refund (d : Deploy) (w : World) :
  (forall sender c s s' l,
      reachable d s ->
      call d w sender c s = Ok tt s' l ->
      match c with
      | CallBuy value => usdcReserves s' = usdcReserves s + deposit_of d value
      | CallTransfer to amount => reserve_after_transfer d sender to amount s s'
      | CallTransferFrom from to amount => reserve_after_transfer d from to amount s s'
      | _ => usdcReserves s' = usdcReserves s
      end)
  /\
  (forall from to amount s s' l,
      reachable d s ->
      call d w from (CallTransfer to amount) s = Ok tt s' l ->
      code_length w from = 0 -> code_length w to = 0 ->
      flag (_isExcludedFromFee s) from = false ->
      flag (_isExcludedFromFee s) to = false ->
      from <> this d -> to <> this d -> devAddress s <> this d ->
      usdcReserves s' = usdcReserves s /\
      at_ (_balances s') (this d)
      = at_ (_balances s) (this d) + amount * 10 / 10000 + amount * 10 / 10000).
Proof.
  split.
  2: { intros from to amount s s' l Hs H. simpl in H. unfold transfer in H.
       apply reachable_conserved in Hs.
       eapply transfer_between_wallets; eassumption. }
  assert (Htr : forall from to amount s s' l,
             conserved s ->
             _transfer d w from to amount s = Ok tt s' l ->
             reserve_after_transfer d from to amount s s').
  { intros from to amount s s' l Hc H. unfold reserve_after_transfer.
    destruct (N.eqb_spec to (this d)) as [->|Hne].
    - intros Hfrom.
      apply refund_tx_ok in H as (_ & Hpay & Hres); auto.
    - apply (_transfer_rel_elsewhere d w (keeps usdcReserves) from to amount Hne) in H.
      exact H. }
  intros sender c s s' l Hs H. apply reachable_conserved in Hs.
  destruct c; simpl in H.
  - apply buy_ok in H as (_ & _ & _ & Hr & _). exact Hr.
  - apply Htr in H; assumption.
  - apply transferFrom_ok in H as (s0 & l1 & l2 & Kr & Kb & Kbal & _ & H).
    apply Htr in H; [|apply (conserved_same s); assumption].
    unfold reserve_after_transfer in *.
    rewrite Kr, Kb, Kbal in H. exact H.
  - apply (approve_rel (keeps usdcReserves)) in H. exact H.
  - apply (increaseAllowance_rel (keeps usdcReserves)) in H. exact H.
  - apply (decreaseAllowance_rel (keeps usdcReserves)) in H. exact H.
  - apply (permit_rel (keeps usdcReserves)) in H. exact H.
  - apply (claimDividends_rel d w (keeps usdcReserves)) in H. exact H.
  - apply (setDevAddress_rel (keeps usdcReserves)) in H. exact H.
  - apply (excludeFromFee_rel (keeps usdcReserves)) in H. exact H.
  - apply (transferOwnership_rel (keeps usdcReserves)) in H. exact H.
  - apply (acceptOwnership_rel (keeps usdcReserves)) in H. exact H.
  - apply (renounceOwnership_rel (keeps usdcReserves)) in H. exact H.
Qed.

Lemma C9_witness :
  usdcReserves (after_first_buy usd) = 0 + 1000000 /\
  (498750 * 999000 / 998000 <= 1000000 /\
   usdcReserves (after_refund_tx usd) = 1000000 - 498750 * 999000 / 998000) /\
  usdcReserves (after_transfer usd) = usdcReserves (after_first_buy usd) /\
  usdcReserves (after_claim eur) = usdcReserves (after_transfer eur) /\
  at_ (_balances (after_transfer usd)) 1000
  = at_ (_balances (after_first_buy usd)) 1000 + 400 + 400.
Proof.
  assert (Hgenesis : forall d, d = usd \/ d = eur -> reachable d (genesis d)).
  { intros d Hd. apply genesis_reachable. eexists.
    destruct Hd as [-> | ->]; vm_compute; reflexivity. }
  assert (Hbought : forall d, d = usd \/ d = eur -> reachable d (after_first_buy d)).
  { intros d Hd. unfold after_first_buy. apply reachable_call, Hgenesis, Hd. }
  split; [|split; [|split; [|split]]].
  - refine (proj1 (C9_reserve_moves_only_on_buy_and_refund usd wallets)
              alice (CallBuy (1000000 * 1000000000000)) (genesis usd)
              (after_first_buy usd) [] (Hgenesis usd (or_introl eq_refl)) _).
    vm_compute. reflexivity.
  - refine (proj1 (C9_reserve_moves_only_on_buy_and_refund usd wallets)
              alice (CallTransfer 1000 500000) (after_first_buy usd)
              (after_refund_tx usd) [] (Hbought usd (or_introl eq_refl)) _ _).
    + vm_compute. reflexivity.
    + discriminate.
  - refine (proj1 (C9_reserve_moves_only_on_buy_and_refund usd wallets)
              alice (CallTransfer bob 400000) (after_first_buy usd)
              (after_transfer usd) [] (Hbought usd (or_introl eq_refl)) _).
    vm_compute. reflexivity.
  - refine (proj1 (C9_reserve_moves_only_on_buy_and_refund eur wallets)
              alice CallClaimDividends (after_transfer eur) (after_claim eur) [] _ _).
    + unfold after_transfer. apply reachable_call, Hbought. right. reflexivity.
    + vm_compute. reflexivity.
  - refine (proj2 (proj2 (C9_reserve_moves_only_on_buy_and_refund usd wallets)
                     alice bob 400000 (after_first_buy usd) (after_transfer usd) []
                     (Hbought usd (or_introl eq_refl)) _ _ _ _ _ _ _ _)).
    + vm_compute. reflexivity.
    + reflexivity.
    + reflexivity.
    + vm_compute. reflexivity.
    + vm_compute. reflexivity.
    + discriminate.
    + discriminate.
    + vm_compute. discriminate.
Defined.

(** C10. For every address classified as an automated contract,
    claimDividends returns successfully without transferring anything or
    changing any state, and the pendingDividends view returns 0 for it,
    whatever amount [accumulatedDividends] stores.  No call is in flight
    when a transaction starts, which is [_status s = NOT_ENTERED]. *)
Theorem C10_contracts_claim_nothing
    (d : Deploy) (w : World) (user : address) (s : State) (probes : list Probe) :
  isContract w user s = Ok true s probes ->
  _status s = NOT_ENTERED ->
  claimDividends d w user s = Ok tt s probes /\
  execute d w user CallClaimDividends s = s /\
  pendingDividends w user s = Ok 0 s probes.
Proof.
  intros Hc Hst.
  destruct (claimDividends_contract d w user s probes Hc Hst) as [Hclaim Hview].
  split; [exact Hclaim|]. split; [|exact Hview].
  unfold execute. simpl. rewrite Hclaim. reflexivity.
Qed.

Lemma C10_witness :
  let s := set_accumulatedDividends (<[pair := 12345]> ∅) (after_first_buy usd) in
  claimDividends usd market pair s = Ok tt s [(pair, sel_token0); (pair, sel_token1)] /\
  execute usd market pair CallClaimDividends s = s /\
  pendingDividends market pair s = Ok 0 s [(pair, sel_token0); (pair, sel_token1)].
Proof.
  cbv zeta.
  apply (C10_contracts_claim_nothing usd market pair
           (set_accumulatedDividends (<[pair := 12345]> ∅) (after_first_buy usd))).
  - vm_compute. reflexivity.
  - vm_compute. reflexivity.
Defined.

(** * Further properties of the contracts

    What follows covers the parts of the two contracts that the claims above
    do not reach: the invariants of the ledger, the estimates against the
    transactions they estimate, the dividend bookkeeping, the fee-free
    transfer paths, the owner functions and the allowances. *)

(** Unfold a transaction down to the reads and writes it is made of. *)
Ltac unfold_entry :=
  unfold call, transfer, transferFrom, approve, increaseAllowance, decreaseAllowance,
    permit, buy, _buy, claimDividends, setDevAddress, excludeFromFee, transferOwnership,
    acceptOwnership, renounceOwnership, _transfer, _update, _handleTaxedTransfer,
    _handleRefund;
  repeat autounfold with model.

(** ** The worked examples are reachable *)

Lemma genesis_is_reachable d : d = usd \/ d = eur -> reachable d (genesis d).
Proof.
  intros Hd. apply genesis_reachable. eexists.
  destruct Hd as [-> | ->]; vm_compute; reflexivity.
Qed.

Lemma after_first_buy_reachable d : d = usd \/ d = eur -> reachable d (after_first_buy d).
Proof. intros Hd. unfold after_first_buy. apply reachable_call, genesis_is_reachable, Hd. Qed.

Lemma after_transfer_reachable d : d = usd \/ d = eur -> reachable d (after_transfer d).
Proof. intros Hd. unfold after_transfer. apply reachable_call, after_first_buy_reachable, Hd. Qed.

(** ** Invariants of the ledger *)

(** The sale counter: a buy checks it against the total supply before it
    raises it. *)
Lemma _buy_within_supply d w buyer deposit s s' l :
  _buy d w buyer deposit s = Ok tt s' l -> tokensSold s' <= TOTAL_SUPPLY.
Proof.
  intros H. pose proof (_buy_ok _ _ _ _ _ _ _ H) as (_ & _ & _ & _ & Hs).
  unfold _buy in H.
  step_in H. step_as H Hdep.
  step_as H Htok. apply _getTokensForUsdc_ok in Htok as (-> & -> & ->).
  step_as H Hnz. step_in H. step_as H Hsold. step_as H Hcap.
  apply N.ltb_ge in Hcap. rewrite Hs. exact Hcap.
Qed.

Lemma buy_within_supply d w sender value s s' l :
  buy d w sender value s = Ok tt s' l -> tokensSold s' <= TOTAL_SUPPLY.
Proof.
  intros H. unfold buy in H.
  apply nonReentrant_ok in H as (Hst & sb & H & ->). simpl.
  destruct (backing d).
  - do 5 step_in H. eapply _buy_within_supply; eassumption.
  - do 5 step_in H. eapply _buy_within_supply; eassumption.
Qed.

(** Every entry point but [buy] leaves the sale counter alone. *)
Lemma call_keeps_tokensSold d w sender c :
  (forall value, c <> CallBuy value) -> rel (keeps tokensSold) (call d w sender c).
Proof.
  intros Hc. destruct c; try (exfalso; eapply Hc; reflexivity);
    unfold_entry; rel_walk.
Qed.

Lemma call_keeps_totalBurned d w sender c :
  (forall to amount, c <> CallTransfer to amount) ->
  (forall from to amount, c <> CallTransferFrom from to amount) ->
  rel (keeps totalBurned) (call d w sender c).
Proof.
  intros Hc Hc'.
  destruct c;
    try solve [exfalso; eapply Hc; reflexivity | exfalso; eapply Hc'; reflexivity];
    unfold_entry; rel_walk.
Qed.

(** The burn counter does not go down. *)
Lemma totalBurned_grows d w sender c s :
  totalBurned s <= totalBurned (execute d w sender c s).
Proof.
  assert (Htr : forall from to amount s s' l,
             _transfer d w from to amount s = Ok tt s' l -> totalBurned s <= totalBurned s').
  { intros from to amount s0 s' l H.
    destruct (N.eq_dec to (this d)) as [->|Hne].
    - apply _transfer_refund_ok in H as (s1 & s2 & l1 & l2 & _ & Kb & _ & Hin & Href).
      kept totalBurned Hin.
      apply _handleRefund_ok in Href as (_ & _ & _ & _ & _ & _ & _ & Hb & _).
      rewrite Hb, K, Kb. lia.
    - apply (_transfer_rel_elsewhere d w (keeps totalBurned) from to amount Hne) in H.
      red in H. lia. }
  unfold execute. destruct (call d w sender c s) as [[] s' l|e] eqn:H; [|lia].
  destruct c;
    try (apply (call_keeps_totalBurned d w sender) in H; [red in H; lia | discriminate ..]).
  - simpl in H. eapply Htr; eassumption.
  - simpl in H. apply transferFrom_ok in H as (s0 & l1 & l2 & _ & Kb & _ & _ & H).
    apply Htr in H. lia.
Qed.

(** The sale counter does not go down, and stays within the total supply. *)
Lemma tokensSold_grows d w sender c s :
  tokensSold s <= tokensSold (execute d w sender c s) /\
  (tokensSold s <= TOTAL_SUPPLY -> tokensSold (execute d w sender c s) <= TOTAL_SUPPLY).
Proof.
  unfold execute. destruct (call d w sender c s) as [[] s' l|e] eqn:H; [|auto].
  destruct c;
    try (apply (call_keeps_tokensSold d w sender) in H;
         [red in H; rewrite H; auto | discriminate]).
  simpl in H. split.
  - apply buy_ok in H as (_ & _ & _ & _ & _ & Hs). lia.
  - intros _. eapply buy_within_supply; eassumption.
Qed.

Lemma reachable_sold d s : reachable d s -> tokensSold s <= TOTAL_SUPPLY.
Proof.
  induction 1 as [deployer o dev s l H | w sender c s Hs IH].
  - apply (constructor_rel d (keeps tokensSold)) in H. red in H. rewrite H. simpl. lia.
  - apply tokensSold_grows. assumption.
Qed.

(** X1. Conservation of the supply.  In every reachable state the balances
    of all accounts, the contract's own among them, add up to the total
    supply less what was burned; so no account ever holds more than that. *)
Theorem X1_supply_is_conserved (d : Deploy) (s : State) :
  reachable d s ->
  ledger_sum (_balances s) + totalBurned s = TOTAL_SUPPLY /\
  (forall a, at_ (_balances s) a <= TOTAL_SUPPLY - totalBurned s).
Proof.
  intros Hs. apply reachable_conserved in Hs. split; [exact Hs|].
  intros a. pose proof (at_le_ledger_sum (_balances s) a). unfold conserved in Hs. lia.
Qed.

Lemma X1_witness :
  ledger_sum (_balances (after_transfer usd)) + totalBurned (after_transfer usd)
  = TOTAL_SUPPLY /\
  (forall a, at_ (_balances (after_transfer usd)) a
             <= TOTAL_SUPPLY - totalBurned (after_transfer usd)).
Proof.
  apply (X1_supply_is_conserved usd), after_transfer_reachable. left. reflexivity.
Defined.

(** X2. The reentrancy guard.  Between transactions the guard is released,
    so the contract is never left locked; and while it is entered, [buy],
    [claimDividends] and the refund path are rejected. *)
Theorem X2_guard_is_released_between_transactions (d : Deploy) :
  (forall s, reachable d s -> _status s = NOT_ENTERED)
  /\
  (forall w sender value amount s,
      _status s = ENTERED ->
      buy d w sender value s = Revert ReentrantCall /\
      claimDividends d w sender s = Revert ReentrantCall /\
      _handleRefund d w sender amount s = Revert ReentrantCall).
Proof.
  split.
  - intros s. apply reachable_idle.
  - intros w sender value amount s Hst.
    unfold buy, claimDividends, _handleRefund, nonReentrant, mbind, M_bind, bind, gets.
    rewrite Hst. simpl. auto.
Qed.

Lemma X2_witness :
  _status (after_transfer eur) = NOT_ENTERED /\
  claimDividends usd wallets alice (set_status ENTERED (after_first_buy usd))
  = Revert ReentrantCall.
Proof.
  split.
  - apply (proj1 (X2_guard_is_released_between_transactions eur)),
      after_transfer_reachable. right. reflexivity.
  - apply (proj2 (X2_guard_is_released_between_transactions usd) wallets alice 0 0).
    reflexivity.
Defined.

(** X3. The counters.  No transaction lowers [tokensSold] or [totalBurned];
    only [buy] changes [tokensSold], a refund does not give it back; and in
    every reachable state [tokensSold] is within the total supply, so the
    tokens sold over the whole life of the contract are capped by it. *)
Theorem X3_counters_only_grow (d : Deploy) :
  (forall w sender c s,
      tokensSold s <= tokensSold (execute d w sender c s) /\
      totalBurned s <= totalBurned (execute d w sender c s))
  /\
  (forall w sender c s s' l,
      (forall value, c <> CallBuy value) ->
      call d w sender c s = Ok tt s' l ->
      tokensSold s' = tokensSold s)
  /\
  (forall s, reachable d s -> tokensSold s <= TOTAL_SUPPLY).
Proof.
  split; [|split].
  - intros w sender c s. split.
    + apply tokensSold_grows.
    + apply totalBurned_grows.
  - intros w sender c s s' l Hc H.
    apply (call_keeps_tokensSold d w sender c Hc) in H. exact H.
  - intros s. apply reachable_sold.
Qed.

Lemma X3_witness :
  tokensSold (after_refund_tx usd) = tokensSold (after_first_buy usd) /\
  tokensSold (after_refund_tx usd) <= TOTAL_SUPPLY.
Proof.
  split.
  - refine (proj1 (proj2 (X3_counters_only_grow usd)) wallets alice
              (CallTransfer 1000 500000) (after_first_buy usd) (after_refund_tx usd) [] _ _).
    + discriminate.
    + vm_compute. reflexivity.
  - apply (proj2 (proj2 (X3_counters_only_grow usd))).
    unfold after_refund_tx. apply reachable_call, after_first_buy_reachable.
    left. reflexivity.
Defined.

(** One step of a computation, with the names of its result and of the
    storage after it. *)
Ltac step_to H H1 a s1 :=
  let l1 := fresh "l" in
  let l2 := fresh "l" in
  let H2 := fresh "Hrest" in
  let El := fresh "El" in
  apply bind_ok in H; destruct H as (a & s1 & l1 & l2 & H1 & H2 & El);
  rename H2 into H; clear El.

(** ** Buying: what the tokens purchased are split into *)

(** A buy ends in two transfers out of the contract, after the buyer's
    accrual and the distribution of the reflection fee, which leave the
    ledger as it was. *)
Lemma _buy_steps d w buyer deposit s s' l :
  _buy d w buyer deposit s = Ok tt s' l ->
  let issued :=
    spec_tokens_issued deposit
      (spec_buy_price (spec_circulating d s) (usdcReserves s - deposit))
      (at_ (_balances s) (this d)) in
  let devFee := issued * 5 / 10000 in
  let tokensToUser := issued - devFee - issued * 10 / 10000 - issued * 10 / 10000 in
  exists s1 s2 l1 l2,
    (_balances s1, devAddress s1, totalBurned s1) = (_balances s, devAddress s, totalBurned s) /\
    (forall lc, isContract w buyer s = Ok false s lc ->
                at_ (lastDividendPerShare s1) buyer = magnifiedDividendPerShare s1) /\
    super_transfer (this d) (devAddress s) devFee s1 = Ok tt s2 l1 /\
    super_transfer (this d) buyer tokensToUser s2 = Ok tt s' l2.
Proof.
  intros H. cbv zeta. unfold _buy in H.
  step_in H. step_as H Hdep.
  step_as H Htok. apply _getTokensForUsdc_ok in Htok as (-> & -> & ->).
  set (issued := spec_tokens_issued deposit
                   (spec_buy_price (spec_circulating d s) (usdcReserves s - deposit))
                   (at_ (_balances s) (this d))) in *.
  step_as H Hnz. step_in H. step_as H Hsold. step_as H Hcap.
  step_as H Hdev. step_as H Hres. step_as H Hrefl.
  unfold BUY_DEV_FEE_BPS, BUY_RESERVE_FEE_BPS, BUY_REFLECTION_FEE_BPS in *.
  assert (Hissued : issued <= MAX_UINT256) by lia.
  assert (Enet : sub_wrap (sub_wrap (sub_wrap issued (issued * 5 / 10000))
                             (issued * 10 / 10000)) (issued * 10 / 10000)
                 = issued - issued * 5 / 10000 - issued * 10 / 10000 - issued * 10 / 10000).
  { unfold MAX_UINT256 in Hissued.
    repeat match goal with
      | |- context [sub_wrap ?a ?b] =>
          lazymatch a with
          | context [sub_wrap] => fail
          | _ => rewrite (sub_wrap_exact a b) by (unfold MAX_UINT256; lia)
          end
      end. reflexivity. }
  rewrite Enet in H. clear Enet.
  step_in H. step_as H Hsold'. step_in H.
  step_to H Hc1 c1 q1. pose proof (isContract_view _ _ _ _ _ _ Hc1) as ->.
  step_to H Hacc1 before q2.
  kept (fun s => (_balances s, devAddress s, totalBurned s)) Hacc1.
  injection K as Kb1 Kd1 Kt1. clear Hacc1.
  step_to H Hdist u1 q3.
  kept (fun s => (_balances s, devAddress s, totalBurned s)) Hdist.
  injection K as Kb2 Kd2 Kt2. clear Hdist.
  step_to H Hc2 c2 q4. pose proof (isContract_view _ _ _ _ _ _ Hc2) as ->.
  step_to H Hacc2 u2 q5.
  kept (fun s => (_balances s, devAddress s, totalBurned s)) Hacc2.
  injection K as Kb3 Kd3 Kt3. clear Hacc2.
  step_to H Hc3 c3 q6. pose proof (isContract_view _ _ _ _ _ _ Hc3) as ->.
  step_to H Hsnap u3 q7.
  assert (Ksnap : (_balances q7, devAddress q7, totalBurned q7)
                  = (_balances q5, devAddress q5, totalBurned q5)
                  /\ (c3 = false ->
                      at_ (lastDividendPerShare q7) buyer = magnifiedDividendPerShare q7)).
  { destruct c3; simpl in Hsnap.
    - apply ret_ok in Hsnap as (_ & -> & _). split; [reflexivity | discriminate].
    - apply modify_ok in Hsnap as (-> & _). simpl. split; [reflexivity|].
      intros _. apply at_insert_eq. }
  destruct Ksnap as [Ksnap Hlast]. injection Ksnap as Kb4 Kd4 Kt4. clear Hsnap.
  step_in H. step_to H Hout u4 q8. destruct u4.
  simpl in *.
  exists q7, q8. eexists _, _. split; [|split; [|split]].
  - congruence.
  - intros lc Hlc. apply Hlast.
    pose proof (isContract_any_state _ _ _ _ _ _ Hlc q5) as Hlc'.
    congruence.
  - replace (devAddress s) with (devAddress q7) by congruence. exact Hout.
  - exact H.
Qed.

(** A transfer between two accounts in a state where the supply is
    conserved: the addition does not wrap. *)
Lemma super_transfer_exact from to amount s a s' l :
  super_transfer from to amount s = Ok a s' l ->
  conserved s -> from <> to ->
  amount <= at_ (_balances s) from /\
  conserved s' /\
  s' = set_balances
         (<[to := at_ (_balances s) to + amount]>
            (<[from := at_ (_balances s) from - amount]> (_balances s))) s.
Proof.
  intros H Hc Hne.
  pose proof (super_transfer_conservation _ _ _ _ _ _ _ H Hc) as Hc'.
  apply super_transfer_ok in H as (_ & _ & Hle & ->).
  rewrite at_insert_ne, add_wrap_exact in * by first [assumption | eapply conserved_fits; eassumption].
  auto.
Qed.

(** Two transfers out of one account into two others. *)
Lemma two_transfers_out src a b x y s s1 s2 l1 l2 :
  super_transfer src a x s = Ok tt s1 l1 ->
  super_transfer src b y s1 = Ok tt s2 l2 ->
  conserved s -> src <> a -> src <> b -> a <> b ->
  at_ (_balances s2) a = at_ (_balances s) a + x /\
  at_ (_balances s2) b = at_ (_balances s) b + y /\
  at_ (_balances s2) src = at_ (_balances s) src - x - y /\
  x + y <= at_ (_balances s) src /\
  (forall other, other <> src -> other <> a -> other <> b ->
                 at_ (_balances s2) other = at_ (_balances s) other) /\
  s2 = set_balances (_balances s2) s.
Proof.
  intros H1 H2 Hc Ha Hb Hab.
  apply super_transfer_exact in H1 as (Hx & Hc1 & ->); try assumption.
  apply super_transfer_exact in H2 as (Hy & _ & ->); try assumption.
  simpl in *.
  rewrite at_insert_ne, at_insert_eq in Hy by congruence.
  repeat split.
  - rewrite !at_insert_ne, at_insert_eq by congruence. reflexivity.
  - rewrite at_insert_eq, !at_insert_ne by congruence. reflexivity.
  - rewrite at_insert_ne, at_insert_eq by congruence.
    rewrite at_insert_ne, at_insert_eq by congruence. reflexivity.
  - lia.
  - intros other Hs Hoa Hob. rewrite !at_insert_ne by congruence. reflexivity.
Qed.

(** What an accepted buy does to the balances and to the buyer's
    snapshot. *)
Lemma buy_split d w sender value s s' l :
  buy d w sender value s = Ok tt s' l ->
  conserved s ->
  sender <> this d -> devAddress s <> this d -> sender <> devAddress s ->
  let issued :=
    spec_tokens_issued (deposit_of d value)
      (spec_buy_price (spec_circulating d s) (usdcReserves s))
      (at_ (_balances s) (this d)) in
  let devFee := issued * 5 / 10000 in
  let tokensToUser := issued - devFee - issued * 10 / 10000 - issued * 10 / 10000 in
  at_ (_balances s') sender = at_ (_balances s) sender + tokensToUser /\
  at_ (_balances s') (devAddress s) = at_ (_balances s) (devAddress s) + devFee /\
  at_ (_balances s') (this d) = at_ (_balances s) (this d) - devFee - tokensToUser /\
  (forall other, other <> this d -> other <> devAddress s -> other <> sender ->
                 at_ (_balances s') other = at_ (_balances s) other) /\
  (forall lc, isContract w sender s = Ok false s lc ->
              at_ (lastDividendPerShare s') sender = magnifiedDividendPerShare s').
Proof.
  intros H Hc Hst Hdt Hsd. cbv zeta.
  unfold buy in H.
  apply nonReentrant_ok in H as (Hidle & se & H & ->).
  assert (Hbuy : exists sb,
             (_balances sb, devAddress sb, totalBurned sb) =
             (_balances s, devAddress s, totalBurned s) /\
             usdcReserves sb - deposit_of d value = usdcReserves s /\
             _buy d w sender (deposit_of d value) sb = Ok tt se l).
  { unfold deposit_of. destruct (backing d).
    - step_in H. step_as H Hmin. step_in H. step_as H Hadd. step_in H.
      eexists. split; [|split; [|exact H]]; simpl; [reflexivity | lia].
    - step_as H Hmin. step_as H Hpull. step_in H. step_as H Hadd. step_in H.
      eexists. split; [|split; [|exact H]]; simpl; [reflexivity | lia]. }
  clear H. destruct Hbuy as (sb & K & Kr & H). injection K as Kbal Kdev Kt.
  apply _buy_steps in H as (s1 & s2 & l1 & l2 & K & Hlast & Hout1 & Hout2).
  injection K as Kbal1 Kdev1 Kt1.
  cbv zeta in Hlast, Hout1, Hout2.
  unfold spec_circulating in *. rewrite ?Kr, ?Kbal, ?Kdev, ?Kt in *.
  assert (Hc1 : conserved s1).
  { apply (conserved_same s); congruence. }
  destruct (two_transfers_out _ _ _ _ _ _ _ _ _ _ Hout1 Hout2 Hc1)
    as (Ha & Hb & Hsrc & _ & Hother & Es); try congruence.
  simpl. rewrite ?Kbal1, ?Kdev1 in *.
  repeat split; try assumption.
  intros lc Hlc. rewrite Es. simpl. apply (Hlast lc).
    eapply isContract_any_state. eassumption.
Qed.

(** ** The estimates *)

Lemma calculateTokensForUsdc_ok d deposit s quote s' l :
  calculateTokensForUsdc d deposit s = Ok quote s' l ->
  s' = s /\ l = [] /\
  quote = spec_tokens_issued deposit
            (spec_buy_price (spec_circulating d s) (usdcReserves s))
            (at_ (_balances s) (this d)).
Proof.
  intros H. unfold calculateTokensForUsdc in H. step_in H.
  apply _getTokensForUsdc_ok in H. exact H.
Qed.

(** The refund estimate is the payout formula on the contract's balance as
    it is, without the tokens a refund would have brought in. *)
Lemma calculateUsdcForTokens_ok d amount s quote s' l :
  calculateUsdcForTokens d amount s = Ok quote s' l ->
  s' = s /\
  quote = if amount <? MINIMUM_PURCHASE_USDC then 0
          else spec_payout (totalBurned s) (at_ (_balances s) (this d)) (usdcReserves s)
                 amount.
Proof.
  intros H. unfold calculateUsdcForTokens in H.
  destruct (N.eqb_spec amount 0) as [->|Hnz].
  { apply ret_ok in H as (-> & -> & _). split; reflexivity. }
  destruct (amount <? MINIMUM_PURCHASE_USDC).
  { apply ret_ok in H as (-> & -> & _). split; reflexivity. }
  step_in H. step_as H Hdev. step_as H Hrefl.
  step_to H Hburn burnFee q1. step_to H Hres reserveFee q2.
  assert (burnFee = spec_refund_burn_fee (totalBurned s) amount /\ q1 = s) as [-> ->].
  { unfold spec_refund_burn_fee. destruct (totalBurned s <? BURNING_LIMIT).
    - apply mulDiv_ok in Hburn as (-> & _ & _ & -> & _). auto.
    - apply ret_ok in Hburn as (-> & -> & _). auto. }
  assert (reserveFee = spec_refund_reserve_fee (totalBurned s) amount /\ q2 = s) as [-> ->].
  { unfold spec_refund_reserve_fee. destruct (totalBurned s <? BURNING_LIMIT);
      apply mulDiv_ok in Hres as (-> & _ & _ & -> & _); auto. }
  clear Hburn Hres.
  step_in H. step_as H Hsup. step_as H Hout. step_as H Hccs.
  assert (amount <= MAX_UINT256) as Hg by lia.
  rewrite (tokensForRefund_exact _ _ Hg) in H.
  unfold spec_payout, spec_currentCirculatingSupply, spec_effectiveBacking.
  unfold EFFECTIVE_BACKING_NUMERATOR, EFFECTIVE_BACKING_DENOMINATOR in *.
  destruct (N.eqb_spec (TOTAL_SUPPLY - totalBurned s - at_ (_balances s) (this d) + amount) 0)
    as [E|E].
  { apply ret_ok in H as (-> & -> & _). split; [reflexivity|].
    rewrite E. symmetry.
    destruct (spec_tokensForRefund (totalBurned s) amount * (usdcReserves s * 999 / 1000));
      reflexivity. }
  step_in H. step_as H Hscaled. step_as H Hdiv.
  apply mulDiv_ok in H as (-> & _ & _ & -> & _). split; reflexivity.
Qed.

(** The payout of a refund sent with a transfer, over the supply that
    circulates before it. *)
Lemma refund_tx_payout d w from amount s s' l :
  _transfer d w from (this d) amount s = Ok tt s' l ->
  from <> this d -> conserved s ->
  let paid := spec_tokensForRefund (totalBurned s) amount * (usdcReserves s * 999 / 1000)
              / spec_circulating d s in
  MINIMUM_PURCHASE_USDC <= amount /\
  amount <= at_ (_balances s) from /\
  spec_circulating d s <> 0 /\
  paid <= usdcReserves s /\
  usdcReserves s' = usdcReserves s - paid.
Proof.
  intros H Hne Hc. cbv zeta.
  pose proof (refund_tx_ok _ _ _ _ _ _ _ H Hne Hc) as (Hmin & Hpay & Hres).
  apply _transfer_refund_ok in H as (s0 & s1 & l1 & l2 & Kr & Kb & Kbal & Hin & Href).
  apply super_transfer_ok in Hin as (_ & _ & Hle & _). rewrite Kbal in Hle.
  pose proof (two_le_ledger_sum (_balances s) from (this d) Hne) as Hsum.
  unfold conserved in Hc.
  assert (E : spec_currentCirculatingSupply (totalBurned s)
                (at_ (_balances s) (this d) + amount) amount = spec_circulating d s).
  { unfold spec_currentCirculatingSupply, spec_circulating. lia. }
  unfold spec_payout, spec_effectiveBacking in Hpay, Hres. rewrite E in Hpay, Hres.
  repeat split; try assumption.
  unfold spec_circulating, MINIMUM_PURCHASE_USDC in *. lia.
Qed.

Lemma refund_estimate_below d amount s :
  MINIMUM_PURCHASE_USDC <= amount -> spec_circulating d s <> 0 ->
  spec_payout (totalBurned s) (at_ (_balances s) (this d)) (usdcReserves s) amount
  = spec_tokensForRefund (totalBurned s) amount * (usdcReserves s * 999 / 1000)
    / (spec_circulating d s + amount) /\
  spec_payout (totalBurned s) (at_ (_balances s) (this d)) (usdcReserves s) amount
  <= spec_tokensForRefund (totalBurned s) amount * (usdcReserves s * 999 / 1000)
     / spec_circulating d s.
Proof.
  intros Hmin Hcirc.
  unfold spec_payout, spec_currentCirculatingSupply, spec_effectiveBacking, spec_circulating
    in *.
  split; [reflexivity|].
  apply N.div_le_compat_l. lia.
Qed.

(** ** Dividends: accrual, the view and the claim *)

Lemma credit_dividends_ok user n s a s' l :
  credit_dividends user n s = Ok a s' l ->
  s' = set_accumulatedDividends
         (<[user := at_ (accumulatedDividends s) user + n]> (accumulatedDividends s)) s.
Proof.
  intros H. unfold credit_dividends in H.
  step_in H. step_as H Hadd. apply modify_ok in H as (-> & _). reflexivity.
Qed.

Lemma pendingDividends_ok w user s p s' l lc :
  pendingDividends w user s = Ok p s' l ->
  isContract w user s = Ok false s lc ->
  s' = s /\ l = lc /\ p = spec_pending user s.
Proof.
  intros H Hc. unfold pendingDividends in H.
  step_as H Hc'. rewrite Hc in Hc'. injection Hc' as <- <- <-. simpl in H.
  unfold spec_pending.
  step_in H. step_in H.
  destruct (at_ (_balances s) user =? 0); simpl.
  { apply ret_ok in H as (-> & -> & ->). rewrite app_nil_r. repeat split. lia. }
  step_in H. step_in H.
  destruct (at_ (lastDividendPerShare s) user <? magnifiedDividendPerShare s); simpl.
  - step_as H Hsub. step_as H Hmul. step_as H Hdiv.
    apply add_ok in H as (-> & _ & -> & ->). rewrite app_nil_r. repeat split.
  - apply ret_ok in H as (-> & -> & ->). rewrite app_nil_r. repeat split. lia.
Qed.

(** The accrual written out in [_updateUserDividendTracking] and in
    [claimDividends]: it credits what the view adds. *)
Lemma accrual_ok user s a s' l :
  (if (0 <? at_ (_balances s) user)
      && (at_ (lastDividendPerShare s) user <? magnifiedDividendPerShare s)
   then
     dividendDifference ← sub (magnifiedDividendPerShare s) (at_ (lastDividendPerShare s) user);
     scaled ← mul (at_ (_balances s) user) dividendDifference;
     newDividends ← div scaled MAGNITUDE;
     when (0 <? newDividends) (credit_dividends user newDividends)
   else ret tt) s = Ok a s' l ->
  s' = s /\ at_ (accumulatedDividends s) user = spec_pending user s \/
  s' = set_accumulatedDividends
         (<[user := spec_pending user s]> (accumulatedDividends s)) s.
Proof.
  intros H. unfold spec_pending.
  destruct (N.ltb_spec 0 (at_ (_balances s) user)) as [Hb|Hb]; simpl in H.
  2: { apply ret_ok in H as (_ & -> & _). left. split; [reflexivity|].
       replace (at_ (_balances s) user) with 0 by lia. simpl. lia. }
  replace (at_ (_balances s) user =? 0) with false by (symmetry; apply N.eqb_neq; lia).
  destruct (at_ (lastDividendPerShare s) user <? magnifiedDividendPerShare s); simpl in *.
  2: { apply ret_ok in H as (_ & -> & _). left. split; [reflexivity | lia]. }
  step_as H Hsub. step_as H Hmul. step_as H Hdiv.
  match type of H with when (0 <? ?n) _ _ = _ => destruct (N.ltb_spec 0 n) as [Hn|Hn] end;
    simpl in H.
  - apply credit_dividends_ok in H as ->. right. reflexivity.
  - apply ret_ok in H as (_ & -> & _). left. split; [reflexivity|].
    apply N.le_0_r in Hn. rewrite Hn. lia.
Qed.

Lemma set_accumulatedDividends_same s : set_accumulatedDividends (accumulatedDividends s) s = s.
Proof. destruct s. reflexivity. Qed.

(** Once the snapshot is current the view answers with what is credited. *)
Lemma pendingDividends_caught_up w user s lc :
  isContract w user s = Ok false s lc ->
  at_ (lastDividendPerShare s) user = magnifiedDividendPerShare s ->
  pendingDividends w user s = Ok (at_ (accumulatedDividends s) user) s lc.
Proof.
  intros Hc Hlast. unfold pendingDividends.
  erewrite bind_step by eassumption. simpl.
  unfold balanceOf, mbind, M_bind, bind, gets, ret. simpl.
  destruct (at_ (_balances s) user =? 0); simpl.
  - rewrite app_nil_r. reflexivity.
  - rewrite Hlast, N.ltb_irrefl. simpl. rewrite app_nil_r. reflexivity.
Qed.



(** ** Buying *)

(** X4. A buy delivers the estimate.  What [calculateTokensForUsdc] (in
    dmfEUR: [calculateTokensForEurc]) answers for the deposit is the number
    of tokens the buy purchases; of these the buyer receives all but 25 basis
    points, the dev address 5, and the contract's own balance goes down by
    what the two receive, the reserve and reflection fees staying in it. *)
Theorem X4_buy_delivers_the_estimate
    (d : Deploy) (w : World) (sender value quote : N) (s s' : State) (l : list Probe) :
  reachable d s ->
  calculateTokensForUsdc d (deposit_of d value) s = Ok quote s [] ->
  buy d w sender value s = Ok tt s' l ->
  sender <> this d -> devAddress s <> this d -> sender <> devAddress s ->
  let devFee := quote * 5 / 10000 in
  let tokensToUser := quote - devFee - quote * 10 / 10000 - quote * 10 / 10000 in
  tokensSold s' = tokensSold s + quote /\
  at_ (_balances s') sender = at_ (_balances s) sender + tokensToUser /\
  at_ (_balances s') (devAddress s) = at_ (_balances s) (devAddress s) + devFee /\
  at_ (_balances s') (this d) = at_ (_balances s) (this d) - devFee - tokensToUser /\
  (forall other, other <> this d -> other <> devAddress s -> other <> sender ->
                 at_ (_balances s') other = at_ (_balances s) other).
Proof.
  intros Hs Hq H Hst Hdt Hsd. cbv zeta.
  apply calculateTokensForUsdc_ok in Hq as (_ & _ & ->).
  apply reachable_conserved in Hs.
  pose proof (buy_ok _ _ _ _ _ _ _ H) as (_ & _ & _ & _ & _ & Hsold).
  destruct (buy_split _ _ _ _ _ _ _ H Hs Hst Hdt Hsd) as (Hu & Hd & Hc & Ho & _).
  auto.
Qed.

Lemma X4_witness :
  let s := after_first_buy usd in
  let s' := execute usd wallets bob (CallBuy (1000000 * 1000000000000)) s in
  tokensSold s' = tokensSold s + 997003 /\
  at_ (_balances s') bob = at_ (_balances s) bob + 994511 /\
  at_ (_balances s') 2 = at_ (_balances s) 2 + 498 /\
  at_ (_balances s') 1000 = at_ (_balances s) 1000 - 498 - 994511 /\
  (forall other, other <> 1000 -> other <> 2 -> other <> bob ->
                 at_ (_balances s') other = at_ (_balances s) other).
Proof.
  cbv zeta.
  refine (X4_buy_delivers_the_estimate usd wallets bob (1000000 * 1000000000000) 997003
            (after_first_buy usd)
            (execute usd wallets bob (CallBuy (1000000 * 1000000000000)) (after_first_buy usd))
            [] _ _ _ _ _ _).
  - apply after_first_buy_reachable. left. reflexivity.
  - vm_compute. reflexivity.
  - vm_compute. reflexivity.
  - discriminate.
  - vm_compute. discriminate.
  - vm_compute. discriminate.
Defined.

(** X5. The buyer's snapshot.  After a buy by an account that the classifier
    takes for a wallet, the buyer's [lastDividendPerShare] is the accumulator
    as the buy leaves it, reflection fee of the buy included, so right after
    the buy the view shows the buyer exactly what is credited to it: the
    tokens just bought have earned nothing from their own fee. *)
Theorem X5_buyer_snapshot_is_current
    (d : Deploy) (w : World) (sender value : N) (s s' : State) (l lc : list Probe) :
  reachable d s ->
  isContract w sender s = Ok false s lc ->
  buy d w sender value s = Ok tt s' l ->
  sender <> this d -> devAddress s <> this d -> sender <> devAddress s ->
  at_ (lastDividendPerShare s') sender = magnifiedDividendPerShare s' /\
  pendingDividends w sender s' = Ok (at_ (accumulatedDividends s') sender) s' lc.
Proof.
  intros Hs Hc H Hst Hdt Hsd.
  apply reachable_conserved in Hs.
  destruct (buy_split _ _ _ _ _ _ _ H Hs Hst Hdt Hsd) as (_ & _ & _ & _ & Hlast).
  specialize (Hlast lc Hc). split; [exact Hlast|].
  apply pendingDividends_caught_up; [|exact Hlast].
  eapply isContract_any_state. eassumption.
Qed.

Lemma X5_witness :
  let s' := execute usd wallets bob (CallBuy (1000000 * 1000000000000))
              (after_first_buy usd) in
  at_ (lastDividendPerShare s') bob = magnifiedDividendPerShare s' /\
  pendingDividends wallets bob s' = Ok (at_ (accumulatedDividends s') bob) s' [].
Proof.
  cbv zeta.
  refine (X5_buyer_snapshot_is_current usd wallets bob (1000000 * 1000000000000)
            (after_first_buy usd) _ [] [] _ _ _ _ _ _).
  - apply after_first_buy_reachable. left. reflexivity.
  - reflexivity.
  - vm_compute. reflexivity.
  - discriminate.
  - vm_compute. discriminate.
  - vm_compute. discriminate.
Defined.

(** ** Refunding *)

(** X6. The refund estimate is a lower bound.  [calculateUsdcForTokens]
    divides by the circulating supply plus the tokens to refund, where the
    refund itself divides by the circulating supply as it is before the
    tokens come back; so the estimate never exceeds what a refund of the same
    tokens in the same state pays out. *)
Theorem X6_refund_estimate_is_a_lower_bound
    (d : Deploy) (w : World) (from amount quote : N) (s s' : State) (l lq : list Probe) :
  reachable d s ->
  from <> this d ->
  calculateUsdcForTokens d amount s = Ok quote s lq ->
  call d w from (CallTransfer (this d) amount) s = Ok tt s' l ->
  let tokensForRefund := spec_tokensForRefund (totalBurned s) amount in
  let effectiveBacking := usdcReserves s * 999 / 1000 in
  let circulating := spec_circulating d s in
  quote = tokensForRefund * effectiveBacking / (circulating + amount) /\
  usdcReserves s - usdcReserves s' = tokensForRefund * effectiveBacking / circulating /\
  quote <= usdcReserves s - usdcReserves s'.
Proof.
  intros Hs Hne Hq H. cbv zeta. simpl in H. unfold transfer in H.
  apply reachable_conserved in Hs.
  destruct (refund_tx_payout _ _ _ _ _ _ _ H Hne Hs) as (Hmin & _ & Hcirc & Hpay & Hres).
  apply calculateUsdcForTokens_ok in Hq as (_ & ->).
  replace (amount <? MINIMUM_PURCHASE_USDC) with false by (symmetry; apply N.ltb_ge; exact Hmin).
  destruct (refund_estimate_below d amount s Hmin Hcirc) as (E & Hle).
  rewrite Hres. split; [exact E|].
  split; lia.
Qed.

Lemma X6_witness :
  332610 = 498750 * 999000 / (998000 + 500000) /\
  usdcReserves (after_first_buy usd) - usdcReserves (after_refund_tx usd)
  = 498750 * 999000 / 998000 /\
  332610 <= usdcReserves (after_first_buy usd) - usdcReserves (after_refund_tx usd).
Proof.
  refine (X6_refund_estimate_is_a_lower_bound usd wallets alice 500000 332610
            (after_first_buy usd) (after_refund_tx usd) [] [] _ _ _ _).
  - apply after_first_buy_reachable. left. reflexivity.
  - discriminate.
  - vm_compute. reflexivity.
  - vm_compute. reflexivity.
Defined.

(** ** Dividends *)

(** A claim by an account that the classifier takes for a wallet pays out
    what the view shows and leaves nothing pending. *)
Lemma claimDividends_pays d w user s s' l lc :
  claimDividends d w user s = Ok tt s' l ->
  isContract w user s = Ok false s lc ->
  conserved s -> user <> this d ->
  let p := spec_pending user s in
  p <= at_ (_balances s) (this d) /\
  at_ (_balances s') user = at_ (_balances s) user + p /\
  at_ (_balances s') (this d) = at_ (_balances s) (this d) - p /\
  at_ (accumulatedDividends s') user = 0 /\
  at_ (lastDividendPerShare s') user = magnifiedDividendPerShare s' /\
  magnifiedDividendPerShare s' = magnifiedDividendPerShare s.
Proof.
  intros H Hc Hcons Hne. cbv zeta. unfold claimDividends in H.
  apply nonReentrant_ok in H as (Hst & sb & H & ->). cbv zeta in H.
  step_as H Hc'.
  rewrite (isContract_any_state _ _ _ _ _ _ Hc (set_status ENTERED s)) in Hc'.
  injection Hc' as <- <- <-. simpl in H.
  unfold balanceOf in H. do 3 step_in H.
  step_to H Hacc u q.
  step_in H. step_in H.
  assert (Hq : exists acc',
             q = set_accumulatedDividends acc' (set_status ENTERED s) /\
             at_ acc' user = spec_pending user s).
  { apply accrual_ok in Hacc as [[-> E] | ->].
    - exists (accumulatedDividends s). split; [|exact E].
      destruct s; reflexivity.
    - eexists. split; [reflexivity|]. apply at_insert_eq. }
  clear Hacc. destruct Hq as (acc' & -> & Eacc). simpl in H.
  rewrite Eacc in H.
  destruct (N.ltb_spec 0 (spec_pending user s)) as [Hp|Hp]; simpl in H.
  - step_in H.
    apply super_transfer_exact in H as (Hle & _ & ->); [| |congruence].
    2: { apply (conserved_same s); [reflexivity | reflexivity | assumption]. }
    simpl in *. rewrite at_insert_eq.
    rewrite (at_insert_ne _ user (this d)), at_insert_eq by congruence.
    rewrite !at_insert_eq. repeat split; auto.
  - apply ret_ok in H as (_ & -> & _). simpl.
    assert (E0 : spec_pending user s = 0) by lia. rewrite E0, Eacc, at_insert_eq.
    repeat split; lia.
Qed.

(** X7. A claim pays what the view shows.  For an account that the
    classifier takes for a wallet, an accepted [claimDividends] moves exactly
    the amount [pendingDividends] answered from the contract's balance to the
    account, and afterwards the view answers 0; the accumulator is not
    touched. *)
Theorem X7_claim_pays_what_is_pending
    (d : Deploy) (w : World) (user pending : N) (s s' : State) (l lc : list Probe) :
  reachable d s ->
  user <> this d ->
  isContract w user s = Ok false s lc ->
  pendingDividends w user s = Ok pending s lc ->
  claimDividends d w user s = Ok tt s' l ->
  pending <= at_ (_balances s) (this d) /\
  at_ (_balances s') user = at_ (_balances s) user + pending /\
  at_ (_balances s') (this d) = at_ (_balances s) (this d) - pending /\
  pendingDividends w user s' = Ok 0 s' lc /\
  magnifiedDividendPerShare s' = magnifiedDividendPerShare s.
Proof.
  intros Hs Hne Hc Hp H.
  apply reachable_conserved in Hs.
  apply (pendingDividends_ok _ _ _ _ _ _ _ Hp) in Hc as Hp'. destruct Hp' as (_ & _ & ->).
  destruct (claimDividends_pays _ _ _ _ _ _ _ H Hc Hs Hne)
    as (Hle & Hu & Ht & Hacc & Hlast & Hm).
  repeat split; try assumption.
  rewrite <- Hacc. apply pendingDividends_caught_up; [|exact Hlast].
  eapply isContract_any_state. eassumption.
Qed.

Lemma X7_witness :
  399 <= at_ (_balances (after_transfer usd)) 1000 /\
  at_ (_balances (after_claim usd)) alice = at_ (_balances (after_transfer usd)) alice + 399 /\
  at_ (_balances (after_claim usd)) 1000 = at_ (_balances (after_transfer usd)) 1000 - 399 /\
  pendingDividends wallets alice (after_claim usd) = Ok 0 (after_claim usd) [] /\
  magnifiedDividendPerShare (after_claim usd) = magnifiedDividendPerShare (after_transfer usd).
Proof.
  refine (X7_claim_pays_what_is_pending usd wallets alice 399 (after_transfer usd)
            (after_claim usd) [] [] _ _ _ _ _).
  - apply after_transfer_reachable. left. reflexivity.
  - discriminate.
  - reflexivity.
  - vm_compute. reflexivity.
  - vm_compute. reflexivity.
Defined.



(** ** Transfers that pay no fee *)

(** A transfer to an account other than the contract, one side of it
    excluded from fees, brings the accrual of both up to date and then moves
    the tokens. *)
Lemma _transfer_exempt d w from to amount s s' l :
  _transfer d w from to amount s = Ok tt s' l ->
  to <> this d ->
  flag (_isExcludedFromFee s) from || flag (_isExcludedFromFee s) to = true ->
  exists s0 l0,
    super_transfer from to amount s0 = Ok tt s' l0 /\
    amount <> 0 /\
    (usdcReserves s0, magnifiedDividendPerShare s0, totalDividendsDistributed s0,
     _balances s0, totalBurned s0)
    = (usdcReserves s, magnifiedDividendPerShare s, totalDividendsDistributed s,
       _balances s, totalBurned s).
Proof.
  intros H Hto Hex. unfold _transfer in H.
  step_to H Hfrom u1 q1.
  kept (fun s => (usdcReserves s, magnifiedDividendPerShare s, totalDividendsDistributed s,
                  _balances s, totalBurned s, _isExcludedFromFee s)) Hfrom.
  step_to H Hto' u2 q2.
  kept (fun s => (usdcReserves s, magnifiedDividendPerShare s, totalDividendsDistributed s,
                  _balances s, totalBurned s, _isExcludedFromFee s)) Hto'.
  rewrite K in K0. clear Hfrom Hto' K.
  unfold _update in H. step_in H. step_in H. step_as H Hnz. step_in H. step_in H.
  cbv zeta in H.
  destruct (N.eqb_spec to (this d)) as [|_]; [contradiction|].
  injection K0 as Kr Km Kd Kbal Kb Kex.
  rewrite Kex, Hex in H.
  apply N.eqb_neq in Hnz.
  eexists _, _. split; [exact H|]. split; [exact Hnz|]. congruence.
Qed.

(** X9. Transfers of excluded accounts pay no fee.  When the sender or the
    recipient is excluded from fees and the recipient is not the contract, an
    accepted transfer moves the whole amount from the one to the other and
    changes no other balance; nothing is distributed and the reserve stays. *)
Theorem X9_excluded_accounts_pay_no_fee
    (d : Deploy) (w : World) (from to amount : N) (s s' : State) (l : list Probe) :
  reachable d s ->
  call d w from (CallTransfer to amount) s = Ok tt s' l ->
  flag (_isExcludedFromFee s) from || flag (_isExcludedFromFee s) to = true ->
  to <> this d -> from <> to ->
  at_ (_balances s') from = at_ (_balances s) from - amount /\
  at_ (_balances s') to = at_ (_balances s) to + amount /\
  (forall other, other <> from -> other <> to ->
                 at_ (_balances s') other = at_ (_balances s) other) /\
  magnifiedDividendPerShare s' = magnifiedDividendPerShare s /\
  totalDividendsDistributed s' = totalDividendsDistributed s /\
  usdcReserves s' = usdcReserves s.
Proof.
  intros Hs H Hex Hto Hne. simpl in H. unfold transfer in H.
  apply reachable_conserved in Hs.
  apply _transfer_exempt in H as (s0 & l0 & H & _ & K); try assumption.
  injection K as Kr Km Kd Kbal Kb.
  apply super_transfer_exact in H as (_ & _ & ->); [| |assumption].
  2: { apply (conserved_same s); assumption. }
  simpl. rewrite Kbal.
  split; [|split; [|split]].
  - rewrite at_insert_ne, at_insert_eq by congruence. reflexivity.
  - apply at_insert_eq.
  - intros other Ho1 Ho2. rewrite !at_insert_ne by congruence. reflexivity.
  - auto.
Qed.

Lemma X9_witness :
  let s := after_exclusion usd in
  let s' := execute usd wallets alice (CallTransfer bob 400000) s in
  at_ (_balances s') alice = at_ (_balances s) alice - 400000 /\
  at_ (_balances s') bob = at_ (_balances s) bob + 400000 /\
  (forall other, other <> alice -> other <> bob ->
                 at_ (_balances s') other = at_ (_balances s) other) /\
  magnifiedDividendPerShare s' = magnifiedDividendPerShare s /\
  totalDividendsDistributed s' = totalDividendsDistributed s /\
  usdcReserves s' = usdcReserves s.
Proof.
  cbv zeta.
  refine (X9_excluded_accounts_pay_no_fee usd wallets alice bob 400000
            (after_exclusion usd) _ [] _ _ _ _ _).
  - unfold after_exclusion. apply reachable_call, after_first_buy_reachable.
    left. reflexivity.
  - vm_compute. reflexivity.
  - vm_compute. reflexivity.
  - discriminate.
  - discriminate.
Defined.

(** ** Swaps with a known trading pair *)

Lemma isContract_has_code w a s l : isContract w a s = Ok true s l -> code_length w a <> 0.
Proof.
  intros H E. unfold isContract in H. rewrite E in H. discriminate.
Qed.

Lemma and_then_known_pair d w p s lp :
  isContract w p s = Ok true s lp ->
  flag (_isLiquidityPair s) p = true ->
  and_then (isContract w p) (isLiquidityPair d w p) s = Ok true s lp.
Proof.
  intros Hc Hp. unfold and_then.
  erewrite bind_step by eassumption. cbv beta iota.
  rewrite isLiquidityPair_cached by (left; assumption).
  apply isContract_has_code in Hc. apply N.eqb_neq in Hc. rewrite Hc, Hp, app_nil_r.
  reflexivity.
Qed.

Lemma and_then_wallet d w a s :
  code_length w a = 0 ->
  and_then (isContract w a) (isLiquidityPair d w a) s = Ok false s [].
Proof.
  intros Ha. unfold and_then.
  erewrite bind_step by (apply isContract_wallet; assumption). reflexivity.
Qed.

Lemma swap_detected d w from to s :
  swap_with_pair w s from to ->
  (exists l, or_else (and_then (isContract w from) (isLiquidityPair d w from))
               (and_then (isContract w to) (isLiquidityPair d w to)) s = Ok true s l) /\
  (exists b l, and_then (isContract w to) (isLiquidityPair d w to) s = Ok b s l).
Proof.
  intros [(Hf & (lp & Hc) & Hp) | (Ht & (lp & Hc) & Hp)].
  - split.
    + unfold or_else. erewrite bind_step by (apply and_then_wallet; assumption).
      simpl. erewrite and_then_known_pair by eassumption. eauto.
    + erewrite and_then_known_pair by eassumption. eauto.
  - split.
    + unfold or_else. erewrite bind_step by (apply and_then_known_pair; eassumption).
      simpl. eauto.
    + erewrite and_then_wallet by assumption. eauto.
Qed.

Lemma swap_with_pair_same w s s2 from to :
  _isLiquidityPair s2 = _isLiquidityPair s ->
  swap_with_pair w s from to -> swap_with_pair w s2 from to.
Proof.
  intros E [(Hf & (lp & Hc) & Hp) | (Ht & (lp & Hc) & Hp)]; [left | right];
    (split; [assumption|]); rewrite E; (split; [|assumption]);
    exists lp; eapply isContract_any_state; eassumption.
Qed.

Lemma _handleTaxedTransfer_swap d w from to amount s s' l :
  _handleTaxedTransfer d w from to amount s = Ok tt s' l ->
  swap_with_pair w s from to ->
  exists l0, super_transfer from to amount s = Ok tt s' l0.
Proof.
  intros H Hswap. unfold _handleTaxedTransfer in H.
  step_in H. step_as H Hbal. step_to H Hdex isDex q.
  destruct (swap_detected d w from to s Hswap) as ((lx & Ex) & _).
  rewrite Ex in Hdex. injection Hdex as <- <-. simpl in H.
  step_to H Hin u q2. destruct u.
  step_to H Hsell b q3. apply ret_ok in H as (_ & -> & _).
  assert (Hswap2 : swap_with_pair w q2 from to).
  { apply (swap_with_pair_same w s); [|assumption].
    apply super_transfer_ok in Hin as (_ & _ & _ & ->). reflexivity. }
  destruct (swap_detected d w from to q2 Hswap2) as (_ & (b' & ly & Ey)).
  rewrite Ey in Hsell. injection Hsell as _ <-. eauto.
Qed.

(** The accrual that opens a transfer writes the dividend bookkeeping of the
    two parties and nothing else. *)
Lemma _transfer_opens d w from to amount s s' l :
  _transfer d w from to amount s = Ok tt s' l ->
  exists s0 l0,
    _update d w from to amount s0 = Ok tt s' l0 /\
    (usdcReserves s0, magnifiedDividendPerShare s0, totalDividendsDistributed s0,
     _balances s0, totalBurned s0, _isExcludedFromFee s0, devAddress s0,
     _isLiquidityPair s0)
    = (usdcReserves s, magnifiedDividendPerShare s, totalDividendsDistributed s,
       _balances s, totalBurned s, _isExcludedFromFee s, devAddress s,
       _isLiquidityPair s).
Proof.
  intros H. unfold _transfer in H.
  step_to H Hfrom u1 q1.
  kept (fun s => (usdcReserves s, magnifiedDividendPerShare s, totalDividendsDistributed s,
                  _balances s, totalBurned s, _isExcludedFromFee s, devAddress s,
                  _isLiquidityPair s)) Hfrom.
  step_to H Hto' u2 q2.
  kept (fun s => (usdcReserves s, magnifiedDividendPerShare s, totalDividendsDistributed s,
                  _balances s, totalBurned s, _isExcludedFromFee s, devAddress s,
                  _isLiquidityPair s)) Hto'.
  rewrite K in K0. eauto.
Qed.

(** X10. Swaps with a trading pair pay no fee.  When one side of a transfer
    is a contract already cached as a trading pair and the other a wallet,
    neither excluded from fees, an accepted transfer moves the whole amount
    and changes no other balance: the dev address and the contract receive
    nothing and nothing is distributed. *)
Theorem X10_swaps_pay_no_fee
    (d : Deploy) (w : World) (from to amount : N) (s s' : State) (l : list Probe) :
  reachable d s ->
  call d w from (CallTransfer to amount) s = Ok tt s' l ->
  swap_with_pair w s from to ->
  flag (_isExcludedFromFee s) from = false ->
  flag (_isExcludedFromFee s) to = false ->
  to <> this d -> from <> to ->
  at_ (_balances s') from = at_ (_balances s) from - amount /\
  at_ (_balances s') to = at_ (_balances s) to + amount /\
  (forall other, other <> from -> other <> to ->
                 at_ (_balances s') other = at_ (_balances s) other) /\
  magnifiedDividendPerShare s' = magnifiedDividendPerShare s /\
  totalDividendsDistributed s' = totalDividendsDistributed s /\
  usdcReserves s' = usdcReserves s.
Proof.
  intros Hs H Hswap Hef Het Hto Hne. simpl in H. unfold transfer in H.
  apply reachable_conserved in Hs.
  apply _transfer_opens in H as (s0 & l0 & H & K).
  injection K as Kr Km Kd Kbal Kb Kex Kdev Kp.
  unfold _update in H. do 5 step_in H. cbv zeta in H.
  destruct (N.eqb_spec to (this d)) as [|_]; [contradiction|].
  rewrite Kex, Hef, Het in H. simpl in H.
  apply _handleTaxedTransfer_swap in H as (lx & H).
  2: { apply (swap_with_pair_same w s); assumption. }
  apply super_transfer_exact in H as (_ & _ & ->); [| |assumption].
  2: { apply (conserved_same s); assumption. }
  simpl. rewrite Kbal.
  split; [|split; [|split]].
  - rewrite at_insert_ne, at_insert_eq by congruence. reflexivity.
  - apply at_insert_eq.
  - intros other Ho1 Ho2. rewrite !at_insert_ne by congruence. reflexivity.
  - auto.
Qed.

Lemma X10_witness :
  let s := after_swap usd in
  let s' := execute usd market alice (CallTransfer pair 200000) s in
  at_ (_balances s') alice = at_ (_balances s) alice - 200000 /\
  at_ (_balances s') pair = at_ (_balances s) pair + 200000 /\
  (forall other, other <> alice -> other <> pair ->
                 at_ (_balances s') other = at_ (_balances s) other) /\
  magnifiedDividendPerShare s' = magnifiedDividendPerShare s /\
  totalDividendsDistributed s' = totalDividendsDistributed s /\
  usdcReserves s' = usdcReserves s.
Proof.
  cbv zeta.
  refine (X10_swaps_pay_no_fee usd market alice pair 200000 (after_swap usd) _
            [(pair, sel_token0); (pair, sel_token1); (pair, sel_token0); (pair, sel_token1);
             (pair, sel_token0); (pair, sel_token1)] _ _ _ _ _ _ _).
  - unfold after_swap. apply reachable_call, after_first_buy_reachable. left. reflexivity.
  - vm_compute. reflexivity.
  - left. split; [reflexivity|]. split; [|vm_compute; reflexivity].
    eexists. vm_compute. reflexivity.
  - vm_compute. reflexivity.
  - vm_compute. reflexivity.
  - discriminate.
  - discriminate.
Defined.

(** ** The fees of a transfer between wallets *)

(** A transfer in a state where the supply is conserved, account by
    account. *)
Lemma super_transfer_moves from to amount s a s' l :
  super_transfer from to amount s = Ok a s' l ->
  conserved s -> from <> to ->
  conserved s' /\
  amount <= at_ (_balances s) from /\
  at_ (_balances s') from = at_ (_balances s) from - amount /\
  at_ (_balances s') to = at_ (_balances s) to + amount /\
  (forall other, other <> from -> other <> to ->
                 at_ (_balances s') other = at_ (_balances s) other) /\
  s' = set_balances (_balances s') s.
Proof.
  intros H Hc Hne.
  apply super_transfer_exact in H as (Hle & Hc' & ->); try assumption.
  simpl. repeat split; try assumption.
  - rewrite at_insert_ne, at_insert_eq by congruence. reflexivity.
  - apply at_insert_eq.
  - intros other H1 H2. rewrite !at_insert_ne by congruence. reflexivity.
Qed.

Lemma set_balances_same s : set_balances (_balances s) s = s.
Proof. destruct s. reflexivity. Qed.

(** The same for a transfer that is skipped when there is nothing to
    move. *)
Lemma optional_transfer_moves from to amount s a s' l :
  when (negb (amount =? 0)) (super_transfer from to amount) s = Ok a s' l ->
  conserved s -> from <> to ->
  conserved s' /\
  amount <= at_ (_balances s) from /\
  at_ (_balances s') from = at_ (_balances s) from - amount /\
  at_ (_balances s') to = at_ (_balances s) to + amount /\
  (forall other, other <> from -> other <> to ->
                 at_ (_balances s') other = at_ (_balances s) other) /\
  s' = set_balances (_balances s') s.
Proof.
  intros H Hc Hne. destruct (N.eqb_spec amount 0) as [->|Hnz]; simpl in H.
  - apply ret_ok in H as (_ & -> & _). rewrite set_balances_same.
    repeat split; auto; lia.
  - eapply super_transfer_moves; eassumption.
Qed.

Lemma transfer_fees_within n : n * 5 / 10000 + n * 10 / 10000 + n * 10 / 10000 <= n.
Proof. lia. Qed.

(** The four balances a taxed transfer between wallets changes. *)
Lemma taxed_transfer_split d w from to amount s s' l :
  _handleTaxedTransfer d w from to amount s = Ok tt s' l ->
  conserved s ->
  code_length w from = 0 -> code_length w to = 0 ->
  from <> this d -> to <> this d -> devAddress s <> this d ->
  from <> to -> from <> devAddress s -> to <> devAddress s ->
  let devFee := amount * 5 / 10000 in
  let fee := amount * 10 / 10000 in
  let netAmount := amount - devFee - fee - fee in
  at_ (_balances s') from = at_ (_balances s) from - amount /\
  at_ (_balances s') to = at_ (_balances s) to + netAmount /\
  at_ (_balances s') (devAddress s) = at_ (_balances s) (devAddress s) + devFee /\
  at_ (_balances s') (this d) = at_ (_balances s) (this d) + fee + fee /\
  (forall other, other <> from -> other <> to -> other <> devAddress s -> other <> this d ->
                 at_ (_balances s') other = at_ (_balances s) other) /\
  totalDividendsDistributed s' =
    totalDividendsDistributed s
    + (if (fee =? 0) || (spec_circulating d s - amount =? 0) then 0 else fee).
Proof.
  intros H Hc Hcf Hct Hf Ht Hd Hft Hfd Htd. cbv zeta.
  pose proof (_handleTaxedTransfer_sender_has _ _ _ _ _ _ _ _ _ H) as Hle.
  pose proof (conserved_fits s from (this d) amount Hc Hf Hle) as Hfit.
  unfold _handleTaxedTransfer in H.
  step_in H. step_as H Hbal.
  step_to H Hdex isDex q.
  rewrite not_a_swap_between_wallets in Hdex by assumption.
  injection Hdex as <- <-.
  step_as H Hdev. step_as H Hrefl. step_as H Hres.
  unfold TRANSFER_DEV_FEE_BPS, TRANSFER_REFLECTION_FEE_BPS, TRANSFER_RESERVE_FEE_BPS in *.
  assert (Hamount : amount <= MAX_UINT256) by lia.
  assert (Enet : sub_wrap (sub_wrap (sub_wrap amount (amount * 5 / 10000))
                             (amount * 10 / 10000)) (amount * 10 / 10000)
                 = amount - amount * 5 / 10000 - amount * 10 / 10000 - amount * 10 / 10000).
  { unfold MAX_UINT256 in Hamount.
    repeat match goal with
      | |- context [sub_wrap ?a ?b] =>
          lazymatch a with
          | context [sub_wrap] => fail
          | _ => rewrite (sub_wrap_exact a b) by (unfold MAX_UINT256; lia)
          end
      end. reflexivity. }
  rewrite Enet in H. clear Enet.
  step_to H Hin u1 q1.
  apply super_transfer_moves in Hin as (Hc1 & _ & Hf1 & Ht1 & Ho1 & E1); try assumption.
  step_to H Hdist u2 q2.
  pose proof (_distributeDividends_rel d conservation _ _ _ _ _ Hdist Hc1) as Hc2.
  kept (fun s => (_balances s, devAddress s)) Hdist. injection K as Kbal Kdev.
  assert (Hdd : totalDividendsDistributed q2 =
                totalDividendsDistributed s
                + (if (amount * 10 / 10000 =? 0) || (spec_circulating d s - amount =? 0)
                   then 0 else amount * 10 / 10000)).
  { replace (totalDividendsDistributed s) with (totalDividendsDistributed q1)
      by (rewrite E1; reflexivity).
    replace (spec_circulating d s - amount) with (spec_circulating d q1).
    2: { unfold spec_circulating. rewrite Ht1, E1. simpl. lia. }
    clear - Hdist. unfold _distributeDividends in Hdist.
    destruct (amount * 10 / 10000 =? 0); simpl.
    { apply ret_ok in Hdist as (_ & -> & _). lia. }
    step_as Hdist Hcirc. unfold getCirculatingSupply, totalSupply, balanceOf in Hcirc.
    step_as Hcirc Htot. step_in Htot. apply sub_ok in Htot as (-> & ? & -> & ->).
    step_in Hcirc. apply sub_ok in Hcirc as (-> & ? & -> & ->).
    fold (spec_circulating d q1) in Hdist |- *.
    destruct (spec_circulating d q1 =? 0).
    { apply ret_ok in Hdist as (_ & -> & _). lia. }
    do 7 step_in Hdist. apply modify_ok in Hdist as (-> & _). reflexivity. }
  clear Hdist.
  step_to H Hnet u3 q3.
  apply optional_transfer_moves in Hnet as (Hc3 & Hle3 & Hf3 & Ht3 & Ho3 & E3);
    [|assumption|congruence].
  assert (Edev : devAddress q3 = devAddress s).
  { rewrite E3. simpl. rewrite Kdev, E1. reflexivity. }
  assert (Hfee : exists lx,
             when (negb (amount * 5 / 10000 =? 0))
               (super_transfer (this d) (devAddress s) (amount * 5 / 10000)) q3
             = Ok tt s' lx).
  { destruct (amount * 5 / 10000 =? 0); simpl in H |- *.
    - apply ret_ok in H as (_ & -> & _). eexists. reflexivity.
    - step_in H. rewrite Edev in H. eexists. exact H. }
  clear H. destruct Hfee as (lx & Hfee).
  apply optional_transfer_moves in Hfee as (_ & Hle4 & Hf4 & Ht4 & Ho4 & E4);
    [|assumption|congruence].
  rewrite Kbal in *.
  split; [|split; [|split; [|split; [|split]]]].
  - rewrite Ho4, Ho3, Hf1 by congruence. reflexivity.
  - rewrite Ho4, Ht3, Ho1 by congruence. reflexivity.
  - rewrite Ht4, Ho3, Ho1 by congruence. reflexivity.
  - rewrite Hf4, Hf3, Ht1.
    pose proof (transfer_fees_within amount) as Hfees. clear - Hfees.
    generalize dependent (amount * 5 / 10000). generalize dependent (amount * 10 / 10000).
    intros fee devFee Hfees. lia.
  - intros other Hn1 Hn2 Hn3 Hn4. rewrite Ho4, Ho3, Ho1 by congruence. reflexivity.
  - rewrite E4, E3. simpl. exact Hdd.
Qed.

(** X11. The fees of a transfer between wallets.  An accepted transfer
    between two wallets, neither excluded from fees, takes the amount from
    the sender, gives the recipient all but 25 basis points of it, the dev
    address 5, and leaves 20 in the contract's own balance, 10 as reserve fee
    and 10 as reflection fee; the reflection fee is added to
    [totalDividendsDistributed] unless it rounds to nothing or nothing else
    circulates. *)
Theorem X11_transfer_fees
    (d : Deploy) (w : World) (from to amount : N) (s s' : State) (l : list Probe) :
  reachable d s ->
  call d w from (CallTransfer to amount) s = Ok tt s' l ->
  code_length w from = 0 -> code_length w to = 0 ->
  flag (_isExcludedFromFee s) from = false ->
  flag (_isExcludedFromFee s) to = false ->
  from <> this d -> to <> this d -> devAddress s <> this d ->
  from <> to -> from <> devAddress s -> to <> devAddress s ->
  let devFee := amount * 5 / 10000 in
  let fee := amount * 10 / 10000 in
  let netAmount := amount - devFee - fee - fee in
  at_ (_balances s') from = at_ (_balances s) from - amount /\
  at_ (_balances s') to = at_ (_balances s) to + netAmount /\
  at_ (_balances s') (devAddress s) = at_ (_balances s) (devAddress s) + devFee /\
  at_ (_balances s') (this d) = at_ (_balances s) (this d) + fee + fee /\
  (forall other, other <> from -> other <> to -> other <> devAddress s -> other <> this d ->
                 at_ (_balances s') other = at_ (_balances s) other) /\
  totalDividendsDistributed s' =
    totalDividendsDistributed s
    + (if (fee =? 0) || (spec_circulating d s - amount =? 0) then 0 else fee).
Proof.
  intros Hs H Hcf Hct Hef Het Hf Ht Hd Hft Hfd Htd. simpl in H. unfold transfer in H.
  apply reachable_conserved in Hs.
  apply _transfer_opens in H as (s0 & l0 & H & K).
  injection K as Kr Km Kd Kbal Kb Kex Kdev Kp.
  unfold _update in H. do 5 step_in H. cbv zeta in H.
  destruct (N.eqb_spec to (this d)) as [|_]; [contradiction|].
  rewrite Kex, Hef, Het in H. simpl in H.
  apply taxed_transfer_split in H; try assumption; try congruence;
    try (apply (conserved_same s); assumption).
  unfold spec_circulating in *. rewrite Kbal, Kd, Kdev, Kb in H. exact H.
Qed.

Lemma X11_witness :
  let s := after_first_buy usd in
  let s' := after_transfer usd in
  at_ (_balances s') alice = at_ (_balances s) alice - 400000 /\
  at_ (_balances s') bob = at_ (_balances s) bob + 399000 /\
  at_ (_balances s') 2 = at_ (_balances s) 2 + 200 /\
  at_ (_balances s') 1000 = at_ (_balances s) 1000 + 400 + 400 /\
  (forall other, other <> alice -> other <> bob -> other <> 2 -> other <> 1000 ->
                 at_ (_balances s') other = at_ (_balances s) other) /\
  totalDividendsDistributed s' = totalDividendsDistributed s + 400.
Proof.
  cbv zeta.
  refine (X11_transfer_fees usd wallets alice bob 400000 (after_first_buy usd)
            (after_transfer usd) [] _ _ _ _ _ _ _ _ _ _ _ _).
  - apply after_first_buy_reachable. left. reflexivity.
  - vm_compute. reflexivity.
  - reflexivity.
  - reflexivity.
  - vm_compute. reflexivity.
  - vm_compute. reflexivity.
  - discriminate.
  - discriminate.
  - vm_compute. discriminate.
  - discriminate.
  - vm_compute. discriminate.
  - vm_compute. discriminate.
Defined.

(** ** What a transfer requires *)

Lemma _transfer_requires d w from to amount s s' l :
  _transfer d w from to amount s = Ok tt s' l ->
  from <> 0 /\ to <> 0 /\ amount <> 0 /\ amount <= at_ (_balances s) from.
Proof.
  intros H.
  apply _transfer_opens in H as (s0 & l0 & H & K).
  injection K as Kr Km Kd Kbal Kb Kex Kdev Kp.
  unfold _update in H.
  step_as H Hf. step_as H Ht. step_as H Ha. step_in H. step_in H. cbv zeta in H.
  apply N.eqb_neq in Hf, Ht, Ha.
  repeat split; try assumption. rewrite <- Kbal.
  destruct (to =? this d).
  - step_to H Hin u q. apply super_transfer_ok in Hin as (_ & _ & Hle & _). exact Hle.
  - destruct (flag (_isExcludedFromFee s0) from || flag (_isExcludedFromFee s0) to).
    + apply super_transfer_ok in H as (_ & _ & Hle & _). exact Hle.
    + eapply _handleTaxedTransfer_sender_has. eassumption.
Qed.

(** X12. What every transfer requires.  A transfer of nothing, a transfer to
    or from the zero address and a transfer of more than the sender holds are
    rejected, whichever path they would take, through [transfer] and through
    [transferFrom], and change nothing. *)
Theorem X12_transfers_rejected
    (d : Deploy) (w : World) (sender from to amount : N) (s : State) :
  from = 0 \/ to = 0 \/ amount = 0 \/ at_ (_balances s) from < amount ->
  ((exists e, call d w from (CallTransfer to amount) s = Revert e) /\
   execute d w from (CallTransfer to amount) s = s)
  /\
  ((exists e, call d w sender (CallTransferFrom from to amount) s = Revert e) /\
   execute d w sender (CallTransferFrom from to amount) s = s).
Proof.
  intros Hbad.
  assert (Hrej : forall sender c, (exists e, call d w sender c s = Revert e) ->
                                  (exists e, call d w sender c s = Revert e) /\
                                  execute d w sender c s = s).
  { intros sd c [e He]. split; [eauto | eapply execute_reverted; eassumption]. }
  split; apply Hrej; simpl.
  - unfold transfer.
    destruct (_transfer d w from to amount s) as [[] s' l|e] eqn:H; [|eauto].
    apply _transfer_requires in H as (H1 & H2 & H3 & H4). exfalso. lia.
  - destruct (transferFrom d w sender from to amount s) as [[] s' l|e] eqn:H; [|eauto].
    apply transferFrom_ok in H as (s0 & l1 & l2 & _ & _ & Kbal & _ & H).
    apply _transfer_requires in H as (H1 & H2 & H3 & H4). rewrite Kbal in H4.
    exfalso. lia.
Qed.

Lemma X12_witness :
  execute usd wallets alice (CallTransfer bob 0) (after_first_buy usd) = after_first_buy usd /\
  execute usd wallets alice (CallTransfer bob 997501) (after_first_buy usd)
  = after_first_buy usd /\
  execute usd wallets bob (CallTransferFrom alice 0 5) (after_first_buy usd)
  = after_first_buy usd.
Proof.
  split; [|split].
  - refine (proj2 (proj1 (X12_transfers_rejected usd wallets alice alice bob 0
                            (after_first_buy usd) _))).
    right. right. left. reflexivity.
  - refine (proj2 (proj1 (X12_transfers_rejected usd wallets alice alice bob 997501
                            (after_first_buy usd) _))).
    right. right. right. vm_compute. reflexivity.
  - refine (proj2 (proj2 (X12_transfers_rejected usd wallets bob alice 0 5
                            (after_first_buy usd) _))).
    right. left. reflexivity.
Defined.

(** ** Where the tokens of a refund go *)

(** The burn takes from the contract's balance what it adds to the burn
    counter. *)
Lemma burn_within_limit_moves d burned fee s a s' l :
  burn_within_limit d burned fee s = Ok a s' l ->
  totalBurned s <= totalBurned s' /\
  at_ (_balances s') (this d)
  = at_ (_balances s) (this d) - (totalBurned s' - totalBurned s) /\
  (forall other, other <> this d -> at_ (_balances s') other = at_ (_balances s) other) /\
  devAddress s' = devAddress s /\
  totalBurned s' - totalBurned s <= at_ (_balances s) (this d).
Proof.
  intros H. unfold burn_within_limit in H.
  destruct (negb (fee =? 0) && (burned <? BURNING_LIMIT)).
  2: { apply ret_ok in H as (_ & -> & _). repeat split; auto; lia. }
  step_as H Hrem. cbv zeta in H.
  match type of H with when (negb (?x =? 0)) _ _ = _ => set (burnt := x) in * end.
  unfold when in H.
  destruct (negb (burnt =? 0)).
  2: { apply ret_ok in H as (_ & -> & _). repeat split; auto; lia. }
  step_to H Hburn u q. unfold _burn in Hburn.
  step_as Hburn Hz. step_in Hburn. step_as Hburn Hle. step_in Hburn.
  apply modify_ok in Hburn as (-> & _).
  step_in H. step_as H Hadd. apply modify_ok in H as (-> & _).
  apply N.leb_le in Hle. simpl.
  split; [lia|]. split; [|split; [|split; [reflexivity | lia]]].
  - rewrite at_insert_eq. lia.
  - intros other Hne. apply at_insert_ne. congruence.
Qed.

Lemma _handleRefund_moves d w sender gross s s' l :
  _handleRefund d w sender gross s = Ok tt s' l ->
  conserved s -> devAddress s <> this d ->
  totalBurned s <= totalBurned s' /\
  at_ (_balances s') (devAddress s) = at_ (_balances s) (devAddress s) + gross * 5 / 10000 /\
  at_ (_balances s') (this d)
  = at_ (_balances s) (this d) - gross * 5 / 10000 - (totalBurned s' - totalBurned s) /\
  (forall other, other <> this d -> other <> devAddress s ->
                 at_ (_balances s') other = at_ (_balances s) other) /\
  gross * 5 / 10000 + (totalBurned s' - totalBurned s) <= at_ (_balances s) (this d).
Proof.
  intros H Hc Hd. unfold _handleRefund in H.
  apply nonReentrant_ok in H as (Hst & sb & H & ->).
  step_as H Hnz. step_as H Hmin.
  step_to H Hcls c q0. apply isContract_view in Hcls as ->.
  step_to H Hacc u1 q1.
  kept (fun s => (totalBurned s, _balances s, devAddress s)) Hacc.
  injection K as Kb Kbal Kdev. simpl in Kb, Kbal, Kdev. clear Hacc.
  step_in H. step_as H Hdev. step_as H Hrefl.
  step_to H Hburn burnFee q2. step_to H Hres reserveFee q3.
  assert (q2 = q1) as ->.
  { destruct (totalBurned q1 <? BURNING_LIMIT).
    - apply mulDiv_ok in Hburn as (_ & _ & _ & -> & _). reflexivity.
    - apply ret_ok in Hburn as (_ & -> & _). reflexivity. }
  assert (q3 = q1) as ->.
  { destruct (totalBurned q1 <? BURNING_LIMIT);
      apply mulDiv_ok in Hres as (_ & _ & _ & -> & _); reflexivity. }
  clear Hburn Hres.
  step_in H.
  step_as H Hsup. step_as H Hout. step_as H Hccs. step_as H Hccs0.
  step_in H. step_as H Hscaled. step_in H. step_as H Hpay. step_in H.
  step_as H Hsolvent.
  unfold REFUND_DEV_FEE_BPS in *.
  assert (Hc1 : conserved q1) by (apply (conserved_same s); assumption).
  step_to H Hdevt u2 q4.
  assert (Hfee : exists lx,
             when (negb (gross * 5 / 10000 =? 0))
               (super_transfer (this d) (devAddress s) (gross * 5 / 10000)) q1
             = Ok tt q4 lx).
  { destruct u2. destruct (gross * 5 / 10000 =? 0); simpl in Hdevt |- *.
    - apply ret_ok in Hdevt as (_ & -> & _). eexists. reflexivity.
    - step_in Hdevt. rewrite Kdev in Hdevt. eexists. exact Hdevt. }
  clear Hdevt. destruct Hfee as (lx & Hfee).
  apply optional_transfer_moves in Hfee as (_ & Hle4 & Hf4 & Ht4 & Ho4 & E4);
    [|assumption|congruence].
  step_to H Hb u3 q5.
  apply burn_within_limit_moves in Hb as (Hb1 & Hb2 & Hb3 & Hb4 & Hb5).
  step_to H Hdist u4 q6.
  kept (fun s => (totalBurned s, _balances s)) Hdist. injection K as Kb6 Kbal6.
  clear Hdist.
  step_in H. step_as H Hsub. step_in H.
  match type of H with _ ?st = _ => assert (Esb : sb = st) end.
  { destruct (backing d).
    - step_in H. apply revert_if_ok in H as (_ & -> & _). reflexivity.
    - apply require_ok in H as (_ & -> & _). reflexivity. }
  subst sb. simpl.
  assert (Eb4 : totalBurned q4 = totalBurned s) by (rewrite E4; simpl; exact Kb).
  rewrite Kb6, Kbal6, Kbal in *. rewrite Eb4 in *.
  split; [exact Hb1|]. split; [|split; [|split]].
  - rewrite Hb3, Ht4 by congruence. reflexivity.
  - rewrite Hb2, Hf4. reflexivity.
  - intros other Hn1 Hn2. rewrite Hb3, Ho4 by congruence. reflexivity.
  - rewrite Hf4 in Hb5. lia.
Qed.

(** X13. Where the tokens of a refund go.  An accepted refund takes the
    whole amount from the sender; the dev address receives 5 basis points of
    it, the burn (75 per 100000, capped at the headroom, nothing at the
    limit) leaves the supply, and everything else, the tokens paid for
    included, stays in the contract's own balance, from which it can be sold
    again. *)
Theorem X13_refunded_tokens_return_to_the_contract
    (d : Deploy) (w : World) (from amount : N) (s s' : State) (l : list Probe) :
  reachable d s ->
  call d w from (CallTransfer (this d) amount) s = Ok tt s' l ->
  from <> this d -> devAddress s <> this d -> from <> devAddress s ->
  let devFee := amount * 5 / 10000 in
  let burn := if totalBurned s <? BURNING_LIMIT
              then N.min (amount * 75 / 100000) (BURNING_LIMIT - totalBurned s)
              else 0 in
  totalBurned s' = totalBurned s + burn /\
  at_ (_balances s') from = at_ (_balances s) from - amount /\
  at_ (_balances s') (devAddress s) = at_ (_balances s) (devAddress s) + devFee /\
  at_ (_balances s') (this d) = at_ (_balances s) (this d) + amount - devFee - burn /\
  (forall other, other <> from -> other <> this d -> other <> devAddress s ->
                 at_ (_balances s') other = at_ (_balances s) other).
Proof.
  intros Hs H Hf Hd Hfd. cbv zeta. simpl in H. unfold transfer in H.
  apply reachable_conserved in Hs.
  apply _transfer_opens in H as (s0 & l0 & H & K).
  injection K as Kr Km Kd Kbal Kb Kex Kdev Kp.
  unfold _update in H. do 5 step_in H. cbv zeta in H. rewrite N.eqb_refl in H.
  step_to H Hin u q. destruct u.
  apply super_transfer_moves in Hin as (Hc1 & _ & Hf1 & Ht1 & Ho1 & E1);
    [|apply (conserved_same s); assumption|assumption].
  assert (Edev : devAddress q = devAddress s) by (rewrite E1; simpl; exact Kdev).
  assert (Eb : totalBurned q = totalBurned s) by (rewrite E1; simpl; exact Kb).
  pose proof (_handleRefund_ok _ _ _ _ _ _ _ H) as (_ & _ & _ & _ & _ & _ & _ & Hburn & _).
  apply _handleRefund_moves in H as (_ & Hdev & Hthis & Hother & _);
    [|assumption|congruence].
  unfold spec_refund_burn_fee in Hburn.
  rewrite Edev, Eb, Kbal in *.
  assert (Eburn : totalBurned s' - totalBurned s
                  = if totalBurned s <? BURNING_LIMIT
                    then N.min (amount * 75 / 100000) (BURNING_LIMIT - totalBurned s)
                    else 0).
  { rewrite Hburn. destruct (totalBurned s <? BURNING_LIMIT); lia. }
  rewrite Eburn in Hthis.
  split; [|split; [|split; [|split]]].
  - rewrite Hburn. destruct (totalBurned s <? BURNING_LIMIT); reflexivity.
  - rewrite Hother, Hf1 by congruence. reflexivity.
  - rewrite Hdev, Ho1 by congruence. reflexivity.
  - rewrite Hthis, Ht1. reflexivity.
  - intros other Hn1 Hn2 Hn3. rewrite Hother, Ho1 by congruence. reflexivity.
Qed.

Lemma X13_witness :
  let s := after_first_buy usd in
  let s' := after_refund_tx usd in
  totalBurned s' = totalBurned s + 375 /\
  at_ (_balances s') alice = at_ (_balances s) alice - 500000 /\
  at_ (_balances s') 2 = at_ (_balances s) 2 + 250 /\
  at_ (_balances s') 1000 = at_ (_balances s) 1000 + 500000 - 250 - 375 /\
  (forall other, other <> alice -> other <> 1000 -> other <> 2 ->
                 at_ (_balances s') other = at_ (_balances s) other).
Proof.
  cbv zeta.
  refine (X13_refunded_tokens_return_to_the_contract usd wallets alice 500000
            (after_first_buy usd) (after_refund_tx usd) [] _ _ _ _ _).
  - apply after_first_buy_reachable. left. reflexivity.
  - vm_compute. reflexivity.
  - discriminate.
  - vm_compute. discriminate.
  - vm_compute. discriminate.
Defined.

(** ** The owner functions *)

Lemma onlyOwner_ok sender s a s' l :
  onlyOwner sender s = Ok a s' l -> _owner s = sender /\ s' = s.
Proof.
  intros H. unfold onlyOwner in H. step_in H.
  apply require_ok in H as (Ho & -> & _). apply N.eqb_eq in Ho. auto.
Qed.

Lemma onlyOwner_rejects sender s :
  _owner s <> sender -> onlyOwner sender s = Revert NotOwner.
Proof.
  intros Hne. unfold onlyOwner, mbind, M_bind, bind, gets, require.
  apply N.eqb_neq in Hne. rewrite Hne. reflexivity.
Qed.

(** X14. [setDevAddress].  Only the owner can call it, and not with the zero
    address.  It makes the new address the dev address and excludes it from
    fees, and it ends the exclusion of the former dev address, whoever that
    is, unless the two are the same; no other exclusion changes. *)
Theorem X14_setDevAddress (sender _devAddress : address) (s : State) :
  (forall s' l,
      setDevAddress sender _devAddress s = Ok tt s' l ->
      _owner s = sender /\ _devAddress <> 0 /\
      devAddress s' = _devAddress /\
      flag (_isExcludedFromFee s') _devAddress = true /\
      (devAddress s <> _devAddress -> flag (_isExcludedFromFee s') (devAddress s) = false) /\
      (forall other, other <> _devAddress -> other <> devAddress s ->
                     flag (_isExcludedFromFee s') other = flag (_isExcludedFromFee s) other) /\
      _balances s' = _balances s)
  /\
  (_owner s <> sender -> setDevAddress sender _devAddress s = Revert NotOwner)
  /\
  (_owner s = sender -> _devAddress = 0 ->
   setDevAddress sender _devAddress s = Revert dmfUSDAddress).
Proof.
  split; [|split].
  - intros s' l H. unfold setDevAddress in H.
    step_to H Ho u q. apply onlyOwner_ok in Ho as (Ho & ->).
    step_as H Hz. do 2 step_in H. apply modify_ok in H as (-> & _). simpl.
    apply N.eqb_neq in Hz.
    split; [exact Ho|]. split; [exact Hz|]. split; [reflexivity|].
    split; [apply flag_insert_eq|]. split; [|split; [|reflexivity]].
    + intros Hne. unfold flag. rewrite lookup_insert_ne, lookup_insert_eq by congruence.
      reflexivity.
    + intros other H1 H2. unfold flag. rewrite !lookup_insert_ne by congruence.
      reflexivity.
  - intros Hne. unfold setDevAddress.
    unfold mbind at 1, M_bind, bind. rewrite (onlyOwner_rejects _ _ Hne). reflexivity.
  - intros Ho ->. unfold setDevAddress, onlyOwner, mbind, M_bind, bind, gets, require.
    apply N.eqb_eq in Ho. rewrite Ho. reflexivity.
Qed.

Lemma X14_witness :
  let s := after_first_buy usd in
  let s' := state_of (setDevAddress 1 bob s) s in
  (devAddress s' = bob /\
   flag (_isExcludedFromFee s') bob = true /\
   flag (_isExcludedFromFee s') 2 = false) /\
  setDevAddress alice bob s = Revert NotOwner /\
  setDevAddress 1 0 s = Revert dmfUSDAddress.
Proof.
  cbv zeta. split; [|split].
  - destruct (proj1 (X14_setDevAddress 1 bob (after_first_buy usd))
                (state_of (setDevAddress 1 bob (after_first_buy usd)) (after_first_buy usd))
                [])
      as (_ & _ & Hd & Hn & Ho & _).
    + vm_compute. reflexivity.
    + split; [exact Hd|]. split; [exact Hn|]. apply Ho. vm_compute. discriminate.
  - apply (proj1 (proj2 (X14_setDevAddress alice bob (after_first_buy usd)))).
    vm_compute. discriminate.
  - apply (proj2 (proj2 (X14_setDevAddress 1 0 (after_first_buy usd)))); reflexivity.
Defined.

(** Every entry point but the two owner functions leaves the fee exclusions
    and the dev address alone. *)
Lemma call_keeps_exclusions d w sender c :
  (forall a, c <> CallSetDevAddress a) ->
  (forall a b, c <> CallExcludeFromFee a b) ->
  rel (keeps (fun s => (_isExcludedFromFee s, devAddress s))) (call d w sender c).
Proof.
  intros Hc Hc'.
  destruct c;
    try solve [exfalso; eapply Hc; reflexivity | exfalso; eapply Hc'; reflexivity];
    unfold_entry; rel_walk.
Qed.

(** X15. Fee exclusions.  [excludeFromFee] can be called by the owner only
    and not for the zero address; it sets the exclusion of the one account as
    asked and changes no other.  Apart from it and [setDevAddress] no entry
    point changes an exclusion or the dev address. *)
Theorem X15_fee_exclusions (d : Deploy) (w : World) (sender : address) (s : State) :
  (forall account isExcluded s' l,
      excludeFromFee sender account isExcluded s = Ok tt s' l ->
      _owner s = sender /\ account <> 0 /\
      flag (_isExcludedFromFee s') account = isExcluded /\
      (forall other, other <> account ->
                     flag (_isExcludedFromFee s') other = flag (_isExcludedFromFee s) other) /\
      devAddress s' = devAddress s)
  /\
  (forall account isExcluded,
      _owner s <> sender \/ account = 0 ->
      exists e, excludeFromFee sender account isExcluded s = Revert e)
  /\
  (forall c s' l,
      (forall a, c <> CallSetDevAddress a) ->
      (forall a b, c <> CallExcludeFromFee a b) ->
      call d w sender c s = Ok tt s' l ->
      _isExcludedFromFee s' = _isExcludedFromFee s /\ devAddress s' = devAddress s).
Proof.
  split; [|split].
  - intros account b s' l H. unfold excludeFromFee in H.
    step_to H Ho u q. apply onlyOwner_ok in Ho as (Ho & ->).
    step_as H Hz. apply modify_ok in H as (-> & _). simpl.
    apply N.eqb_neq in Hz.
    split; [exact Ho|]. split; [exact Hz|]. split; [apply flag_insert_eq|].
    split; [|reflexivity].
    intros other Hne. unfold flag. rewrite lookup_insert_ne by congruence. reflexivity.
  - intros account b Hbad.
    destruct (excludeFromFee sender account b s) as [[] s' l|e] eqn:H; [|eauto].
    exfalso. unfold excludeFromFee in H.
    step_to H Ho u q. apply onlyOwner_ok in Ho as (Ho & ->).
    step_as H Hz. apply N.eqb_neq in Hz. destruct Hbad; contradiction.
  - intros c s' l Hc Hc' H.
    apply (call_keeps_exclusions d w sender c Hc Hc') in H. red in H.
    injection H as -> ->. auto.
Qed.

Lemma X15_witness :
  flag (_isExcludedFromFee (after_exclusion usd)) alice = true /\
  (exists e, excludeFromFee alice bob true (after_first_buy usd) = Revert e) /\
  _isExcludedFromFee (after_transfer usd) = _isExcludedFromFee (after_first_buy usd).
Proof.
  split; [|split].
  - refine (proj1 (proj2 (proj2 (proj1 (X15_fee_exclusions usd wallets 1 (after_first_buy usd))
                                   alice true (after_exclusion usd) [] _)))).
    vm_compute. reflexivity.
  - refine (proj1 (proj2 (X15_fee_exclusions usd wallets alice (after_first_buy usd)))
              bob true _).
    left. vm_compute. discriminate.
  - refine (proj1 (proj2 (proj2 (X15_fee_exclusions usd wallets alice (after_first_buy usd)))
                     (CallTransfer bob 400000) (after_transfer usd) [] _ _ _)).
    + discriminate.
    + discriminate.
    + vm_compute. reflexivity.
Defined.

(** ** Ownership in two steps *)

(** Every entry point but the three of [Ownable2Step] leaves the owner and
    the pending owner alone. *)
Lemma call_keeps_owner d w sender c :
  (forall a, c <> CallTransferOwnership a) ->
  c <> CallAcceptOwnership -> c <> CallRenounceOwnership ->
  rel (keeps (fun s => (_owner s, _pendingOwner s))) (call d w sender c).
Proof.
  intros Hc Hc' Hc''.
  destruct c;
    try solve [exfalso; eapply Hc; reflexivity | contradiction];
    unfold_entry; rel_walk.
Qed.

(** X16. Ownership changes hands in two steps.  [transferOwnership], which
    only the owner can call, names a pending owner and leaves the owner in
    place; [acceptOwnership] succeeds for the pending owner alone and makes
    it the owner, with no one pending; and no entry point other than these
    two and [renounceOwnership] changes the owner or the pending owner. *)
Theorem X16_ownership_in_two_steps (d : Deploy) (w : World) (sender : address) (s : State) :
  (forall newOwner s' l,
      transferOwnership sender newOwner s = Ok tt s' l ->
      _owner s = sender /\ _owner s' = _owner s /\ _pendingOwner s' = newOwner)
  /\
  (forall s' l,
      acceptOwnership sender s = Ok tt s' l ->
      _pendingOwner s = sender /\ _owner s' = sender /\ _pendingOwner s' = 0)
  /\
  (_pendingOwner s <> sender -> acceptOwnership sender s = Revert NotOwner)
  /\
  (forall c s' l,
      (forall a, c <> CallTransferOwnership a) ->
      c <> CallAcceptOwnership -> c <> CallRenounceOwnership ->
      call d w sender c s = Ok tt s' l ->
      _owner s' = _owner s /\ _pendingOwner s' = _pendingOwner s).
Proof.
  split; [|split; [|split]].
  - intros newOwner s' l H. unfold transferOwnership in H.
    step_to H Ho u q. apply onlyOwner_ok in Ho as (Ho & ->).
    apply modify_ok in H as (-> & _). simpl. auto.
  - intros s' l H. unfold acceptOwnership in H.
    step_in H. step_as H Hp. apply N.eqb_eq in Hp.
    unfold _transferOwnership in H. step_in H. apply modify_ok in H as (-> & _).
    simpl. auto.
  - intros Hne. unfold acceptOwnership, mbind, M_bind, bind, gets, require.
    apply N.eqb_neq in Hne. rewrite Hne. reflexivity.
  - intros c s' l Hc Hc' Hc'' H.
    apply (call_keeps_owner d w sender c Hc Hc' Hc'') in H. red in H.
    injection H as -> ->. auto.
Qed.

Lemma X16_witness :
  let s := after_first_buy usd in
  let pending := state_of (transferOwnership 1 bob s) s in
  let accepted := state_of (acceptOwnership bob pending) pending in
  (_owner pending = _owner s /\ _pendingOwner pending = bob) /\
  (_owner accepted = bob /\ _pendingOwner accepted = 0) /\
  acceptOwnership alice pending = Revert NotOwner /\
  _owner (after_transfer usd) = _owner s.
Proof.
  cbv zeta. split; [|split; [|split]].
  - refine (proj2 (proj1 (X16_ownership_in_two_steps usd wallets 1 (after_first_buy usd))
                     bob _ [] _)).
    vm_compute. reflexivity.
  - refine (proj2 (proj1 (proj2 (X16_ownership_in_two_steps usd wallets bob
                                   (state_of (transferOwnership 1 bob (after_first_buy usd))
                                      (after_first_buy usd))))
                     _ [] _)).
    vm_compute. reflexivity.
  - refine (proj1 (proj2 (proj2 (X16_ownership_in_two_steps usd wallets alice
                                   (state_of (transferOwnership 1 bob (after_first_buy usd))
                                      (after_first_buy usd))))) _).
    vm_compute. discriminate.
  - refine (proj1 (proj2 (proj2 (proj2 (X16_ownership_in_two_steps usd wallets alice
                                          (after_first_buy usd))))
                     (CallTransfer bob 400000) (after_transfer usd) [] _ _ _ _)).
    + discriminate.
    + discriminate.
    + discriminate.
    + vm_compute. reflexivity.
Defined.

(** X17. Renouncing is final.  [renounceOwnership] leaves the contract with
    no owner and no pending owner; from then on no transaction of a sender
    other than the zero address brings an owner back, and the owner
    functions are rejected. *)
Theorem X17_renouncing_is_final (d : Deploy) (w : World) :
  (forall sender s s' l,
      renounceOwnership sender s = Ok tt s' l ->
      _owner s = sender /\ _owner s' = 0 /\ _pendingOwner s' = 0)
  /\
  (forall sender c s,
      _owner s = 0 -> _pendingOwner s = 0 -> sender <> 0 ->
      _owner (execute d w sender c s) = 0 /\
      _pendingOwner (execute d w sender c s) = 0 /\
      (forall a b,
          setDevAddress sender a s = Revert NotOwner /\
          excludeFromFee sender a b s = Revert NotOwner /\
          transferOwnership sender a s = Revert NotOwner /\
          acceptOwnership sender s = Revert NotOwner /\
          renounceOwnership sender s = Revert NotOwner)).
Proof.
  split.
  - intros sender s s' l H. unfold renounceOwnership in H.
    step_to H Ho u q. apply onlyOwner_ok in Ho as (Ho & ->).
    unfold _transferOwnership in H. step_in H. apply modify_ok in H as (-> & _).
    simpl. auto.
  - intros sender c s Ho Hp Hs.
    assert (Hrej : onlyOwner sender s = Revert NotOwner).
    { apply onlyOwner_rejects. congruence. }
    assert (Hacc : acceptOwnership sender s = Revert NotOwner).
    { unfold acceptOwnership, mbind, M_bind, bind, gets, require.
      rewrite Hp. replace (0 =? sender) with false; [reflexivity|].
      symmetry. apply N.eqb_neq. congruence. }
    assert (Hkeep : _owner (execute d w sender c s) = 0 /\
                    _pendingOwner (execute d w sender c s) = 0).
    { unfold execute. destruct (call d w sender c s) as [[] s' l|e] eqn:H; [|auto].
      destruct c;
        try (apply (call_keeps_owner d w sender) in H; [|discriminate ..];
             red in H; injection H as -> ->; auto).
      - simpl in H. unfold transferOwnership, mbind, M_bind, bind in H.
        rewrite Hrej in H. discriminate.
      - simpl in H. congruence.
      - simpl in H. unfold renounceOwnership, mbind, M_bind, bind in H.
        rewrite Hrej in H. discriminate. }
    destruct Hkeep as [Hk1 Hk2]. split; [exact Hk1|]. split; [exact Hk2|].
    intros a b.
    repeat split; try exact Hacc;
      unfold setDevAddress, excludeFromFee, transferOwnership, renounceOwnership;
      unfold mbind at 1, M_bind, bind; rewrite Hrej; reflexivity.
Qed.

Lemma X17_witness :
  let s := after_first_buy usd in
  let renounced := state_of (renounceOwnership 1 s) s in
  (_owner renounced = 0 /\ _pendingOwner renounced = 0) /\
  _owner (execute usd wallets alice (CallTransferOwnership alice) renounced) = 0 /\
  _owner (execute usd wallets alice CallAcceptOwnership renounced) = 0 /\
  setDevAddress alice bob renounced = Revert NotOwner.
Proof.
  cbv zeta. split; [|split; [|split]].
  - refine (proj2 (proj1 (X17_renouncing_is_final usd wallets) 1 (after_first_buy usd) _ [] _)).
    vm_compute. reflexivity.
  - refine (proj1 (proj2 (X17_renouncing_is_final usd wallets) alice
                     (CallTransferOwnership alice) _ _ _ _)).
    + vm_compute. reflexivity.
    + vm_compute. reflexivity.
    + discriminate.
  - refine (proj1 (proj2 (X17_renouncing_is_final usd wallets) alice
                     CallAcceptOwnership _ _ _ _)).
    + vm_compute. reflexivity.
    + vm_compute. reflexivity.
    + discriminate.
  - refine (proj1 (proj2 (proj2 (proj2 (X17_renouncing_is_final usd wallets) alice
                                   (CallTransferOwnership alice)
                                   (state_of (renounceOwnership 1 (after_first_buy usd))
                                      (after_first_buy usd)) _ _ _))
                     bob true)).
    + vm_compute. reflexivity.
    + vm_compute. reflexivity.
    + discriminate.
Defined.

(** ** Allowances *)

Lemma _approve_ok owner spender amount s a s' l :
  _approve owner spender amount s = Ok a s' l ->
  owner <> 0 /\ spender <> 0 /\
  s' = set_allowances (<[(owner, spender) := amount]> (_allowances s)) s.
Proof.
  intros H. unfold _approve in H. step_as H Ho. step_as H Hs.
  apply modify_ok in H as (-> & _).
  apply negb_true_iff, N.eqb_neq in Ho, Hs. auto.
Qed.

Lemma _transfer_keeps_allowances d w from to amount :
  rel (keeps _allowances) (_transfer d w from to amount).
Proof. unfold_entry. rel_walk. Qed.

(** X18. [transferFrom] and the allowance.  An accepted [transferFrom]
    lowers the allowance the holder gave the caller by the amount moved,
    fees included; an allowance of the maximal value is unlimited and stays
    as it is; no other allowance changes; and a call for more than a limited
    allowance covers is rejected. *)
Theorem X18_transferFrom_spends_the_allowance
    (d : Deploy) (w : World) (sender from to amount : N) (s : State) :
  let granted := default 0 (_allowances s !! (from, sender)) in
  (forall s' l,
      transferFrom d w sender from to amount s = Ok tt s' l ->
      default 0 (_allowances s' !! (from, sender))
      = (if granted =? MAX_UINT256 then granted else granted - amount) /\
      (granted <> MAX_UINT256 -> amount <= granted) /\
      (forall holder spender, (holder, spender) <> (from, sender) ->
                              _allowances s' !! (holder, spender)
                              = _allowances s !! (holder, spender)))
  /\
  (granted <> MAX_UINT256 -> granted < amount ->
   transferFrom d w sender from to amount s = Revert ERC20Allowance).
Proof.
  cbv zeta. split.
  - intros s' l H. unfold transferFrom in H.
    step_to H Hspend u q.
    apply (_transfer_keeps_allowances d w) in H. red in H. rewrite H. clear H.
    unfold _spendAllowance, allowance in Hspend. step_in Hspend.
    destruct (N.eqb_spec (default 0 (_allowances s !! (from, sender))) MAX_UINT256) as [E|E].
    + apply ret_ok in Hspend as (_ & -> & _). split; [reflexivity|]. split; [congruence|].
      reflexivity.
    + step_as Hspend Hle. apply N.leb_le in Hle.
      apply _approve_ok in Hspend as (_ & _ & ->). simpl.
      rewrite lookup_insert_eq. split; [reflexivity|]. split; [auto|].
      intros holder spender Hne. apply lookup_insert_ne. congruence.
  - intros Hlim Hlt. unfold transferFrom, _spendAllowance, allowance.
    unfold mbind, M_bind, bind, gets, require.
    apply N.eqb_neq in Hlim. rewrite Hlim.
    replace (amount <=? default 0 (_allowances s !! (from, sender))) with false
      by (symmetry; apply N.leb_gt; exact Hlt).
    reflexivity.
Qed.

Lemma X18_witness :
  let s := after_approval usd in
  let s' := execute usd wallets bob (CallTransferFrom alice bob 200000) s in
  default 0 (_allowances s' !! (alice, bob)) = 300000 - 200000 /\
  transferFrom usd wallets bob alice bob 300001 s = Revert ERC20Allowance.
Proof.
  cbv zeta. split.
  - refine (proj1 (proj1 (X18_transferFrom_spends_the_allowance usd wallets bob alice bob
                            200000 (after_approval usd)) _ [] _)).
    vm_compute. reflexivity.
  - refine (proj2 (X18_transferFrom_spends_the_allowance usd wallets bob alice bob
                     300001 (after_approval usd)) _ _).
    + vm_compute. discriminate.
    + vm_compute. reflexivity.
Defined.

(** X19. Raising and lowering an allowance.  [approve] sets the allowance of
    the one spender to the value given.  [decreaseAllowance] by more than the
    allowance is rejected with the contract's own [InsufficientBalance]
    error; and after an accepted [increaseAllowance], [decreaseAllowance] by
    the same value is accepted and restores the allowance. *)
Theorem X19_allowance_round_trip (sender spender value : N) (s : State) :
  (forall s' l,
      approve sender spender value s = Ok tt s' l ->
      sender <> 0 /\ spender <> 0 /\
      default 0 (_allowances s' !! (sender, spender)) = value /\
      (forall holder other, (holder, other) <> (sender, spender) ->
                            _allowances s' !! (holder, other)
                            = _allowances s !! (holder, other)))
  /\
  (default 0 (_allowances s !! (sender, spender)) < value ->
   decreaseAllowance sender spender value s = Revert InsufficientBalance)
  /\
  (forall s1 l1,
      increaseAllowance sender spender value s = Ok tt s1 l1 ->
      default 0 (_allowances s1 !! (sender, spender))
      = default 0 (_allowances s !! (sender, spender)) + value /\
      exists s2,
        decreaseAllowance sender spender value s1 = Ok tt s2 [] /\
        default 0 (_allowances s2 !! (sender, spender))
        = default 0 (_allowances s !! (sender, spender))).
Proof.
  split; [|split].
  - intros s' l H. unfold approve in H.
    apply _approve_ok in H as (Ho & Hs & ->). simpl. rewrite lookup_insert_eq.
    repeat split; auto.
    intros holder other Hne. apply lookup_insert_ne. congruence.
  - intros Hlt. unfold decreaseAllowance, allowance, mbind, M_bind, bind, gets, revert_if.
    apply N.ltb_lt in Hlt. rewrite Hlt. reflexivity.
  - intros s1 l1 H. unfold increaseAllowance, allowance in H.
    step_in H. step_as H Hadd.
    apply _approve_ok in H as (Ho & Hs & ->). simpl. rewrite lookup_insert_eq.
    split; [reflexivity|].
    eexists. split.
    + unfold decreaseAllowance, allowance, _approve, mbind, M_bind, bind, gets, revert_if,
        require, modify. simpl. rewrite lookup_insert_eq. simpl.
      replace (default 0 (_allowances s !! (sender, spender)) + value <? value) with false
        by (symmetry; apply N.ltb_ge; lia).
      apply N.eqb_neq in Ho, Hs. rewrite Ho, Hs. simpl. reflexivity.
    + simpl. rewrite lookup_insert_eq. simpl.
      rewrite sub_wrap_exact by (try assumption; lia). lia.
Qed.

Lemma X19_witness :
  default 0 (_allowances (after_approval usd) !! (alice, bob)) = 300000 /\
  decreaseAllowance alice bob 300001 (after_approval usd) = Revert InsufficientBalance /\
  exists s2,
    decreaseAllowance alice bob 5
      (state_of (increaseAllowance alice bob 5 (after_approval usd)) (after_approval usd))
    = Ok tt s2 [] /\
    default 0 (_allowances s2 !! (alice, bob))
    = default 0 (_allowances (after_approval usd) !! (alice, bob)).
Proof.
  split; [|split].
  - refine (proj1 (proj2 (proj2 (proj1 (X19_allowance_round_trip alice bob 300000
                                          (after_first_buy usd))
                                   (after_approval usd) [] _)))).
    vm_compute. reflexivity.
  - refine (proj1 (proj2 (X19_allowance_round_trip alice bob 300001 (after_approval usd))) _).
    vm_compute. reflexivity.
  - refine (proj2 (proj2 (proj2 (X19_allowance_round_trip alice bob 5 (after_approval usd)))
                     _ [] _)).
    vm_compute. reflexivity.
Defined.

(** ** Deployment *)

Lemma constructor_ok d deployer o dev s0 s l :
  constructor d deployer o dev s0 = Ok tt s l ->
  o <> 0 /\ dev <> 0 /\
  match backing d with NativeUSDC => True | TokenEURC eurc => eurc <> 0 end /\
  this d <> 0 /\
  s = set_owner o
        (set_pendingOwner 0
           (set_isExcludedFromFee
              (<[dev := true]> (<[o := true]> (<[this d := true]> (_isExcludedFromFee s0))))
              (set_balances
                 (<[this d := add_wrap (at_ (_balances s0) (this d)) TOTAL_SUPPLY]>
                    (_balances s0))
                 (set_totalSupply (_totalSupply s0 + TOTAL_SUPPLY)
                    (set_devAddress dev (set_owner deployer (set_pendingOwner 0 s0))))))).
Proof.
  intros H. unfold constructor in H.
  step_to H Hown u1 q1.
  unfold _transferOwnership in Hown. step_in Hown. apply modify_ok in Hown as (-> & _).
  step_as H Ho. step_as H Hd.
  step_to H Hback u2 q2.
  assert (Hb : match backing d with NativeUSDC => True | TokenEURC eurc => eurc <> 0 end
               /\ q2 = set_owner deployer (set_pendingOwner 0 s0)).
  { destruct (backing d).
    - apply ret_ok in Hback as (_ & -> & _). auto.
    - apply revert_if_ok in Hback as (Hz & -> & _). apply N.eqb_neq in Hz. auto. }
  destruct Hb as (Hb & ->). clear Hback.
  step_in H. step_to H Hmint u3 q3.
  unfold _mint in Hmint. step_as Hmint Hz. step_in Hmint. step_as Hmint Hadd.
  step_in Hmint. apply modify_ok in Hmint as (-> & _).
  do 3 step_in H.
  unfold _transferOwnership in H. step_in H. apply modify_ok in H as (-> & _).
  apply N.eqb_neq in Ho, Hd. apply negb_true_iff, N.eqb_neq in Hz.
  repeat split; assumption.
Qed.

(** X20. Deployment.  The constructor rejects a zero owner and a zero dev
    address.  When it succeeds the contract holds the whole supply and no
    one else holds anything; the owner is the one given, with no one
    pending; exactly the contract, the owner and the dev address are
    excluded from fees; and the reserve and all counters are zero. *)
Theorem X20_deployment (d : Deploy) (deployer _initialOwner _devAddress : address) :
  (forall s l,
      constructor d deployer _initialOwner _devAddress empty_storage = Ok tt s l ->
      _initialOwner <> 0 /\ _devAddress <> 0 /\
      _owner s = _initialOwner /\ _pendingOwner s = 0 /\ devAddress s = _devAddress /\
      at_ (_balances s) (this d) = TOTAL_SUPPLY /\
      (forall other, other <> this d -> at_ (_balances s) other = 0) /\
      (forall a, flag (_isExcludedFromFee s) a
                 = (a =? this d) || (a =? _initialOwner) || (a =? _devAddress)) /\
      (usdcReserves s, totalBurned s, tokensSold s, magnifiedDividendPerShare s,
       totalDividendsDistributed s) = (0, 0, 0, 0, 0) /\
      _status s = NOT_ENTERED)
  /\
  (_initialOwner = 0 \/ _devAddress = 0 ->
   exists e, constructor d deployer _initialOwner _devAddress empty_storage = Revert e).
Proof.
  split.
  - intros s l H. apply constructor_ok in H as (Ho & Hd & _ & _ & ->). simpl.
    split; [exact Ho|]. split; [exact Hd|]. do 3 (split; [reflexivity|]).
    split; [|split; [|split; [|split; reflexivity]]].
    + rewrite at_insert_eq. change (at_ ∅ (this d)) with 0.
      apply add_wrap_exact. vm_compute. discriminate.
    + intros other Hne. rewrite at_insert_ne by congruence. reflexivity.
    + intros a. unfold flag.
      destruct (N.eqb_spec a _devAddress) as [->|H1].
      { rewrite lookup_insert_eq. simpl. rewrite !orb_true_r. reflexivity. }
      rewrite lookup_insert_ne by congruence.
      destruct (N.eqb_spec a _initialOwner) as [->|H2].
      { rewrite lookup_insert_eq. simpl. rewrite orb_true_r. reflexivity. }
      rewrite lookup_insert_ne by congruence.
      destruct (N.eqb_spec a (this d)) as [->|H3].
      { rewrite lookup_insert_eq. reflexivity. }
      rewrite lookup_insert_ne by congruence. reflexivity.
  - intros Hbad.
    destruct (constructor d deployer _initialOwner _devAddress empty_storage)
      as [[] s l|e] eqn:H; [|eauto].
    apply constructor_ok in H as (Ho & Hd & _). destruct Hbad; contradiction.
Qed.

Lemma X20_witness :
  at_ (_balances (genesis usd)) 1000 = TOTAL_SUPPLY /\
  flag (_isExcludedFromFee (genesis eur)) 2 = true /\
  exists e, constructor usd 1 0 2 empty_storage = Revert e.
Proof.
  split; [|split].
  - refine (proj1 (proj2 (proj2 (proj2 (proj2 (proj2
              (proj1 (X20_deployment usd 1 1 2) (genesis usd) [] _))))))).
    vm_compute. reflexivity.
  - refine (proj1 (proj2 (proj2 (proj2 (proj2 (proj2 (proj2 (proj2
              (proj1 (X20_deployment eur 1 1 2) (genesis eur) [] _)))))))) 2).
    vm_compute. reflexivity.
  - refine (proj2 (X20_deployment usd 1 0 2) _). left. reflexivity.
Defined.

(** ** The backing of the tokens that stay in circulation *)

Lemma tokensForRefund_below burned amount :
  spec_tokensForRefund burned amount + amount * 5 / 10000 <= amount.
Proof.
  unfold spec_tokensForRefund, spec_refund_dev_fee. 
  assert (amount * 5 / 10000 <= amount) by lia.
  generalize dependent (amount * 5 / 10000). intros devFee Hd.
  generalize (spec_refund_reflection_fee amount) (spec_refund_burn_fee burned amount)
    (spec_refund_reserve_fee burned amount).
  intros. lia.
Qed.

Lemma getBackingPerToken_ok d s b s' l :
  getBackingPerToken d s = Ok b s' l ->
  s' = s /\
  b = if spec_circulating d s =? 0 then 0
      else usdcReserves s * 1000000 / spec_circulating d s.
Proof.
  intros H. unfold getBackingPerToken in H.
  step_to H Hcirc c q. unfold getCirculatingSupply, totalSupply, balanceOf in Hcirc.
  step_as Hcirc Htot. step_in Htot. apply sub_ok in Htot as (-> & ? & -> & ->).
  step_in Hcirc. apply sub_ok in Hcirc as (-> & ? & -> & _).
  fold (spec_circulating d s) in H |- *.
  destruct (spec_circulating d s =? 0).
  - apply ret_ok in H as (-> & -> & _). auto.
  - step_in H. step_as H Hmul. apply div_ok in H as (-> & _ & -> & _). auto.
Qed.

Lemma quotient_grows a b c e :
  b <> 0 -> e <> 0 -> a * e <= c * b -> a * 1000000 / b <= c * 1000000 / e.
Proof.
  intros Hb He Hle.
  apply N.div_le_lower_bound; [exact He|].
  pose proof (N.Div0.mul_div_le (a * 1000000) b) as Hq.
  generalize dependent (a * 1000000 / b). intros q Hq.
  assert (b * (e * q) <= b * (c * 1000000)) by nia.
  apply N.mul_le_mono_pos_l in H; lia.
Qed.

(** X21. A refund does not dilute the backing.  The reserve per token in
    circulation outside the contract is, after an accepted refund, at least
    what it was before it: the refund pays for fewer tokens than leave the
    circulation, and at 99.9% of their share at most.  So the answer of
    [getBackingPerToken] does not go down across a refund. *)
Theorem X21_refund_does_not_dilute_the_backing
    (d : Deploy) (w : World) (from amount : N) (s s' : State) (l : list Probe) :
  reachable d s ->
  call d w from (CallTransfer (this d) amount) s = Ok tt s' l ->
  from <> this d -> devAddress s <> this d ->
  spec_circulating d s' = spec_circulating d s - amount + amount * 5 / 10000 /\
  (usdcReserves s - usdcReserves s') * spec_circulating d s <= amount * usdcReserves s /\
  usdcReserves s * spec_circulating d s' <= usdcReserves s' * spec_circulating d s /\
  (forall before after lb la,
      getBackingPerToken d s = Ok before s lb ->
      getBackingPerToken d s' = Ok after s' la ->
      before <= after).
Proof.
  intros Hs H Hf Hd. simpl in H. unfold transfer in H.
  apply reachable_conserved in Hs.
  destruct (refund_tx_payout _ _ _ _ _ _ _ H Hf Hs) as (Hmin & Hle & Hcirc & Hpay & Hres).
  apply _transfer_opens in H as (s0 & l0 & H & K).
  injection K as Kr Km Kd Kbal Kb Kex Kdev Kp.
  unfold _update in H. do 5 step_in H. cbv zeta in H. rewrite N.eqb_refl in H.
  step_to H Hin u q. destruct u.
  apply super_transfer_moves in Hin as (Hc1 & _ & Hf1 & Ht1 & Ho1 & E1);
    [|apply (conserved_same s); assumption|assumption].
  assert (Edev : devAddress q = devAddress s) by (rewrite E1; simpl; exact Kdev).
  assert (Eb : totalBurned q = totalBurned s) by (rewrite E1; simpl; exact Kb).
  apply _handleRefund_moves in H as (Hb & _ & Hthis & _ & Hin); [|assumption|congruence].
  rewrite Eb, Kbal in *.
  pose proof (two_le_ledger_sum (_balances s) from (this d) Hf) as Hsum.
  pose proof (tokensForRefund_below (totalBurned s) amount) as Htfr.
  assert (Ecirc : spec_circulating d s'
                  = spec_circulating d s - amount + amount * 5 / 10000).
  { unfold spec_circulating, conserved in *. rewrite Hthis, Ht1.
    clear - Hs Hsum Hle Hb Hin Ht1.
    generalize dependent (amount * 5 / 10000). intros devFee Hin. lia. }
  split; [exact Ecirc|].
  assert (Hfee : amount * 5 / 10000 <> 0).
  { unfold MINIMUM_PURCHASE_USDC in Hmin. clear - Hmin. lia. }
  set (R := usdcReserves s) in *. set (circ := spec_circulating d s) in *.
  set (tfr := spec_tokensForRefund (totalBurned s) amount) in *.
  assert (Hshare : tfr * (R * 999 / 1000) / circ * circ <= tfr * R).
  { etransitivity; [rewrite N.mul_comm; apply N.Div0.mul_div_le|].
    apply N.mul_le_mono_l. lia. }
  assert (Hac : amount <= circ).
  { unfold circ, spec_circulating, conserved in *. lia. }
  assert (Hmain : (R - usdcReserves s') * circ <= amount * R /\
                  R * spec_circulating d s' <= usdcReserves s' * circ).
  { rewrite Hres, Ecirc.
    clear - Hshare Htfr Hac Hpay.
    generalize dependent (tfr * (R * 999 / 1000) / circ). intros paid Hshare Hpay.
    generalize dependent (amount * 5 / 10000). intros devFee Htfr.
    replace (R - (R - paid)) with paid by lia.
    split; [nia|].
    assert (R * (circ - amount + devFee) <= R * (circ - tfr))
      by (apply N.mul_le_mono_l; lia).
    assert ((R - paid) * circ = R * circ - paid * circ) by nia.
    assert (R * (circ - tfr) = R * circ - tfr * R) by nia.
    lia. }
  destruct Hmain as [Hm1 Hm2]. split; [exact Hm1|]. split; [exact Hm2|].
  intros before after lb la Hbefore Hafter.
  apply getBackingPerToken_ok in Hbefore as (_ & ->).
  apply getBackingPerToken_ok in Hafter as (_ & ->).
  fold circ R.
  assert (Hc' : spec_circulating d s' <> 0) by (rewrite Ecirc; clear - Hfee; lia).
  apply N.eqb_neq in Hcirc as E1'. apply N.eqb_neq in Hc' as E2'. rewrite E1', E2'.
  apply quotient_grows; assumption.
Qed.

Lemma X21_witness :
  let s := after_first_buy usd in
  let s' := after_refund_tx usd in
  spec_circulating usd s' = spec_circulating usd s - 500000 + 500000 * 5 / 10000 /\
  (usdcReserves s - usdcReserves s') * spec_circulating usd s <= 500000 * usdcReserves s /\
  usdcReserves s * spec_circulating usd s' <= usdcReserves s' * spec_circulating usd s /\
  (forall before after lb la,
      getBackingPerToken usd s = Ok before s lb ->
      getBackingPerToken usd s' = Ok after s' la ->
      before <= after).
Proof.
  cbv zeta.
  refine (X21_refund_does_not_dilute_the_backing usd wallets alice 500000
            (after_first_buy usd) (after_refund_tx usd) [] _ _ _ _).
  - apply after_first_buy_reachable. left. reflexivity.
  - vm_compute. reflexivity.
  - discriminate.
  - vm_compute. discriminate.
Defined.

(** ** The two supply counters *)

(** The burn of a refund lowers the one counter by what it adds to the
    other. *)
Lemma burn_within_limit_agreement d burned fee s a s' l :
  burn_within_limit d burned fee s = Ok a s' l ->
  totalBurned s = burned -> supply_agrees s -> supply_agrees s'.
Proof.
  intros H Eb Hs. unfold burn_within_limit in H.
  destruct (negb (fee =? 0) && (burned <? BURNING_LIMIT)).
  2: { apply ret_ok in H as (_ & -> & _). exact Hs. }
  step_as H Hrem. cbv zeta in H.
  match type of H with when (negb (?x =? 0)) _ _ = _ => set (burnt := x) in * end.
  unfold when in H.
  destruct (negb (burnt =? 0)).
  2: { apply ret_ok in H as (_ & -> & _). exact Hs. }
  step_to H Hburn u q. unfold _burn in Hburn.
  step_as Hburn Hz. step_in Hburn. step_as Hburn Hle. step_in Hburn.
  apply modify_ok in Hburn as (-> & _).
  step_in H. step_as H Hadd. apply modify_ok in H as (-> & _).
  unfold supply_agrees in *. simpl in *.
  assert (Hb : burnt <= BURNING_LIMIT - burned).
  { subst burnt. destruct (N.ltb_spec (BURNING_LIMIT - burned) fee); lia. }
  assert (HT : TOTAL_SUPPLY <= MAX_UINT256) by apply TOTAL_SUPPLY_fits.
  assert (HL : BURNING_LIMIT <= TOTAL_SUPPLY) by (vm_compute; discriminate).
  rewrite sub_wrap_exact by lia. lia.
Qed.

Lemma _handleRefund_agreement d w sender gross :
  rel supply_agreement (_handleRefund d w sender gross).
Proof.
  intros s [] s' l H Hs. unfold _handleRefund in H.
  apply nonReentrant_ok in H as (Hst & sb & H & ->).
  step_as H Hnz. step_as H Hmin.
  step_to H Hcls c q0. apply isContract_view in Hcls as ->.
  step_to H Hacc u1 q1.
  kept (fun s => (_totalSupply s, totalBurned s)) Hacc.
  injection K as Kt Kb. simpl in Kt, Kb. clear Hacc.
  step_in H. step_as H Hdev. step_as H Hrefl.
  step_to H Hburn burnFee q2. step_to H Hres reserveFee q3.
  assert (q2 = q1) as ->.
  { destruct (totalBurned q1 <? BURNING_LIMIT).
    - apply mulDiv_ok in Hburn as (_ & _ & _ & -> & _). reflexivity.
    - apply ret_ok in Hburn as (_ & -> & _). reflexivity. }
  assert (q3 = q1) as ->.
  { destruct (totalBurned q1 <? BURNING_LIMIT);
      apply mulDiv_ok in Hres as (_ & _ & _ & -> & _); reflexivity. }
  clear Hburn Hres.
  step_in H.
  step_as H Hsup. step_as H Hout. step_as H Hccs. step_as H Hccs0.
  step_in H. step_as H Hscaled. step_in H. step_as H Hpay. step_in H.
  step_as H Hsolvent.
  step_to H Hdevt u2 q4.
  kept (fun s => (_totalSupply s, totalBurned s)) Hdevt. injection K as Kt4 Kb4.
  clear Hdevt.
  step_to H Hb u3 q5.
  apply burn_within_limit_agreement in Hb; [|assumption|].
  2: { unfold supply_agrees in *. rewrite Kt4, Kb4, Kt, Kb. exact Hs. }
  step_to H Hdist u4 q6.
  kept (fun s => (_totalSupply s, totalBurned s)) Hdist. injection K as Kt6 Kb6.
  clear Hdist.
  step_in H. step_as H Hsub. step_in H.
  match type of H with _ ?st = _ => assert (Esb : sb = st) end.
  { destruct (backing d).
    - step_in H. apply revert_if_ok in H as (_ & -> & _). reflexivity.
    - apply require_ok in H as (_ & -> & _). reflexivity. }
  subst sb. unfold supply_agrees in *. simpl. rewrite Kt6, Kb6. exact Hb.
Qed.

Lemma _transfer_agreement d w from to amount :
  rel supply_agreement (_transfer d w from to amount).
Proof.
  intros s [] s' l H Hs. unfold _transfer in H.
  step_to H Hfrom u1 q1.
  kept (fun s => (_totalSupply s, totalBurned s)) Hfrom. injection K as Kt1 Kb1.
  step_to H Hto u2 q2.
  kept (fun s => (_totalSupply s, totalBurned s)) Hto. injection K as Kt2 Kb2.
  clear Hfrom Hto.
  assert (Hs2 : supply_agrees q2).
  { unfold supply_agrees in *. rewrite Kt2, Kb2, Kt1, Kb1. exact Hs. }
  clear Hs Kt1 Kb1 Kt2 Kb2.
  unfold _update in H. do 5 step_in H. cbv zeta in H.
  destruct (to =? this d).
  - step_to H Hin u q.
    kept (fun s => (_totalSupply s, totalBurned s)) Hin. injection K as Kt Kb.
    apply (_handleRefund_agreement d w from amount) in H. apply H.
    unfold supply_agrees in *. rewrite Kt, Kb. exact Hs2.
  - assert (K : (_totalSupply s', totalBurned s') = (_totalSupply q2, totalBurned q2)).
    { destruct (flag (_isExcludedFromFee q2) from || flag (_isExcludedFromFee q2) to).
      - kept (fun s => (_totalSupply s, totalBurned s)) H. exact K.
      - unfold _handleTaxedTransfer in H.
        kept (fun s => (_totalSupply s, totalBurned s)) H. exact K. }
    injection K as Kt Kb. unfold supply_agrees in *. rewrite Kt, Kb. exact Hs2.
Qed.

(** Every entry point but a transfer leaves the two supply counters alone. *)
Lemma call_keeps_supply d w sender c :
  (forall to amount, c <> CallTransfer to amount) ->
  (forall from to amount, c <> CallTransferFrom from to amount) ->
  rel (keeps (fun s => (_totalSupply s, totalBurned s))) (call d w sender c).
Proof.
  intros Hc Hc'.
  destruct c;
    try solve [exfalso; eapply Hc; reflexivity | exfalso; eapply Hc'; reflexivity];
    unfold_entry; rel_walk.
Qed.

Lemma execute_agreement d w sender c s :
  supply_agrees s -> supply_agrees (execute d w sender c s).
Proof.
  intros Hs. unfold execute.
  destruct (call d w sender c s) as [[] s' l|e] eqn:H; [|exact Hs].
  destruct c;
    try (apply (call_keeps_supply d w sender) in H; [|discriminate ..];
         red in H; injection H as Kt Kb; unfold supply_agrees in *;
         rewrite Kt, Kb; exact Hs).
  - simpl in H. eapply _transfer_agreement; eassumption.
  - simpl in H. unfold transferFrom in H. step_to H Hspend u q.
    unfold _spendAllowance in Hspend.
    kept (fun s => (_totalSupply s, totalBurned s)) Hspend. injection K as Kt Kb.
    eapply _transfer_agreement; [eassumption|].
    unfold supply_agrees in *. rewrite Kt, Kb. exact Hs.
Qed.

Lemma reachable_supply_agrees d s : reachable d s -> supply_agrees s.
Proof.
  induction 1 as [deployer o dev s l H | w sender c s Hs IH].
  - apply constructor_ok in H as (_ & _ & _ & _ & ->). reflexivity.
  - apply execute_agreement. exact IH.
Qed.

(** X22. The two supply counters agree.  In every reachable state the supply
    counter that the ERC20 base contract keeps under mint and burn is the
    total supply less [totalBurned], which is what the overridden
    [totalSupply()] answers; and there neither [totalSupply()] nor
    [getCirculatingSupplyPublic()] fails: the contract never holds more than
    the supply that is left. *)
Theorem X22_supply_counters_agree (d : Deploy) (s : State) :
  reachable d s ->
  _totalSupply s = TOTAL_SUPPLY - totalBurned s /\
  totalBurned s <= TOTAL_SUPPLY /\
  totalSupply s = Ok (_totalSupply s) s [] /\
  getCirculatingSupplyPublic d s
  = Ok (_totalSupply s - at_ (_balances s) (this d)) s [].
Proof.
  intros Hs. pose proof (reachable_conserved _ _ Hs) as Hc.
  apply reachable_supply_agrees in Hs. unfold supply_agrees in Hs.
  assert (Hb : totalBurned s <= TOTAL_SUPPLY) by lia.
  assert (Et : totalSupply s = Ok (_totalSupply s) s []).
  { unfold totalSupply, mbind, M_bind, bind, gets, sub.
    apply N.leb_le in Hb. rewrite Hb. simpl.
    replace (TOTAL_SUPPLY - totalBurned s) with (_totalSupply s) by lia. reflexivity. }
  split; [lia|]. split; [exact Hb|]. split; [exact Et|].
  unfold getCirculatingSupplyPublic, getCirculatingSupply.
  erewrite bind_step by exact Et. unfold balanceOf, mbind, M_bind, bind, gets, sub. simpl.
  pose proof (at_le_ledger_sum (_balances s) (this d)) as Hheld. unfold conserved in Hc.
  replace (at_ (_balances s) (this d) <=? _totalSupply s) with true
    by (symmetry; apply N.leb_le; lia).
  reflexivity.
Qed.

Lemma X22_witness :
  _totalSupply (after_refund_tx usd) = TOTAL_SUPPLY - totalBurned (after_refund_tx usd) /\
  totalBurned (after_refund_tx usd) <= TOTAL_SUPPLY /\
  totalSupply (after_refund_tx usd)
  = Ok (_totalSupply (after_refund_tx usd)) (after_refund_tx usd) [] /\
  getCirculatingSupplyPublic usd (after_refund_tx usd)
  = Ok (_totalSupply (after_refund_tx usd) - at_ (_balances (after_refund_tx usd)) 1000)
      (after_refund_tx usd) [].
Proof.
  apply (X22_supply_counters_agree usd).
  unfold after_refund_tx. apply reachable_call, after_first_buy_reachable. left. reflexivity.
Defined.

(** ** When a buy is rejected for lack of tokens *)

(** X23. The sale is capped over the life of the contract.  An accepted buy
    keeps the tokens sold so far, the purchase included, within the total
    supply; since refunds do not lower [tokensSold], once it has reached the
    total supply every buy is rejected, whatever the contract holds; and so
    is every buy while the contract holds no tokens. *)
Theorem X23_sale_is_capped (d : Deploy) (w : World) (sender value : N) (s : State) :
  (forall s' l,
      buy d w sender value s = Ok tt s' l ->
      tokensSold s < tokensSold s' /\ tokensSold s' <= TOTAL_SUPPLY)
  /\
  (TOTAL_SUPPLY <= tokensSold s \/ at_ (_balances s) (this d) = 0 ->
   (exists e, buy d w sender value s = Revert e) /\
   execute d w sender (CallBuy value) s = s).
Proof.
  assert (Hok : forall s' l,
             buy d w sender value s = Ok tt s' l ->
             tokensSold s < tokensSold s' /\ tokensSold s' <= TOTAL_SUPPLY /\
             at_ (_balances s) (this d) <> 0).
  { intros s' l H.
    pose proof (buy_within_supply _ _ _ _ _ _ _ H) as Hcap.
    apply buy_ok in H as (_ & _ & Hnz & _ & _ & Hs).
    split; [lia|]. split; [exact Hcap|].
    intros E. apply Hnz. unfold spec_tokens_issued. rewrite E. apply N.min_r, N.le_0_l. }
  split.
  - intros s' l H. destruct (Hok _ _ H) as (H1 & H2 & _). auto.
  - intros Hbad.
    assert (Hrev : exists e, buy d w sender value s = Revert e).
    { destruct (buy d w sender value s) as [[] s' l|e] eqn:H; [|eauto].
      destruct (Hok _ _ eq_refl) as (H1 & H2 & H3). exfalso. destruct Hbad; [lia | contradiction]. }
    split; [exact Hrev|]. destruct Hrev as [e He].
    eapply execute_reverted. simpl. exact He.
Qed.

Lemma X23_witness :
  (tokensSold (genesis usd) < tokensSold (after_first_buy usd) /\
   tokensSold (after_first_buy usd) <= TOTAL_SUPPLY) /\
  execute usd wallets bob (CallBuy (1000000 * 1000000000000))
    (set_tokensSold TOTAL_SUPPLY (after_refund_tx usd))
  = set_tokensSold TOTAL_SUPPLY (after_refund_tx usd).
Proof.
  split.
  - refine (proj1 (X23_sale_is_capped usd wallets alice (1000000 * 1000000000000)
                     (genesis usd)) (after_first_buy usd) [] _).
    vm_compute. reflexivity.
  - refine (proj2 (proj2 (X23_sale_is_capped usd wallets bob (1000000 * 1000000000000)
                            (set_tokensSold TOTAL_SUPPLY (after_refund_tx usd))) _)).
    left. vm_compute. discriminate.
Defined.

(** ** What a buy credits to a holder *)

(** The accrual written out twice in [_buy], on given values. *)
Lemma buy_accrual_ok user b last cur s a s' l :
  (if last <? cur then
     dividendDifference ← sub cur last;
     scaled ← mul b dividendDifference;
     newDividends ← div scaled MAGNITUDE;
     when (0 <? newDividends) (credit_dividends user newDividends)
   else ret tt) s = Ok a s' l ->
  at_ (accumulatedDividends s') user
  = at_ (accumulatedDividends s) user + b * (cur - last) / MAGNITUDE /\
  (_balances s', lastDividendPerShare s', magnifiedDividendPerShare s')
  = (_balances s, lastDividendPerShare s, magnifiedDividendPerShare s).
Proof.
  intros H.
  destruct (N.ltb_spec last cur) as [Hlt|Hge].
  2: { apply ret_ok in H as (_ & -> & _).
       replace (cur - last) with 0 by lia.
       rewrite N.mul_0_r, N.Div0.div_0_l, N.add_0_r. split; reflexivity. }
  step_as H Hsub. step_as H Hmul. step_as H Hdiv.
  match type of H with when (0 <? ?n) _ _ = _ => destruct (N.ltb_spec 0 n) as [Hn|Hn] end;
    simpl in H.
  - apply credit_dividends_ok in H as ->. simpl. rewrite at_insert_eq. split; reflexivity.
  - apply ret_ok in H as (_ & -> & _). apply N.le_0_r in Hn. rewrite Hn.
    split; [lia | reflexivity].
Qed.

Lemma _buy_accrual d w buyer deposit s s' l lc :
  _buy d w buyer deposit s = Ok tt s' l ->
  isContract w buyer s = Ok false s lc ->
  let b := at_ (_balances s) buyer in
  let last := at_ (lastDividendPerShare s) buyer in
  at_ (accumulatedDividends s') buyer
  = at_ (accumulatedDividends s) buyer
    + b * (magnifiedDividendPerShare s - last) / MAGNITUDE
    + b * (magnifiedDividendPerShare s' - last) / MAGNITUDE /\
  magnifiedDividendPerShare s <= magnifiedDividendPerShare s'.
Proof.
  intros H Hc. cbv zeta. unfold _buy in H.
  step_in H. step_as H Hdep. step_to H Htok tokens q0.
  kept (fun s : State => s) Htok. subst q0. clear Htok.
  step_as H Hnz. step_in H. step_as H Hsold. step_as H Hcap.
  step_as H Hdev. step_as H Hres. step_as H Hrefl.
  step_in H. step_as H Hsold'. step_in H.
  step_to H Hc1 c1 q1. pose proof (isContract_view _ _ _ _ _ _ Hc1) as ->.
  rewrite (isContract_any_state _ _ _ _ _ _ Hc) in Hc1. injection Hc1 as <- _.
  step_to H Hacc1 before q2x.
  unfold balanceOf in Hacc1. step_in Hacc1. simpl in Hacc1.
  step_to Hacc1 Hblock u0 q2. apply ret_ok in Hacc1 as (-> & -> & _).
  assert (K1 : at_ (accumulatedDividends q2) buyer
               = at_ (accumulatedDividends s) buyer
                 + at_ (_balances s) buyer
                   * (magnifiedDividendPerShare s - at_ (lastDividendPerShare s) buyer)
                   / MAGNITUDE /\
               (_balances q2, lastDividendPerShare q2, magnifiedDividendPerShare q2)
               = (_balances s, lastDividendPerShare s, magnifiedDividendPerShare s)).
  { destruct (N.ltb_spec 0 (at_ (_balances s) buyer)) as [Hb|Hb].
    - step_in Hblock. step_in Hblock. simpl in Hblock.
      apply buy_accrual_ok in Hblock as (-> & ->). simpl. split; reflexivity.
    - apply ret_ok in Hblock as (_ & -> & _). simpl.
      replace (at_ (_balances s) buyer) with 0 by lia.
      rewrite N.mul_0_l, N.Div0.div_0_l, N.add_0_r. split; reflexivity. }
  clear Hblock. destruct K1 as (Eacc1 & K1). injection K1 as Kb1 Kl1 Km1.
  step_to H Hdist u1 q3.
  kept (fun s => accumulatedDividends s) Hdist.
  apply _distributeDividends_ok in Hdist as (Em & Kd). injection Kd as Kb2 Kl2 _.
  step_to H Hc2 c2 q4. pose proof (isContract_view _ _ _ _ _ _ Hc2) as ->.
  rewrite (isContract_any_state _ _ _ _ _ _ Hc) in Hc2. injection Hc2 as <- _.
  step_to H Hacc2 u2 q5.
  assert (K2 : at_ (accumulatedDividends q5) buyer
               = at_ (accumulatedDividends q3) buyer
                 + at_ (_balances s) buyer
                   * (magnifiedDividendPerShare q3 - at_ (lastDividendPerShare s) buyer)
                   / MAGNITUDE /\
               magnifiedDividendPerShare q5 = magnifiedDividendPerShare q3).
  { simpl in Hacc2.
    destruct (N.ltb_spec 0 (at_ (_balances s) buyer)) as [Hb|Hb].
    - step_in Hacc2. step_in Hacc2. rewrite Kl2, Kl1 in Hacc2.
      apply buy_accrual_ok in Hacc2 as (-> & E). injection E as _ _ ->.
      split; reflexivity.
    - apply ret_ok in Hacc2 as (_ & -> & _).
      replace (at_ (_balances s) buyer) with 0 by lia.
      rewrite N.mul_0_l, N.Div0.div_0_l, N.add_0_r. split; reflexivity. }
  clear Hacc2. destruct K2 as (Eacc2 & Km2).
  step_to H Hc3 c3 q6. pose proof (isContract_view _ _ _ _ _ _ Hc3) as ->.
  step_to H Hsnap u3 q7.
  kept (fun s => (accumulatedDividends s, magnifiedDividendPerShare s)) Hsnap.
  injection K0 as Ka3 Km3. clear Hsnap.
  step_in H. step_to H Hout u4 q8.
  kept (fun s => (accumulatedDividends s, magnifiedDividendPerShare s)) Hout.
  injection K0 as Ka4 Km4. clear Hout.
  kept (fun s => (accumulatedDividends s, magnifiedDividendPerShare s)) H.
  injection K0 as Ka5 Km5. clear H.
  rewrite Ka5, Ka4, Ka3, Km5, Km4, Km3, Km2, Eacc2, K, Eacc1.
  split; [reflexivity|]. rewrite Em, Km1. lia.
Qed.

(** The amount the view adds to what is credited, written without the case
    distinction. *)
Lemma spec_pending_outstanding user s :
  spec_pending user s
  = at_ (accumulatedDividends s) user
    + at_ (_balances s) user
      * (magnifiedDividendPerShare s - at_ (lastDividendPerShare s) user) / MAGNITUDE.
Proof.
  unfold spec_pending. f_equal.
  destruct (N.eqb_spec (at_ (_balances s) user) 0) as [E|E]; simpl.
  { rewrite E, N.mul_0_l, N.Div0.div_0_l. reflexivity. }
  destruct (N.ltb_spec (at_ (lastDividendPerShare s) user) (magnifiedDividendPerShare s))
    as [Hlt|Hge]; simpl; [reflexivity|].
  replace (magnifiedDividendPerShare s - at_ (lastDividendPerShare s) user) with 0 by lia.
  rewrite N.mul_0_r, N.Div0.div_0_l. reflexivity.
Qed.

(** X24. A buy by a holder credits the earnings outstanding before it twice.
    [_buy] accrues the buyer's existing balance once before the reflection
    fee is distributed and once after, both times from the same snapshot.  So
    for an account without code that already holds tokens, the amount
    credited after an accepted buy is what [pendingDividends] answered before
    it, plus the earnings of the old balance from the old snapshot up to the
    new accumulator; the part of these that was outstanding before the buy is
    in both terms. *)
Theorem X24_buy_credits_outstanding_earnings_twice
    (d : Deploy) (w : World) (sender value pending : N) (s s' : State) (l lc : list Probe) :
  reachable d s ->
  isContract w sender s = Ok false s lc ->
  pendingDividends w sender s = Ok pending s lc ->
  buy d w sender value s = Ok tt s' l ->
  sender <> this d -> devAddress s <> this d -> sender <> devAddress s ->
  let held := at_ (_balances s) sender in
  let last := at_ (lastDividendPerShare s) sender in
  let outstanding := held * (magnifiedDividendPerShare s - last) / MAGNITUDE in
  let upToNow := held * (magnifiedDividendPerShare s' - last) / MAGNITUDE in
  pending = at_ (accumulatedDividends s) sender + outstanding /\
  outstanding <= upToNow /\
  at_ (accumulatedDividends s') sender
  = at_ (accumulatedDividends s) sender + outstanding + upToNow /\
  pendingDividends w sender s' = Ok (pending + upToNow) s' lc.
Proof.
  intros Hs Hc Hp H Hst Hdt Hsd. cbv zeta.
  apply pendingDividends_ok with (lc := lc) in Hp as (_ & _ & ->); [|exact Hc].
  rewrite spec_pending_outstanding.
  pose proof (reachable_conserved _ _ Hs) as Hcons.
  destruct (buy_split _ _ _ _ _ _ _ H Hcons Hst Hdt Hsd) as (_ & _ & _ & _ & Hlast).
  specialize (Hlast lc Hc).
  assert (Hacc : at_ (accumulatedDividends s') sender
                 = at_ (accumulatedDividends s) sender
                   + at_ (_balances s) sender
                     * (magnifiedDividendPerShare s - at_ (lastDividendPerShare s) sender)
                     / MAGNITUDE
                   + at_ (_balances s) sender
                     * (magnifiedDividendPerShare s' - at_ (lastDividendPerShare s) sender)
                     / MAGNITUDE
                 /\ magnifiedDividendPerShare s <= magnifiedDividendPerShare s').
  { clear Hlast Hcons Hs. unfold buy in H.
    apply nonReentrant_ok in H as (Hidle & se & H & ->).
    assert (Hbuy : exists sb,
               (_balances sb, accumulatedDividends sb, lastDividendPerShare sb,
                magnifiedDividendPerShare sb)
               = (_balances s, accumulatedDividends s, lastDividendPerShare s,
                  magnifiedDividendPerShare s) /\
               _buy d w sender (deposit_of d value) sb = Ok tt se l).
    { unfold deposit_of. destruct (backing d).
      - step_in H. step_as H Hmin. step_in H. step_as H Hadd. step_in H.
        eexists. split; [|exact H]; reflexivity.
      - step_as H Hmin. step_as H Hpull. step_in H. step_as H Hadd. step_in H.
        eexists. split; [|exact H]; reflexivity. }
    clear H. destruct Hbuy as (sb & K & H). injection K as Kb Ka Kl Km.
    apply _buy_accrual with (lc := lc) in H;
      [|eapply isContract_any_state; eassumption].
    cbv zeta in H. simpl. rewrite Kb, Ka, Kl, Km in H. exact H. }
  destruct Hacc as (Hacc & Hgrow).
  split; [reflexivity|]. split.
  { apply N.Div0.div_le_mono, N.mul_le_mono_l. lia. }
  split; [exact Hacc|].
  rewrite <- Hacc. apply pendingDividends_caught_up; [|exact Hlast].
  eapply isContract_any_state. eassumption.
Qed.

Lemma X24_witness :
  let s := after_transfer usd in
  let s' := after_second_buy usd in
  let held := at_ (_balances s) alice in
  let last := at_ (lastDividendPerShare s) alice in
  let outstanding := held * (magnifiedDividendPerShare s - last) / MAGNITUDE in
  let upToNow := held * (magnifiedDividendPerShare s' - last) / MAGNITUDE in
  399 = at_ (accumulatedDividends s) alice + outstanding /\
  outstanding <= upToNow /\
  at_ (accumulatedDividends s') alice
  = at_ (accumulatedDividends s) alice + outstanding + upToNow /\
  pendingDividends wallets alice s' = Ok (399 + upToNow) s' [].
Proof.
  refine (X24_buy_credits_outstanding_earnings_twice usd wallets alice
            (1000000 * 1000000000000) 399 (after_transfer usd) (after_second_buy usd)
            [] [] _ _ _ _ _ _ _).
  - apply after_transfer_reachable. left. reflexivity.
  - reflexivity.
  - vm_compute. reflexivity.
  - vm_compute. reflexivity.
  - discriminate.
  - vm_compute. discriminate.
  - vm_compute. discriminate.
Defined.
